(** * SparklineCanvas: the animated sparkline of the timeline

    A shallow embedding of [src/components/chapters/timeline/SparklineCanvas.tsx]:
    the Model Builder ([buildModel]), the paint routine ([draw]), the
    animation step ([step]), the render/resize/visibility event loop
    ([renderOnce] and the three effects) and the hover projection
    ([onMouseMove]).

    Numbers.  A JavaScript number is embedded as [num]: the three special
    values NaN, +Infinity, -Infinity, or a finite value carried as a real
    number.  Arithmetic follows IEEE-754 on the special values; on finite
    values it is the exact real operation (binary64 rounding and the sign of
    zero are not represented).  [Math.PI] is the real number PI and
    [Math.cos] the real cosine.  The properties are therefore stated with
    the expressions of the source, operation by operation, and not with what
    these expressions simplify to on real numbers; where a property turns on
    rounding, [Binary64] has the arithmetic of the source once more on
    primitive floats.  [parseInt] rounds a long digit string to the nearest
    binary64 number ([ParseInt.to_number]).

    The host.  Two functions of the browser are parameters: [measureText],
    the width of a text in the label font, and [isColor], the CSS colour
    parser of the 2D context, which decides whether an assignment to
    [strokeStyle] takes effect.

    Strings are [string]s of Stdlib, a character being one code unit below
    256. *)

From Stdlib Require Import Reals Lra Lia ZArith List Bool String Ascii.
From Stdlib Require DecimalString.
From Stdlib Require PrimFloat.
Import ListNotations.

Local Open Scope R_scope.

(** ** JavaScript numbers *)

Module JS.

Inductive num : Type :=
| NaN
| PInf
| NInf
| Fin (r : R).

Definition zero : num := Fin 0.

Definition isFinite (x : num) : bool :=
  match x with Fin _ => true | _ => false end.

Definition isNaN (x : num) : bool :=
  match x with NaN => true | _ => false end.

(** Three-way sign of a real, used by the special-value rules. *)
Inductive sign := Neg | Zer | Pos.

Definition sgn (r : R) : sign :=
  if Rlt_dec 0 r then Pos else if Rlt_dec r 0 then Neg else Zer.

Definition neg (x : num) : num :=
  match x with
  | NaN => NaN
  | PInf => NInf
  | NInf => PInf
  | Fin r => Fin (- r)
  end.

Definition add (x y : num) : num :=
  match x, y with
  | Fin a, Fin b => Fin (a + b)
  | NaN, _ | _, NaN => NaN
  | PInf, NInf | NInf, PInf => NaN
  | PInf, _ | _, PInf => PInf
  | NInf, _ | _, NInf => NInf
  end.

Definition sub (x y : num) : num := add x (neg y).

(** An infinity scaled by a finite factor. *)
Definition scale_inf (positive : bool) (r : R) : num :=
  match sgn r with
  | Zer => NaN
  | Pos => if positive then PInf else NInf
  | Neg => if positive then NInf else PInf
  end.

Definition mul (x y : num) : num :=
  match x, y with
  | Fin a, Fin b => Fin (a * b)
  | NaN, _ | _, NaN => NaN
  | PInf, PInf | NInf, NInf => PInf
  | PInf, NInf | NInf, PInf => NInf
  | PInf, Fin r | Fin r, PInf => scale_inf true r
  | NInf, Fin r | Fin r, NInf => scale_inf false r
  end.

(** Division; a zero divisor is taken as +0. *)
Definition div (x y : num) : num :=
  match x, y with
  | Fin a, Fin b =>
      match sgn b with
      | Zer => match sgn a with Zer => NaN | Pos => PInf | Neg => NInf end
      | _ => Fin (a / b)
      end
  | NaN, _ | _, NaN => NaN
  | Fin _, (PInf | NInf) => Fin 0
  | (PInf | NInf), (PInf | NInf) => NaN
  | PInf, Fin b => match sgn b with Neg => NInf | _ => PInf end
  | NInf, Fin b => match sgn b with Neg => PInf | _ => NInf end
  end.

(** [x < y], [x <= y], [x >= y] and [x === y] of JavaScript: false as soon
    as one side is NaN. *)
Definition ltb (x y : num) : bool :=
  match x, y with
  | NaN, _ | _, NaN => false
  | Fin a, Fin b => if Rlt_dec a b then true else false
  | NInf, NInf => false
  | NInf, _ => true
  | _, NInf => false
  | PInf, _ => false
  | Fin _, PInf => true
  end.

Definition eqb (x y : num) : bool :=
  match x, y with
  | Fin a, Fin b => if Req_dec_T a b then true else false
  | PInf, PInf | NInf, NInf => true
  | _, _ => false
  end.

Definition leb (x y : num) : bool := ltb x y || eqb x y.
Definition geb (x y : num) : bool := leb y x.

(** [Math.max] and [Math.min] of two arguments: NaN is contagious. *)
Definition max (x y : num) : num :=
  match x, y with
  | NaN, _ | _, NaN => NaN
  | Fin a, Fin b => Fin (Rmax a b)
  | PInf, _ | _, PInf => PInf
  | NInf, z | z, NInf => z
  end.

Definition min (x y : num) : num :=
  match x, y with
  | NaN, _ | _, NaN => NaN
  | Fin a, Fin b => Fin (Rmin a b)
  | NInf, _ | _, NInf => NInf
  | PInf, z | z, PInf => z
  end.

(** [Math.floor]: the largest integer not above the argument. *)
Definition floor (x : num) : num :=
  match x with
  | Fin r => Fin (IZR (Zfloor r))
  | other => other
  end.

(** [Math.round]: the nearest integer, halves rounded up. *)
Definition round (x : num) : num :=
  match x with
  | Fin r => Fin (IZR (Zfloor (r + / 2)))
  | other => other
  end.

(** [Math.cos] and [Math.PI]. *)
Definition cos (x : num) : num :=
  match x with
  | Fin r => Fin (Rtrigo_def.cos r)
  | _ => NaN
  end.

Definition PI : num := Fin Rtrigo1.PI.

End JS.

Declare Scope num_scope.
Delimit Scope num_scope with num.
Bind Scope num_scope with JS.num.
Infix "+" := JS.add : num_scope.
Infix "-" := JS.sub : num_scope.
Infix "*" := JS.mul : num_scope.
Infix "/" := JS.div : num_scope.
Coercion JS.Fin : R >-> JS.num.

(** ** Strings and regular expressions

    The two patterns of [buildModel] are kept as data and run by a
    backtracking matcher with the priorities of the JavaScript engine:
    quantifiers are greedy, an optional part is tried before it is skipped,
    and [exec] returns the leftmost match. *)

Module Regex.

Definition chars := list ascii.

(** The character classes [\d] and [\s]. *)
Definition is_digit (c : ascii) : bool :=
  let n := nat_of_ascii c in (48 <=? n)%nat && (n <=? 57)%nat.

Definition is_space (c : ascii) : bool :=
  let n := nat_of_ascii c in
  ((9 <=? n)%nat && (n <=? 13)%nat) || (n =? 32)%nat || (n =? 160)%nat.

#[local] Set Warnings "-register-all".

Inductive re : Type :=
| Lit (s : string)                 (* the characters of s, in order *)
| Star (cls : ascii -> bool)       (* cls*  *)
| Plus (cls : ascii -> bool)       (* cls+  *)
| Opt (body : list re)             (* (?:body)?  *)
| Group (i : nat) (body : list re) (* the i-th capturing group *).

Definition captures := list (nat * chars).

Fixpoint capture (i : nat) (c : captures) : option chars :=
  match c with
  | [] => None
  | (j, v) :: rest => if (i =? j)%nat then Some v else capture i rest
  end.

Fixpoint strip_prefix (p s : chars) : option chars :=
  match p, s with
  | [], _ => Some s
  | _ :: _, [] => None
  | a :: p', b :: s' => if Ascii.eqb a b then strip_prefix p' s' else None
  end.

(** Greedy repetition of a class: the longest run first, then shorter ones. *)
Fixpoint star {A} (cls : ascii -> bool) (s : chars) (k : chars -> option A)
  : option A :=
  match s with
  | c :: s' =>
      if cls c
      then match star cls s' k with Some r => Some r | None => k s end
      else k s
  | [] => k []
  end.

(** What was consumed between the input [s] and its suffix [rest]. *)
Definition consumed (s rest : chars) : chars :=
  firstn (List.length s - List.length rest) s.

Fixpoint run (r : re) (s : chars) (c : captures)
  (k : chars -> captures -> option captures) {struct r} : option captures :=
  let run_seq :=
    fix run_seq (rs : list re) (s : chars) (c : captures)
      (k : chars -> captures -> option captures) {struct rs} : option captures :=
      match rs with
      | [] => k s c
      | r' :: rs' => run r' s c (fun s' c' => run_seq rs' s' c' k)
      end in
  match r with
  | Lit l =>
      match strip_prefix (list_ascii_of_string l) s with
      | Some rest => k rest c
      | None => None
      end
  | Star cls => star cls s (fun rest => k rest c)
  | Plus cls =>
      match s with
      | a :: s' => if cls a then star cls s' (fun rest => k rest c) else None
      | [] => None
      end
  | Opt body =>
      match run_seq body s c k with
      | Some res => Some res
      | None => k s c
      end
  | Group i body =>
      run_seq body s c (fun rest c' => k rest ((i, consumed s rest) :: c'))
  end.

Fixpoint run_seq (rs : list re) (s : chars) (c : captures)
  (k : chars -> captures -> option captures) : option captures :=
  match rs with
  | [] => k s c
  | r :: rs' => run r s c (fun s' c' => run_seq rs' s' c' k)
  end.

(** A match of the whole pattern starting exactly at the head of [s]. *)
Definition match_here (rs : list re) (s : chars) : option captures :=
  run_seq rs s [] (fun _ c => Some c).

(** [pattern.exec(s)]: the first start position with a match. *)
Fixpoint exec_chars (rs : list re) (s : chars) : option captures :=
  match match_here rs s with
  | Some c => Some c
  | None =>
      match s with
      | [] => None
      | _ :: s' => exec_chars rs s'
      end
  end.

Definition exec (rs : list re) (s : string) : option captures :=
  exec_chars rs (list_ascii_of_string s).

(** [pattern.test(s)]. *)
Definition test (rs : list re) (s : string) : bool :=
  match exec rs s with Some _ => true | None => false end.

End Regex.

(** [parseInt(s, 10)]: leading white space, a sign, then decimal digits up
    to the first other character; NaN without a digit. *)
Module ParseInt.

Import Regex.

Fixpoint skip_space (s : chars) : chars :=
  match s with
  | c :: s' => if is_space c then skip_space s' else s
  | [] => []
  end.

Definition digit_value (c : ascii) : Z :=
  Z.of_nat (nat_of_ascii c - 48).

Fixpoint digits (acc : option Z) (s : chars) : option Z :=
  match s with
  | c :: s' =>
      if is_digit c
      then digits (Some (match acc with
                         | Some v => 10 * v + digit_value c
                         | None => digit_value c
                         end)%Z) s'
      else acc
  | [] => acc
  end.

(** The Number value of a whole number that is not negative: the number
    itself below 2^53, above that the nearest number with a 53-bit
    significand, ties to the even one, and +Infinity from 2^1024 on.  (The
    engines that convert the whole digit string do this; the language leaves
    digits after the 20th to the implementation.) *)
Definition to_number (z : Z) : JS.num :=
  if (z <? 2 ^ 53)%Z then JS.Fin (IZR z)
  else
    let e := (Z.log2 z - 52)%Z in
    let q := (z / 2 ^ e)%Z in
    let r := (z mod 2 ^ e)%Z in
    let half := (2 ^ (e - 1))%Z in
    let q' :=
      if (r <? half)%Z then q
      else if (half <? r)%Z then (q + 1)%Z
      else if Z.even q then q else (q + 1)%Z in
    if (2 ^ 1024 <=? q' * 2 ^ e)%Z then JS.PInf
    else JS.Fin (IZR (q' * 2 ^ e)).

Definition parseInt10 (s : chars) : JS.num :=
  let s1 := skip_space s in
  let negative :=
    match s1 with
    | c :: _ => Ascii.eqb c "-"
    | [] => false
    end in
  let s2 :=
    match s1 with
    | c :: t => if Ascii.eqb c "-" || Ascii.eqb c "+" then t else s1
    | [] => s1
    end in
  match digits None s2 with
  | Some v => if negative then JS.neg (to_number v) else to_number v
  | None => JS.NaN
  end.

End ParseInt.

(** ** The component *)

Module Sparkline.

Import Regex.
Local Open Scope string_scope.
Local Open Scope num_scope.

(** [SparklineCanvasProps]; an absent (undefined) prop is [None]. *)
Record Props : Type := {
  percent : option JS.num;
  xLabels : option (string * string);
  ariaLabel : option string;
  color : option string;
  compact : option bool;
  durationMs : option JS.num;
  lineWidthOverride : option JS.num;
  glowRadiusOverride : option JS.num;
  areaAlphaOverride : option JS.num
}.

(** The default of the destructuring [color = 'rgba(16,185,129,0.8)']. *)
Definition color_of (P : Props) : string :=
  match color P with
  | Some c => c
  | None => "rgba(16,185,129,0.8)"
  end.

(** [compact ? a : b]: undefined is falsy. *)
Definition is_compact (P : Props) : bool :=
  match compact P with
  | Some b => b
  | None => false
  end.

(** The four numbers interpolated into an [`rgba(${r},${g},${b},${a})`]
    template. *)
Record Rgba : Type := { red : JS.num; green : JS.num; blue : JS.num; alpha : JS.num }.

Record Model : Type := {
  width : JS.num;
  height : JS.num;
  padTop : JS.num;
  padBottom : JS.num;
  padX : JS.num;
  strokeColor : string;
  tipGlowColor : string;
  label : string;
  labelWidth : JS.num;
  startX : JS.num;
  startY : JS.num;
  endX : JS.num;
  yFinal : JS.num;
  areaStartColor : Rgba;
  areaEndColor : Rgba;
  lineWidth : JS.num;
  tipRadius : JS.num;
  glowRadius : JS.num;
  duration : JS.num
}.

(** [/239,\s*68,\s*68/] *)
Definition red_signature : list re :=
  [Lit "239,"; Star is_space; Lit "68,"; Star is_space; Lit "68"].

(** [\s*\d+\s*], the body of the groups 1 to 3. *)
Definition channel : list re := [Star is_space; Plus is_digit; Star is_space].

(** The pattern of line 101, written here with a blank before each closing
    parenthesis of a group:
    [/rgba?\(( \s*\d+\s* ),( \s*\d+\s* ),( \s*\d+\s* )(?:,( \s*\d*\.?\d+\s* ))?\)/] *)
Definition rgba_pattern : list re :=
  [Lit "rgb"; Opt [Lit "a"]; Lit "(";
   Group 1 channel; Lit ",";
   Group 2 channel; Lit ",";
   Group 3 channel;
   Opt [Lit ",";
        Group 4 [Star is_space; Star is_digit; Opt [Lit "."]; Plus is_digit;
                 Star is_space]];
   Lit ")"].

(** [parseInt(rgbaMatch[i]!, 10)]; an absent group reads as the string
    "undefined", which has no digit. *)
Definition parsed_group (i : nat) (c : captures) : JS.num :=
  match capture i c with
  | Some g => ParseInt.parseInt10 g
  | None => JS.NaN
  end.

(** The text of a number that holds an integer, as [`${n}`] prints it. *)
Definition string_of_integral (n : JS.num) : string :=
  match n with
  | JS.NaN => "NaN"
  | JS.PInf => "Infinity"
  | JS.NInf => "-Infinity"
  | JS.Fin r => DecimalString.NilZero.string_of_int (Z.to_int (Zfloor r))
  end.

Section WithCanvas.

(** [ctx.measureText(label).width] under the 12px font set by [buildModel]:
    the text metric of the host canvas, a finite number of CSS pixels. *)
Variable measureText : string -> R.

Definition buildModel (P : Props) (cssW cssH : JS.num) : Model :=
  let pRaw : JS.num :=
    match percent P with
    | Some x => if JS.isFinite x then x else 100
    | None => 100
    end in
  let p := JS.max 0 (JS.min 1000 pRaw) in
  let stroke := color_of P in
  let glow :=
    if test red_signature (color_of P)
    then "rgba(239,68,68,0.9)" else "rgba(16,185,129,0.9)" in

  let padTop : JS.num := if is_compact P then 6 else 10 in
  let padBottom : JS.num := if is_compact P then 14 else 18 in
  let padX : JS.num := if is_compact P then 8 else 10 in

  let label :=
    (if JS.geb p 0 then "+" else EmptyString) ++ string_of_integral (JS.round p) ++ "%" in
  let labelWidth : JS.num := measureText label in

  let rightGutterBase : JS.num := if is_compact P then 30 else 36 in
  let rightGutter := JS.max rightGutterBase (labelWidth + 18) in

  let leftAxis : JS.num := (if is_compact P then 16 else 20) + 8 in

  let startX := padX + leftAxis in
  let endX := JS.max startX (cssW - padX - rightGutter) in

  let Hdraw := JS.max 1 (cssH - padTop - padBottom) in
  let normFinal := JS.max 0 (JS.min 1 (p / 1000)) in
  let startY := cssH - padBottom - 1 in
  let yFinal := padTop + (1 - normFinal) * Hdraw in

  let rgbaMatch := exec rgba_pattern stroke in
  let baseR : JS.num :=
    match rgbaMatch with Some c => parsed_group 1 c | None => 16 end in
  let baseG : JS.num :=
    match rgbaMatch with Some c => parsed_group 2 c | None => 185 end in
  let baseB : JS.num :=
    match rgbaMatch with Some c => parsed_group 3 c | None => 129 end in
  let areaStartAlpha : JS.num :=
    match areaAlphaOverride P with
    | Some a => JS.max 0 (JS.min 1 a)
    | None => if is_compact P then 8 / 100 else 12 / 100
    end%R in
  let areaStartColor :=
    {| red := baseR; green := baseG; blue := baseB; alpha := areaStartAlpha |} in
  let areaEndColor :=
    {| red := baseR; green := baseG; blue := baseB; alpha := 0 |} in
  let lineWidth : JS.num :=
    match lineWidthOverride P with
    | Some w => w
    | None => if is_compact P then 12 / 10 else 14 / 10
    end%R in
  let tipRadius : JS.num := (if is_compact P then 19 / 10 else 24 / 10)%R in
  let glowRadius : JS.num :=
    match glowRadiusOverride P with
    | Some g => g
    | None => if is_compact P then 8 else 10
    end in
  let duration : JS.num :=
    match durationMs P with
    | Some d =>
        if JS.isFinite d then JS.max 200 (JS.min 4000 (JS.floor d)) else 980
    | None => 980
    end in

  {| width := cssW; height := cssH; padTop := padTop; padBottom := padBottom;
     padX := padX; strokeColor := stroke; tipGlowColor := glow; label := label;
     labelWidth := labelWidth; startX := startX; startY := startY; endX := endX;
     yFinal := yFinal; areaStartColor := areaStartColor;
     areaEndColor := areaEndColor; lineWidth := lineWidth;
     tipRadius := tipRadius; glowRadius := glowRadius; duration := duration |}.

(** The object literal returned by [buildModel], read by property name as
    the untyped [modelRef.current] is. *)
Inductive value : Type :=
| VNum (n : JS.num)
| VStr (s : string)
| VRgba (c : Rgba).

Definition Model_get (m : Model) (key : string) : option value :=
  if key =? "width" then Some (VNum (width m))
  else if key =? "height" then Some (VNum (height m))
  else if key =? "padTop" then Some (VNum (padTop m))
  else if key =? "padBottom" then Some (VNum (padBottom m))
  else if key =? "padX" then Some (VNum (padX m))
  else if key =? "strokeColor" then Some (VStr (strokeColor m))
  else if key =? "tipGlowColor" then Some (VStr (tipGlowColor m))
  else if key =? "label" then Some (VStr (label m))
  else if key =? "labelWidth" then Some (VNum (labelWidth m))
  else if key =? "startX" then Some (VNum (startX m))
  else if key =? "startY" then Some (VNum (startY m))
  else if key =? "endX" then Some (VNum (endX m))
  else if key =? "yFinal" then Some (VNum (yFinal m))
  else if key =? "areaStartColor" then Some (VRgba (areaStartColor m))
  else if key =? "areaEndColor" then Some (VRgba (areaEndColor m))
  else if key =? "lineWidth" then Some (VNum (lineWidth m))
  else if key =? "tipRadius" then Some (VNum (tipRadius m))
  else if key =? "glowRadius" then Some (VNum (glowRadius m))
  else if key =? "duration" then Some (VNum (duration m))
  else None.

(** *** The paint routine *)

(** Calls on the 2D context, in the order [draw] makes them. *)
Inductive CanvasCmd : Type :=
| SetTransform (a b c d e f : JS.num)
| Scale (x y : JS.num)
| ClearRect (x y w h : JS.num)
| StrokeStyle (s : string)
| FillStyle (s : string)
| LineWidth (w : JS.num)
| LineCap (s : string)
| SetLineDash (segments : list JS.num)
| BeginPath
| MoveTo (x y : JS.num)
| LineTo (x y : JS.num)
| Stroke
| Font (s : string)
| TextAlign (s : string)
| TextBaseline (s : string)
| FillText (text : string) (x y : JS.num).

(** [0.5 * (1 - Math.cos(Math.PI * x))], written out in [draw] and again
    in [step]. *)
Definition cosine_ease (x : JS.num) : JS.num :=
  (5 / 10)%R * (1 - JS.cos (JS.PI * x)).

Definition sans (size : string) : string :=
  size ++ " ui-sans-serif, system-ui, -apple-system, Segoe UI, Roboto, Helvetica, Arial".

Definition draw (P : Props) (dpr : JS.num) (model : Model) (tt : JS.num)
  (labels : option (string * string)) : list CanvasCmd :=
  let prog := cosine_ease (JS.max 0 (JS.min 1 tt)) in
  let tipX := startX model + (endX model - startX model) * prog in
  let tipY := startY model + (yFinal model - startY model) * prog in
  [ SetTransform 1 0 0 1 0 0;
    Scale dpr dpr;
    ClearRect 0 0 (width model) (height model) ]
  ++
  [ StrokeStyle "rgba(148,163,184,0.20)";
    LineWidth 1;
    BeginPath;
    MoveTo (padX model + 20) (padTop model + (5 / 10)%R);
    LineTo (padX model + 20) (height model - padBottom model + (5 / 10)%R);
    Stroke ]
  ++
  [ StrokeStyle "rgba(148,163,184,0.12)";
    SetLineDash [JS.Fin 2; JS.Fin 3];
    BeginPath;
    MoveTo (startX model) (startY model + (5 / 10)%R);
    LineTo (endX model) (startY model + (5 / 10)%R);
    Stroke;
    SetLineDash [] ]
  ++
  [ StrokeStyle (strokeColor model);
    LineWidth (lineWidth model);
    LineCap "round";
    BeginPath;
    MoveTo (startX model) (startY model);
    LineTo tipX tipY;
    Stroke ]
  ++
  match labels with
  | Some (l0, l1) =>
      let x0 := padX model + 24 in
      let x1 := endX model in
      let yAxisLabels :=
        height model - padBottom model + (if is_compact P then 10 else 12) in
      [ FillStyle "rgba(148,163,184,0.75)";
        Font (sans "10.5px");
        TextAlign "center";
        TextBaseline "top";
        FillText l0 x0 yAxisLabels;
        FillText l1 x1 yAxisLabels ]
  | None => []
  end.

(** What a command list leaves on the surface as stroked segments: the
    context keeps a stroke style, a line width and a current path; [Stroke]
    paints the path with the style and width of that moment.  The context
    ignores a line width that is not a positive finite number, and a stroke
    style that it does not take for a CSS colour: [isColor] is the colour
    parser of the host. *)
Record Segment : Type := {
  seg_style : string;
  seg_width : JS.num;
  seg_from : JS.num * JS.num;
  seg_to : JS.num * JS.num
}.

Record Pen : Type := {
  pen_style : string;
  pen_width : JS.num;
  pen_at : option (JS.num * JS.num);
  pen_path : list ((JS.num * JS.num) * (JS.num * JS.num))
}.

Definition fresh_pen : Pen :=
  {| pen_style := "#000000"; pen_width := 1; pen_at := None; pen_path := [] |}.

Definition pen_step (isColor : string -> bool) (pen : Pen) (c : CanvasCmd)
  : Pen * list Segment :=
  match c with
  | StrokeStyle s =>
      ({| pen_style := if isColor s then s else pen_style pen;
          pen_width := pen_width pen; pen_at := pen_at pen;
          pen_path := pen_path pen |}, [])
  | LineWidth w =>
      ({| pen_style := pen_style pen;
          pen_width := if JS.isFinite w && JS.ltb 0 w then w else pen_width pen;
          pen_at := pen_at pen; pen_path := pen_path pen |}, [])
  | BeginPath =>
      ({| pen_style := pen_style pen; pen_width := pen_width pen;
          pen_at := None; pen_path := [] |}, [])
  | MoveTo x y =>
      ({| pen_style := pen_style pen; pen_width := pen_width pen;
          pen_at := Some (x, y); pen_path := pen_path pen |}, [])
  | LineTo x y =>
      ({| pen_style := pen_style pen; pen_width := pen_width pen;
          pen_at := Some (x, y);
          pen_path :=
            match pen_at pen with
            | Some from => pen_path pen ++ [(from, (x, y))]
            | None => pen_path pen
            end |}, [])
  | Stroke =>
      (pen,
       map (fun ft => {| seg_style := pen_style pen; seg_width := pen_width pen;
                         seg_from := fst ft; seg_to := snd ft |})
           (pen_path pen))
  | _ => (pen, [])
  end.

Fixpoint strokes (isColor : string -> bool) (pen : Pen)
  (cmds : list CanvasCmd) : list Segment :=
  match cmds with
  | [] => []
  | c :: rest =>
      let '(pen', out) := pen_step isColor pen c in
      out ++ strokes isColor pen' rest
  end.

(** *** Hover projection *)

Record Hover : Type := { hover_x : JS.num; hover_y : JS.num; hover_pct : JS.num }.

(** The handler of [onMouseMove]: the new hover state, unchanged while no
    Model is cached.  [localX] is [e.clientX - rect.left]. *)
Definition onMouseMove (modelRef : option Model) (clientX rectLeft : JS.num)
  (hover : option Hover) : option Hover :=
  match modelRef with
  | None => hover
  | Some m =>
      let localX := clientX - rectLeft in
      let clampedX := JS.max (startX m) (JS.min (endX m) localX) in
      let ratio :=
        if JS.eqb (endX m) (startX m) then JS.zero
        else (clampedX - startX m) / (endX m - startX m) in
      let yOnLine := startY m + (yFinal m - startY m) * ratio in
      let base :=
        match Model_get m "pValue" with
        | Some (VNum v) => v
        | _ => JS.zero
        end in
      let pct := JS.max 0 (JS.min 1000 (base * ratio)) in
      Some {| hover_x := clampedX; hover_y := yOnLine; hover_pct := pct |}
  end.

(** The tooltip text [`${Math.round(hover.pct)}%`]. *)
Definition tooltip (h : Hover) : string :=
  string_of_integral (JS.round (hover_pct h)) ++ "%".

(** *** The event loop

    The refs and React state of one mounted instance, the wrapper's box and
    the queue of animation-frame callbacks of the host.  A callback is the
    closure [step] of one [renderOnce] call: it keeps that call's Model,
    start time, pixel ratio, props and visibility. *)

Record Chain : Type := {
  chain_model : Model;
  chain_start : JS.num;
  chain_dpr : JS.num;
  chain_props : Props;
  chain_inView : bool
}.

(** One call of [draw] as the surface saw it. *)
Record Paint : Type := {
  painted : Model;             (* the Model handed to draw *)
  paint_progress : JS.num;     (* the progress handed to draw *)
  paint_cached : option Model; (* modelRef.current at that moment *)
  paint_surface : option (JS.num * JS.num); (* CSS size of the canvas then *)
  paint_cmds : list CanvasCmd
}.

Record State : Type := {
  props : Props;               (* props closed over by the current renderOnce *)
  latest : Props;              (* props of the last render *)
  inView : bool;
  rect : JS.num * JS.num;      (* wrapper.getBoundingClientRect(): width, height *)
  devicePixelRatio : JS.num;
  now : JS.num;                (* performance.now() *)
  canvas_css : option (JS.num * JS.num); (* canvas.style.width / height, px *)
  canvas_bitmap : JS.num * JS.num; (* canvas.width / height *)
  modelRef : option Model;
  rafRef : option nat;
  has_cleanup : bool;          (* the last run of the render effect returned its cleanup *)
  frames : list (nat * Chain); (* pending requestAnimationFrame callbacks *)
  next_handle : nat;
  paints : list Paint          (* every draw so far, oldest first *)
}.

(** [typeof document === 'undefined']: effects and animation frames only
    run in a browser, where [document] exists. *)
Definition document_undefined : bool := false.

(** [x || 1] on a number: 0 and NaN are falsy. *)
Definition or_one (x : JS.num) : JS.num :=
  if JS.isNaN x || JS.eqb x 0 then 1 else x.

Definition requestAnimationFrame (st : State) (cb : Chain) : State :=
  {| props := props st; latest := latest st; inView := inView st;
     rect := rect st;
     devicePixelRatio := devicePixelRatio st; now := now st;
     canvas_css := canvas_css st; canvas_bitmap := canvas_bitmap st;
     modelRef := modelRef st;
     rafRef := Some (next_handle st); has_cleanup := has_cleanup st;
     frames := frames st ++ [(next_handle st, cb)];
     next_handle := S (next_handle st);
     paints := paints st |}.

Definition cancelAnimationFrame (st : State) (h : nat) : State :=
  {| props := props st; latest := latest st; inView := inView st;
     rect := rect st;
     devicePixelRatio := devicePixelRatio st; now := now st;
     canvas_css := canvas_css st; canvas_bitmap := canvas_bitmap st;
     modelRef := modelRef st; rafRef := rafRef st;
     has_cleanup := has_cleanup st;
     frames := filter (fun e => negb (Nat.eqb (fst e) h)) (frames st);
     next_handle := next_handle st;
     paints := paints st |}.

(** [renderOnce] of a mounted instance: the canvas, the wrapper and the 2D
    context exist.  It sizes the canvas, builds and caches the Model, and
    requests the first frame of a new chain; it cancels nothing. *)
Definition renderOnce (st : State) : State :=
  let rawDpr := or_one (devicePixelRatio st) in
  let dpr := JS.min 2 (JS.max 1 (JS.floor rawDpr)) in
  let cssW := JS.max 1 (JS.floor (fst (rect st))) in
  let cssH := JS.max 1 (JS.floor (snd (rect st))) in
  let model := buildModel (props st) cssW cssH in
  let st1 :=
    {| props := props st; latest := latest st; inView := inView st;
     rect := rect st;
       devicePixelRatio := devicePixelRatio st; now := now st;
       canvas_css := Some (cssW, cssH);
       canvas_bitmap := (JS.max 1 (JS.floor (cssW * dpr)),
                         JS.max 1 (JS.floor (cssH * dpr)));
       modelRef := Some model;
       rafRef := rafRef st; has_cleanup := has_cleanup st;
       frames := frames st;
       next_handle := next_handle st; paints := paints st |} in
  requestAnimationFrame st1
    {| chain_model := model; chain_start := now st; chain_dpr := dpr;
       chain_props := props st; chain_inView := inView st |}.

(** The callback [step] of a chain, run by the host with timestamp [ts]. *)
Definition step (cb : Chain) (ts : JS.num) (st : State) : State :=
  let model := chain_model cb in
  let raw := JS.min 1 (JS.max 0 ((ts - chain_start cb) / duration model)) in
  let eased := cosine_ease raw in
  let cmds := draw (chain_props cb) (chain_dpr cb) model eased
                   (xLabels (chain_props cb)) in
  let st1 :=
    {| props := props st; latest := latest st; inView := inView st;
     rect := rect st;
       devicePixelRatio := devicePixelRatio st; now := now st;
       canvas_css := canvas_css st; canvas_bitmap := canvas_bitmap st;
       modelRef := modelRef st; rafRef := rafRef st;
       has_cleanup := has_cleanup st; frames := frames st;
       next_handle := next_handle st;
       paints := paints st ++
         [{| painted := model; paint_progress := eased;
             paint_cached := modelRef st; paint_surface := canvas_css st;
             paint_cmds := cmds |}] |} in
  if JS.ltb raw 1 && (chain_inView cb || document_undefined)
  then requestAnimationFrame st1 cb
  else st1.

Definition with_cleanup (st : State) (b : bool) : State :=
  {| props := props st; latest := latest st; inView := inView st;
     rect := rect st;
     devicePixelRatio := devicePixelRatio st; now := now st;
     canvas_css := canvas_css st; canvas_bitmap := canvas_bitmap st;
     modelRef := modelRef st; rafRef := rafRef st;
     has_cleanup := b; frames := frames st;
     next_handle := next_handle st; paints := paints st |}.

(** The cleanup that the render effect returns after a [renderOnce]; a run
    that left early (not visible) returns none. *)
Definition cleanup (st : State) : State :=
  if has_cleanup st
  then match rafRef st with
       | Some h => cancelAnimationFrame st h
       | None => st
       end
  else st.

(** The body of the render effect. *)
Definition render_effect (st : State) : State :=
  if negb (inView st) && negb document_undefined
  then with_cleanup st false
  else with_cleanup (renderOnce st) true.

(** Object.is on numbers, and the comparison of the dependency list
    [percent, color, JSON.stringify(xLabels), inView, compact] of
    [renderOnce] between two renders. *)
Definition same_num (x y : JS.num) : bool :=
  match x, y with
  | JS.NaN, JS.NaN => true
  | _, _ => JS.eqb x y
  end.

Definition same_option {A} (eq : A -> A -> bool) (x y : option A) : bool :=
  match x, y with
  | Some a, Some b => eq a b
  | None, None => true
  | _, _ => false
  end.

Definition same_deps (P Q : Props) : bool :=
  same_option same_num (percent P) (percent Q)
  && (color_of P =? color_of Q)
  && same_option (fun a b => (fst a =? fst b) && (snd a =? snd b))
       (xLabels P) (xLabels Q)
  && same_option Bool.eqb (compact P) (compact Q).

(** A render with props P: [with_props] when it makes a new [renderOnce]
    (a dependency changed), [with_latest] when it keeps the old one. *)
Definition with_latest (st : State) (P : Props) : State :=
  {| props := props st; latest := P; inView := inView st;
     rect := rect st;
     devicePixelRatio := devicePixelRatio st; now := now st;
     canvas_css := canvas_css st; canvas_bitmap := canvas_bitmap st;
     modelRef := modelRef st; rafRef := rafRef st;
     has_cleanup := has_cleanup st; frames := frames st;
     next_handle := next_handle st; paints := paints st |}.

Definition with_props (st : State) (P : Props) : State :=
  {| props := P; latest := P; inView := inView st; rect := rect st;
     devicePixelRatio := devicePixelRatio st; now := now st;
     canvas_css := canvas_css st; canvas_bitmap := canvas_bitmap st;
     modelRef := modelRef st; rafRef := rafRef st;
     has_cleanup := has_cleanup st; frames := frames st;
     next_handle := next_handle st; paints := paints st |}.

Definition with_inView (st : State) (v : bool) : State :=
  {| props := props st; latest := latest st; inView := v; rect := rect st;
     devicePixelRatio := devicePixelRatio st; now := now st;
     canvas_css := canvas_css st; canvas_bitmap := canvas_bitmap st;
     modelRef := modelRef st; rafRef := rafRef st;
     has_cleanup := has_cleanup st; frames := frames st;
     next_handle := next_handle st; paints := paints st |}.

Definition with_rect (st : State) (w h : JS.num) : State :=
  {| props := props st; latest := latest st; inView := inView st;
     rect := (w, h);
     devicePixelRatio := devicePixelRatio st; now := now st;
     canvas_css := canvas_css st; canvas_bitmap := canvas_bitmap st;
     modelRef := modelRef st; rafRef := rafRef st;
     has_cleanup := has_cleanup st; frames := frames st;
     next_handle := next_handle st; paints := paints st |}.

Definition with_now (st : State) (t : JS.num) : State :=
  {| props := props st; latest := latest st; inView := inView st;
     rect := rect st;
     devicePixelRatio := devicePixelRatio st; now := t;
     canvas_css := canvas_css st; canvas_bitmap := canvas_bitmap st;
     modelRef := modelRef st; rafRef := rafRef st;
     has_cleanup := has_cleanup st; frames := frames st;
     next_handle := next_handle st; paints := paints st |}.

Definition take_frames (st : State) : State :=
  {| props := props st; latest := latest st; inView := inView st;
     rect := rect st;
     devicePixelRatio := devicePixelRatio st; now := now st;
     canvas_css := canvas_css st; canvas_bitmap := canvas_bitmap st;
     modelRef := modelRef st; rafRef := rafRef st;
     has_cleanup := has_cleanup st; frames := [];
     next_handle := next_handle st; paints := paints st |}.

(** What the host delivers to the instance, each at a time [t].  A
    [Resized] is one call of the resize observer's callback, whatever made
    the observer report; it runs the [renderOnce] of the moment, with the
    props that one closed over.  A [Rendered] keeps that [renderOnce] unless
    one of its dependencies changed.  An [Intersected] that changes
    [inView] makes the component render again with the props of the last
    render, and [inView] being a dependency, makes a new [renderOnce]
    around them. *)
Inductive Event : Type :=
| Frame (t : JS.num)                 (* an animation frame: the pending callbacks run *)
| Resized (t : JS.num) (w h : JS.num) (* the ResizeObserver callback, new box *)
| Rendered (t : JS.num) (P : Props)   (* a re-render with props P, effects flushed *)
| Intersected (t : JS.num) (vis : bool) (* the IntersectionObserver callback *).

(** An animation frame runs the callbacks that were pending when it began,
    oldest first; what they register waits for the next frame. *)
Fixpoint run_callbacks (cbs : list (nat * Chain)) (ts : JS.num) (st : State)
  : State :=
  match cbs with
  | [] => st
  | (_, cb) :: rest => run_callbacks rest ts (step cb ts st)
  end.

Definition handle (st : State) (e : Event) : State :=
  match e with
  | Frame t =>
      let st1 := with_now st t in
      run_callbacks (frames st1) t (take_frames st1)
  | Resized t w h =>
      renderOnce (with_rect (with_now st t) w h)
  | Rendered t P =>
      let st1 := with_now st t in
      if same_deps (props st1) P then with_latest st1 P
      else render_effect (with_props (cleanup st1) P)
  | Intersected t vis =>
      let st1 := with_now st t in
      if Bool.eqb (inView st1) vis then st1
      else render_effect
             (with_inView (with_props (cleanup st1) (latest st1)) vis)
  end.

Definition run (st : State) (trace : list Event) : State :=
  fold_left handle trace st.

(** The instance right after mounting: not yet reported visible, nothing
    built, nothing scheduled. *)
Definition mounted (P : Props) (w h dpr t0 : JS.num) : State :=
  {| props := P; latest := P; inView := false; rect := (w, h);
     devicePixelRatio := dpr;
     now := t0; canvas_css := None;
     canvas_bitmap := (JS.Fin 300, JS.Fin 150);
     modelRef := None; rafRef := None; has_cleanup := false; frames := [];
     next_handle := 1;
     paints := [] |}.

End WithCanvas.

End Sparkline.

(** ** The span on binary64 numbers

    The horizontal span of [buildModel] (lines 77 to 93 of the source) once
    more, on the binary64 numbers the program runs on, for the properties
    that turn on rounding.  The width of the label is what [measureText]
    returned. *)

Module Binary64.

Import PrimFloat.
Local Open Scope float_scope.

(** [Math.max] of two numbers (the two zeros are not told apart). *)
Definition Math_max (a b : float) : float :=
  if is_nan a || is_nan b then nan
  else if ltb a b then b else a.

Definition padX (compact : bool) : float := if compact then 8 else 10.

Definition rightGutter (compact : bool) (labelWidth : float) : float :=
  let rightGutterBase := if compact then 30 else 36 in
  Math_max rightGutterBase (labelWidth + 18).

Definition leftAxis (compact : bool) : float :=
  (if compact then 16 else 20) + 8.

Definition startX (compact : bool) : float := padX compact + leftAxis compact.

Definition endX (compact : bool) (labelWidth cssW : float) : float :=
  Math_max (startX compact)
    (cssW - padX compact - rightGutter compact labelWidth).

End Binary64.

(** * What the properties are stated with *)

Module Spec.

Import Regex Sparkline.
Local Open Scope string_scope.
Local Open Scope list_scope.
Local Open Scope num_scope.

(** ** Builder inputs *)

(** The metric after the substitution of 100 for an absent or non-finite
    input, before clamping. *)
Definition metric_or_default (percent : option JS.num) : R :=
  match percent with
  | Some (JS.Fin r) => r
  | _ => 100
  end.

Definition padTop_of (P : Props) : R := if is_compact P then 6 else 10.
Definition padBottom_of (P : Props) : R := if is_compact P then 14 else 18.
Definition padX_of (P : Props) : R := if is_compact P then 8 else 10.
Definition leftAxis_of (P : Props) : R := (if is_compact P then 16 else 20) + 8.
Definition gutterBase_of (P : Props) : R := if is_compact P then 30 else 36.

(** The right gutter of the builder, from the fields it stores. *)
Definition rightGutter_of (P : Props) (m : Model) : JS.num :=
  JS.max (JS.Fin (gutterBase_of P)) (labelWidth m + 18).

Definition lineWidth_default (P : Props) : JS.num :=
  JS.Fin (if is_compact P then 12 / 10 else 14 / 10).
Definition glowRadius_default (P : Props) : JS.num :=
  JS.Fin (if is_compact P then 8 else 10).
Definition areaAlpha_default (P : Props) : JS.num :=
  JS.Fin (if is_compact P then 8 / 100 else 12 / 100).

(** The precedence rule with a finiteness test, as [durationMs] has it. *)
Definition finite_or (override : option JS.num) (default : JS.num) : JS.num :=
  match override with
  | Some x => if JS.isFinite x then x else default
  | None => default
  end.

(** The same props with another metric, duration or colour. *)
Definition with_percent (P : Props) (p : option JS.num) : Props :=
  {| percent := p; xLabels := xLabels P; ariaLabel := ariaLabel P;
     color := color P; compact := compact P; durationMs := durationMs P;
     lineWidthOverride := lineWidthOverride P;
     glowRadiusOverride := glowRadiusOverride P;
     areaAlphaOverride := areaAlphaOverride P |}.

Definition with_duration (P : Props) (d : option JS.num) : Props :=
  {| percent := percent P; xLabels := xLabels P; ariaLabel := ariaLabel P;
     color := color P; compact := compact P; durationMs := d;
     lineWidthOverride := lineWidthOverride P;
     glowRadiusOverride := glowRadiusOverride P;
     areaAlphaOverride := areaAlphaOverride P |}.

Definition with_color (P : Props) (c : option string) : Props :=
  {| percent := percent P; xLabels := xLabels P; ariaLabel := ariaLabel P;
     color := c; compact := compact P; durationMs := durationMs P;
     lineWidthOverride := lineWidthOverride P;
     glowRadiusOverride := glowRadiusOverride P;
     areaAlphaOverride := areaAlphaOverride P |}.

Definition with_lineWidth (P : Props) (w : option JS.num) : Props :=
  {| percent := percent P; xLabels := xLabels P; ariaLabel := ariaLabel P;
     color := color P; compact := compact P; durationMs := durationMs P;
     lineWidthOverride := w;
     glowRadiusOverride := glowRadiusOverride P;
     areaAlphaOverride := areaAlphaOverride P |}.

(** The props with every optional field absent. *)
Definition no_props : Props :=
  {| percent := None; xLabels := None; ariaLabel := None; color := None;
     compact := None; durationMs := None; lineWidthOverride := None;
     glowRadiusOverride := None; areaAlphaOverride := None |}.

(** A text metric of 7 pixels a character. *)
Definition seven_px (s : string) : R := 7 * INR (String.length s).

(** The three colour numbers of an area stop. *)
Definition triplet (c : Rgba) : JS.num * JS.num * JS.num :=
  (red c, green c, blue c).

(** ** The patterns, said without the matcher *)

Definition str (s : string) : chars := list_ascii_of_string s.

(** The red signature: somewhere in the string stands "239," then white
    space, "68," then white space, "68". *)
Definition contains_red_signature (s : string) : Prop :=
  exists pre ws1 ws2 post,
    str s = pre ++ str "239," ++ ws1 ++ str "68," ++ ws2 ++ str "68" ++ post
    /\ forallb is_space ws1 = true /\ forallb is_space ws2 = true.

(** The text of one colour channel: white space, at least one digit, white
    space. *)
Definition channel_text (g digits : chars) : Prop :=
  exists ws1 ws2,
    g = ws1 ++ digits ++ ws2
    /\ forallb is_space ws1 = true
    /\ digits <> [] /\ forallb is_digit digits = true
    /\ forallb is_space ws2 = true.

(** The optional fourth component: white space, digits with an optional
    point before the last run of digits, white space. *)
Definition alpha_text (g : chars) : Prop :=
  exists ws1 d1 dot d2 ws2,
    g = ws1 ++ d1 ++ dot ++ d2 ++ ws2
    /\ forallb is_space ws1 = true /\ forallb is_digit d1 = true
    /\ (dot = [] \/ dot = str ".")
    /\ d2 <> [] /\ forallb is_digit d2 = true
    /\ forallb is_space ws2 = true.

(** A text that begins with "rgb(" or "rgba(", three channels between
    commas with the digits d1, d2, d3, an optional fourth component,
    and ")". *)
Definition rgba_here (s d1 d2 d3 : chars) : Prop :=
  exists a g1 g2 g3 tail post,
    s = str "rgb" ++ a ++ str "(" ++ g1 ++ str "," ++ g2 ++ str ","
          ++ g3 ++ tail ++ str ")" ++ post
    /\ (a = [] \/ a = str "a")
    /\ channel_text g1 d1 /\ channel_text g2 d2 /\ channel_text g3 d3
    /\ (tail = [] \/ exists g4, tail = str "," ++ g4 /\ alpha_text g4).

(** The colour string holds such a text somewhere. *)
Definition rgba_shaped (s : string) (d1 d2 d3 : chars) : Prop :=
  exists pre suf, str s = pre ++ suf /\ rgba_here suf d1 d2 d3.

(** The first such text of the colour string: none begins further left. *)
Definition first_rgba (s : string) (d1 d2 d3 : chars) : Prop :=
  exists pre suf,
    str s = pre ++ suf /\ rgba_here suf d1 d2 d3
    /\ forall pre' suf' e1 e2 e3,
         str s = pre' ++ suf' -> (List.length pre' < List.length pre)%nat ->
         ~ rgba_here suf' e1 e2 e3.

(** The number a run of decimal digits denotes. *)
Definition decimal (ds : chars) : Z :=
  fold_left (fun v c => 10 * v + ParseInt.digit_value c)%Z ds 0%Z.

(** The rgba pattern cut after its optional "a". *)
Definition alpha_part : list re :=
  [Lit ",";
   Group 4 [Star is_space; Star is_digit; Opt [Lit "."]; Plus is_digit;
            Star is_space]].

Definition paren_part : list re :=
  [Lit "(";
   Group 1 channel; Lit ",";
   Group 2 channel; Lit ",";
   Group 3 channel;
   Opt alpha_part;
   Lit ")"].

(** ** Painting *)

(** Style and end points of every stroked segment of a command list, on a
    context that starts from its defaults. *)
Definition stroke_ends (isColor : string -> bool) (cmds : list CanvasCmd)
  : list (string * (JS.num * JS.num) * (JS.num * JS.num)) :=
  map (fun s => (seg_style s, seg_from s, seg_to s))
      (strokes isColor fresh_pen cmds).

(** The two fixed stroke styles of [draw], which every colour parser
    takes. *)
Definition axis_style : string := "rgba(148,163,184,0.20)".
Definition level_style : string := "rgba(148,163,184,0.12)".

Definition takes_fixed_styles (isColor : string -> bool) : Prop :=
  isColor axis_style = true /\ isColor level_style = true.

(** A colour parser to evaluate with: it takes a string that starts with
    a text of the rgb()/rgba() shape.  (A browser takes more, names and hex
    colours among them.) *)
Definition rgb_function (s : string) : bool :=
  match match_here rgba_pattern (str s) with
  | Some _ => true
  | None => false
  end.

(** The point on the line from the start point to the target at a weight. *)
Definition blend (m : Model) (weight : JS.num) : JS.num * JS.num :=
  (startX m + (endX m - startX m) * weight,
   startY m + (yFinal m - startY m) * weight).

(** ** The event loop *)

(** A paint is fresh when it draws the cached Model and that Model was
    built for the present surface size; it is stale otherwise. *)
Definition fresh (p : Paint) : Prop :=
  paint_cached p = Some (painted p)
  /\ paint_surface p = Some (width (painted p), height (painted p)).

Definition is_resize (e : Event) : bool :=
  match e with Resized _ _ _ => true | _ => false end.

(** At most one callback is pending; it is the one [rafRef] names, the
    render effect holds its cleanup, and its Model is the cached one, built
    for the present surface. *)
Definition single_chain (st : State) : Prop :=
  frames st = []
  \/ exists h cb,
       frames st = [(h, cb)] /\ rafRef st = Some h /\ has_cleanup st = true
       /\ modelRef st = Some (chain_model cb)
       /\ canvas_css st
          = Some (width (chain_model cb), height (chain_model cb)).

Definition well_kept (st : State) : Prop :=
  single_chain st /\ Forall fresh (paints st).

(** Becoming visible, a resize to 600 x 150 while the first chain is
    pending, then one animation frame. *)
Definition resize_trace : list Event :=
  [Intersected 0 true; Resized 100 600 150; Frame 116].

End Spec.

(** ** More vocabulary for the component *)

Module SpecCanvas.

Import Regex Sparkline Spec.
Local Open Scope string_scope.
Local Open Scope list_scope.
Local Open Scope num_scope.

(** The real cosine ease, [0.5 * (1 - cos(pi * x))]. *)
Definition ease_R (x : R) : R := (1 - cos (Rtrigo1.PI * x)) / 2.

(** The time fraction of a chain at a timestamp, clamped as [step] does. *)
Definition raw_of (start ts d : R) : R := Rmin 1 (Rmax 0 ((ts - start) / d)).

(** The end point of the line stroked by a frame. *)
Definition tip_of (isColor : string -> bool) (cmds : list CanvasCmd)
  : option (JS.num * JS.num) :=
  option_map snd (nth_error (stroke_ends isColor cmds) 2).

(** The same props with other tuning knobs and accessible label: the
    fields that are not dependencies of [renderOnce]. *)
Definition with_tuning (P : Props) (aria : option string)
  (d lw glow a : option JS.num) : Props :=
  {| percent := percent P; xLabels := xLabels P; ariaLabel := aria;
     color := color P; compact := compact P; durationMs := d;
     lineWidthOverride := lw; glowRadiusOverride := glow;
     areaAlphaOverride := a |}.

(** A chain as [renderOnce] makes it. *)
Definition chain_of (m : Model) (start dpr : JS.num) (P : Props) (vis : bool)
  : Chain :=
  {| chain_model := m; chain_start := start; chain_dpr := dpr;
     chain_props := P; chain_inView := vis |}.

(** The last paint of a state. *)
Definition last_paint (st : State) : option Paint :=
  nth_error (rev (paints st)) 0.

(** What holds of every state reached without resize notifications: a
    single fresh chain at most, none at all while not visible, and the box
    of the wrapper as it was. *)
Definition quiet (box : JS.num * JS.num) (st : State) : Prop :=
  well_kept st /\ (inView st = false -> frames st = []) /\ rect st = box.

End SpecCanvas.

(** * The other components of the timeline *)

(** ** The donut gauge

    [DonutGauge] of [src/components/chapters/timeline/DonutGauge.tsx]: the
    numbers of the ring.  The colours, the label and the accessible label go
    to attributes unchanged and are left out. *)

Module DonutGauge.

Local Open Scope num_scope.

(** [DonutGaugeProps]; an absent (undefined) prop is [None]. *)
Record Props : Type := {
  value : JS.num;
  size : option JS.num;
  stroke : option JS.num
}.

(** The defaults of the destructuring, [size = 120] and [stroke = 10]. *)
Definition size_of (P : Props) : JS.num :=
  match size P with Some s => s | None => 120 end.

Definition stroke_of (P : Props) : JS.num :=
  match stroke P with Some s => s | None => 10 end.

(** What one render computes. *)
Record Gauge : Type := {
  v : JS.num;
  radius : JS.num;
  circumference : JS.num;
  clampedPct : JS.num;
  dash : JS.num;            (* first number of strokeDasharray *)
  rest : JS.num;            (* second number of strokeDasharray *)
  over : JS.num;
  centre : JS.num;          (* Math.round(clampedPct), shown before the % sign *)
  badge : option JS.num     (* the number after the + of the badge, if rendered *)
}.

Definition gauge (P : Props) : Gauge :=
  let v :=
    JS.max 0 (JS.min 1000 (if JS.isFinite (value P) then value P else 0)) in
  let pct := v in
  let radius := JS.max 6 ((size_of P - stroke_of P) / 2) in
  let circumference := 2 * JS.PI * radius in
  let clampedPct := JS.max 0 (JS.min 100 pct) in
  let dash := (clampedPct / 100) * circumference in
  let rest := JS.max 0 (circumference - dash) in
  let over :=
    if JS.ltb 100 pct then JS.min 900 (JS.round (pct - 100)) else 0 in
  {| v := v; radius := radius; circumference := circumference;
     clampedPct := clampedPct; dash := dash; rest := rest; over := over;
     centre := JS.round clampedPct;
     badge := if JS.ltb 0 over then Some over else None |}.

End DonutGauge.

(** ** The mini bar chart

    [MiniBarChart] of [src/components/chapters/timeline/MiniBarChart.tsx]:
    the geometry of the bars and the hover index with its three handlers.
    The axis ticks, the colours and the number formatter are left out. *)

Module MiniBarChart.

Local Open Scope string_scope.
Local Open Scope list_scope.
Local Open Scope num_scope.

(** [MiniBarChartProps]; [series] is [None] when the value handed over is
    not an array. *)
Record Props : Type := {
  series : option (list JS.num);
  height : option JS.num;
  barWidth : option JS.num;
  gap : option JS.num
}.

Definition height_of (P : Props) : JS.num :=
  match height P with Some h => h | None => 140 end.

Definition barWidth_of (P : Props) : JS.num :=
  match barWidth P with Some w => w | None => 8 end.

Definition gap_of (P : Props) : JS.num :=
  match gap P with Some g => g | None => 6 end.

(** [Number.isFinite(v) ? v : 0] *)
Definition finite_or_zero (x : JS.num) : JS.num :=
  if JS.isFinite x then x else 0.

(** [Array.isArray(series) && series.length > 0 ? series : [1]] *)
Definition safe (P : Props) : list JS.num :=
  match series P with
  | Some (x :: xs) => x :: xs
  | _ => [JS.Fin 1]
  end.

(** [Math.max(...xs)]: -Infinity for no argument. *)
Definition Math_max (xs : list JS.num) : JS.num :=
  fold_left JS.max xs JS.NInf.

Definition max_of (P : Props) : JS.num :=
  JS.max 1 (Math_max (map finite_or_zero (safe P))).

(** The values of [bars]; the key of a bar is its index. *)
Definition bars (P : Props) : list JS.num :=
  map (fun x => JS.max 0 (finite_or_zero x)) (safe P).

Definition axisLeft : JS.num := 34.
Definition axisBottom : JS.num := 18.
Definition innerTop : JS.num := 4.

Definition innerHeight (P : Props) : JS.num :=
  JS.max 1 (height_of P - axisBottom - 6).

Definition innerBottomY (P : Props) : JS.num := innerTop + innerHeight P.

(** [bars.length] *)
Definition count (P : Props) : JS.num := JS.Fin (INR (List.length (bars P))).

Definition widthInner (P : Props) : JS.num :=
  count P * barWidth_of P + JS.max 0 (count P - 1) * gap_of P.

Definition width (P : Props) : JS.num := widthInner P + axisLeft + 10.

(** The rectangle of a bar. *)
Record Bar : Type := {
  bar_value : JS.num;
  bar_x : JS.num;
  bar_y : JS.num;
  bar_width : JS.num;
  bar_h : JS.num;
  bar_labelled : bool  (* h > 12: the value is written above the bar *)
}.

Definition bar_height (P : Props) (value : JS.num) : JS.num :=
  JS.round ((value / max_of P) * innerHeight P).

Definition bar (P : Props) (i : nat) (value : JS.num) : Bar :=
  let h := bar_height P value in
  let x := axisLeft + JS.Fin (INR i) * (barWidth_of P + gap_of P) in
  let y := innerBottomY P - h in
  {| bar_value := value; bar_x := x; bar_y := y; bar_width := barWidth_of P;
     bar_h := h; bar_labelled := JS.ltb 12 h |}.

Fixpoint bars_from (P : Props) (i : nat) (values : list JS.num) : list Bar :=
  match values with
  | [] => []
  | value :: more => bar P i value :: bars_from P (S i) more
  end.

(** [bars.map((b, i) => ...)] *)
Definition rects (P : Props) : list Bar := bars_from P 0 (bars P).

(** *** The hover index *)

(** [hoverIdx]: null is [None]. *)
Definition onKeyDown (P : Props) (key : string) (prev : option JS.num)
  : option JS.num :=
  if Nat.eqb (List.length (bars P)) 0 then prev
  else if key =? "ArrowLeft" then
    Some (match prev with
          | None => count P - 1
          | Some p => JS.max 0 (p - 1)
          end)
  else if key =? "ArrowRight" then
    Some (match prev with
          | None => JS.Fin 0
          | Some p => JS.min (count P - 1) (p + 1)
          end)
  else prev.

Definition onMouseMove (P : Props) (clientX bboxLeft : JS.num)
  : option JS.num :=
  let x := clientX - bboxLeft in
  let rel := JS.max 0 (JS.min (widthInner P) x) in
  let step := barWidth_of P + gap_of P in
  let idx :=
    JS.max 0 (JS.min (count P - 1)
                (JS.round ((rel - barWidth_of P / 2) / step))) in
  Some idx.

Definition onMouseLeave : option JS.num := None.

(** [hoverIdx !== null && hoverIdx >= 0 && hoverIdx < bars.length], the
    guard of the guide line and the tooltip. *)
Definition shown (P : Props) (hoverIdx : option JS.num) : bool :=
  match hoverIdx with
  | Some i => JS.geb i 0 && JS.ltb i (count P)
  | None => false
  end.

(** [xs[i]] for a number [i]: an element only at a whole index inside the
    array, undefined ([None]) otherwise. *)
Definition index {A : Type} (xs : list A) (i : JS.num) : option A :=
  match i with
  | JS.Fin r =>
      if Req_dec_T r (IZR (Zfloor r))
      then if (0 <=? Zfloor r)%Z then nth_error xs (Z.to_nat (Zfloor r))
           else None
      else None
  | _ => None
  end.

(** The x of the vertical guide of the hovered bar. *)
Definition guide_x (P : Props) (i : JS.num) : JS.num :=
  axisLeft + i * (barWidth_of P + gap_of P) + barWidth_of P / 2.

(** What the tooltip reads, [bars[hoverIdx].value]: [None] when the guard
    fails, [Some None] for a read outside the array (a TypeError). *)
Definition tooltip_value (P : Props) (hoverIdx : option JS.num)
  : option (option JS.num) :=
  match hoverIdx with
  | Some i => if shown P hoverIdx then Some (index (bars P) i) else None
  | None => None
  end.

(** The component between events: the props of the last render and the
    hover state. *)
Record State : Type := {
  props : Props;
  hoverIdx : option JS.num
}.

Inductive Event : Type :=
| KeyDown (key : string)
| MouseMove (clientX bboxLeft : JS.num)
| MouseLeave
| Rendered (P : Props)   (* a re-render with other props; the state stays *).

Definition handle (st : State) (e : Event) : State :=
  match e with
  | KeyDown key =>
      {| props := props st;
         hoverIdx := onKeyDown (props st) key (hoverIdx st) |}
  | MouseMove clientX bboxLeft =>
      {| props := props st;
         hoverIdx := onMouseMove (props st) clientX bboxLeft |}
  | MouseLeave => {| props := props st; hoverIdx := onMouseLeave |}
  | Rendered P => {| props := P; hoverIdx := hoverIdx st |}
  end.

Definition run (st : State) (trace : list Event) : State :=
  fold_left handle trace st.

(** [useState<number | null>(null)] *)
Definition mounted (P : Props) : State := {| props := P; hoverIdx := None |}.

End MiniBarChart.

(** ** The timeline wrapper

    [GenericSparklineBasic], the duration arithmetic of [PeriodBadges] and
    the style and visual selection of [TimelineSparkline], of
    [src/components/chapters/timeline/TimelineSparkline.tsx].  The tests of
    the title, subtitle and context text against the keyword patterns, and
    the search of the performance item, are inputs here. *)

Module Timeline.

Local Open Scope string_scope.
Local Open Scope list_scope.
Local Open Scope num_scope.

(** *** GenericSparklineBasic *)

Record BasicProps : Type := {
  headerLabel : string;
  period : option string;
  growthPct : option JS.num;
  xLabels : option (string * string);
  height : option JS.num;
  headerHeight : option JS.num;
  compact : option bool;
  color : option string;
  durationMs : option JS.num;
  lineWidth : option JS.num;
  glowRadius : option JS.num;
  areaAlpha : option JS.num
}.

Definition pct (B : BasicProps) : option JS.num :=
  match growthPct B with
  | Some g => if JS.isFinite g then Some (JS.max 0 (JS.min 1000 g)) else None
  | None => None
  end.

Definition totalH (B : BasicProps) : JS.num :=
  match height B with
  | Some h => if JS.isFinite h then JS.max 120 (JS.floor h) else 200
  | None => 200
  end.

Definition headH (B : BasicProps) : JS.num :=
  match headerHeight B with
  | Some h => if JS.isFinite h then JS.max 24 (JS.floor h) else 32
  | None => 32
  end.

Definition canvasH (B : BasicProps) : JS.num :=
  JS.max 40 (totalH B - headH B).

(** [period ? `, Zeitraum ${period}` : ''] : null, undefined and the empty
    string are falsy. *)
Definition aria (B : BasicProps) : string :=
  headerLabel B ++ ": Entwicklung" ++
  match period B with
  | Some (String c s) => ", Zeitraum " ++ String c s
  | _ => EmptyString
  end.

(** The props handed to [SparklineCanvas] when no other content is given. *)
Definition sparkline_props (B : BasicProps) : Sparkline.Props :=
  {| Sparkline.percent := pct B;
     Sparkline.xLabels := xLabels B;
     Sparkline.ariaLabel := Some (aria B);
     Sparkline.compact := compact B;
     Sparkline.color := color B;
     Sparkline.durationMs := durationMs B;
     Sparkline.lineWidthOverride := lineWidth B;
     Sparkline.glowRadiusOverride := glowRadius B;
     Sparkline.areaAlphaOverride := areaAlpha B |}.

(** *** PeriodBadges: the duration between two dates *)

(** [a % b] on whole numbers: the remainder has the sign of the dividend. *)
Definition js_rem (a b : Z) : Z := Z.rem a b.

(** From the years and month indexes ([getFullYear], [getMonth]) of the
    start and end date: [{ years, months }]. *)
Definition duration_between (startYear startMonth endYear endMonth : Z)
  : Z * Z :=
  let totalMonths :=
    ((endYear - startYear) * 12 + (endMonth - startMonth))%Z in
  let years := Z.max 0 (Zfloor (IZR totalMonths / 12)) in
  let months := Z.max 0 (js_rem totalMonths 12) in
  (years, months).

(** *** TimelineSparkline *)

Inductive Palette : Type := finance | tech | team | default.

Definition palettes (p : Palette) : string :=
  match p with
  | finance => "rgba(245,158,11,0.86)"
  | tech => "rgba(6,182,212,0.86)"
  | team => "rgba(139,92,246,0.86)"
  | default => "rgba(16,185,129,0.85)"
  end.

Inductive Mode : Type := spark | bar | donut.

(** [PerfItem], the fields that are read. *)
Record PerfItem : Type := {
  perf_period : string;
  company : string;
  growth : JS.num;
  employees : option JS.num;
  perf_series : option (list JS.num)
}.

(** What one render starts from: the props, the item found for the title
    (if any), the labels derived from its period, and the outcome of the
    keyword tests.  [palOverride] is the captured tag, one of the three
    named palettes; [vizOverride] the captured visual. *)
Record Input : Type := {
  title : string;
  subtitle : option string;
  given_xLabels : option (string * string);
  given_height : option JS.num;
  given_headerHeight : option JS.num;
  given_compact : option bool;
  found : option PerfItem;       (* match *)
  autoXLabels : option (string * string);
  isFinance : bool;
  isTech : bool;
  isTeam : bool;
  vizOverride : option Mode;
  palOverride : option Palette
}.

(** The default of the destructuring, [compact = true]. *)
Definition compact_of (I : Input) : bool :=
  match given_compact I with Some b => b | None => true end.

(** [subtitle ?? title] and the like: only null and undefined give way. *)
Definition nullish {A : Type} (x : option A) (y : A) : A :=
  match x with Some a => a | None => y end.

Definition headerLabel_of (I : Input) : string :=
  match found I with
  | Some p => company p
  | None => nullish (subtitle I) (title I)
  end.

Definition growth_of (I : Input) : option JS.num :=
  option_map growth (found I).

Record Style : Type := {
  style_color : string;
  style_durationMs : JS.num;
  style_lineWidth : JS.num;
  style_glowRadius : JS.num;
  style_areaAlpha : JS.num
}.

(** The palette whose colour ends up in [color]. *)
Definition palette_of (I : Input) : Palette :=
  let p := if isFinance I then finance
           else if isTech I then tech
           else if isTeam I then team
           else default in
  match palOverride I with
  | Some finance => finance
  | Some tech => tech
  | Some team => team
  | _ => p
  end.

Definition style (I : Input) : Style :=
  let compact := compact_of I in
  let durationMs : JS.num :=
    if isFinance I then 1200
    else if isTech I then 900
    else if isTeam I then 1000
    else 980 in
  let lineWidth : JS.num :=
    (if isFinance I then 135 / 100
     else if isTech I then 12 / 10
     else if isTeam I then 125 / 100
     else if compact then 12 / 10 else 14 / 10)%R in
  let glowRadius : JS.num :=
    if isFinance I then 11
    else if isTech I then 8
    else if isTeam I then 9
    else if compact then 8 else 10 in
  let areaAlpha : JS.num :=
    (if isFinance I then 14 / 100
     else if isTech I then 8 / 100
     else if isTeam I then 10 / 100
     else if compact then 8 / 100 else 12 / 100)%R in
  {| style_color := palettes (palette_of I);
     style_durationMs := durationMs;
     style_lineWidth := lineWidth;
     style_glowRadius := glowRadius;
     style_areaAlpha := areaAlpha |}.

(** [Array.isArray(match?.series) && match.series.length >= 3] *)
Definition hasSeries (I : Input) : bool :=
  match found I with
  | Some p =>
      match perf_series p with
      | Some xs => Nat.leb 3 (List.length xs)
      | None => false
      end
  | None => false
  end.

Definition mode (I : Input) : Mode :=
  let growth_is_number :=
    match growth_of I with Some _ => true | None => false end in
  let m :=
    if isFinance I && growth_is_number then donut
    else if hasSeries I || isTeam I then bar
    else spark in
  match vizOverride I with
  | Some o => o
  | None => m
  end.

(** The props every branch hands to [GenericSparklineBasic]. *)
Definition basic_props (I : Input) : BasicProps :=
  {| headerLabel := headerLabel_of I;
     period := option_map perf_period (found I);
     growthPct := growth_of I;
     xLabels :=
       match given_xLabels I with
       | Some l => Some l
       | None => autoXLabels I
       end;
     height := given_height I;
     headerHeight := given_headerHeight I;
     compact := Some (compact_of I);
     color := Some (style_color (style I));
     durationMs := Some (style_durationMs (style I));
     lineWidth := Some (style_lineWidth (style I));
     glowRadius := Some (style_glowRadius (style I));
     areaAlpha := Some (style_areaAlpha (style I)) |}.

(** The series of the bar chart. *)
Definition bar_series (I : Input) : list JS.num :=
  let fallback :=
    match found I with
    | Some {| employees := Some e |} =>
        [JS.max 1 (JS.floor (e * (6 / 10)%R)); e]
    | _ => [JS.Fin 40; JS.Fin 60; JS.Fin 80; JS.Fin 100]
    end in
  match found I with
  | Some {| perf_series := Some xs |} =>
      if hasSeries I then xs else fallback
  | _ => fallback
  end.

(** What fills the canvas area. *)
Inductive Content : Type :=
| Spark (P : Sparkline.Props)
| Donut (P : DonutGauge.Props)
| Bars (P : MiniBarChart.Props).

Definition content (I : Input) : Content :=
  let B := basic_props I in
  match mode I with
  | donut =>
      Donut {| DonutGauge.value := nullish (growth_of I) 0;
               DonutGauge.size :=
                 Some (JS.min 180 (JS.max 96 (JS.floor (canvasH B))));
               DonutGauge.stroke := None |}
  | bar =>
      Bars {| MiniBarChart.series := Some (bar_series I);
              MiniBarChart.height :=
                Some (JS.max 100 (JS.floor (canvasH B)));
              MiniBarChart.barWidth := None;
              MiniBarChart.gap := None |}
  | spark => Spark (sparkline_props B)
  end.

End Timeline.

(** ** Vocabulary for the charts *)

Module SpecCharts.

Definition finite (x : JS.num) : Prop := exists r : R, x = JS.Fin r.

(** A hover index that is null, NaN, or a whole number that is not
    negative. *)
Definition tame (hov : option JS.num) : Prop :=
  hov = None \/ hov = Some JS.NaN
  \/ exists k : Z, hov = Some (JS.Fin (IZR k)) /\ (0 <= k)%Z.

(** The three channels written in a palette colour. *)
Definition palette_rgb (p : Timeline.Palette) : JS.num * JS.num * JS.num :=
  match p with
  | Timeline.finance => (JS.Fin 245, JS.Fin 158, JS.Fin 11)
  | Timeline.tech => (JS.Fin 6, JS.Fin 182, JS.Fin 212)
  | Timeline.team => (JS.Fin 139, JS.Fin 92, JS.Fin 246)
  | Timeline.default => (JS.Fin 16, JS.Fin 185, JS.Fin 129)
  end.

(** The months from a start to an end date, by their years and month
    indexes. *)
Definition months_between (startYear startMonth endYear endMonth : Z) : Z :=
  (endYear - startYear) * 12 + (endMonth - startMonth).

(** An item and an input of the timeline to evaluate on: a company that
    grew by 250 percent with 12 employees and no series, classified by the
    two given keyword tests. *)
Definition sample_item : Timeline.PerfItem :=
  {| Timeline.perf_period := "05/2022 - 02/2024";
     Timeline.company := "Acme";
     Timeline.growth := JS.Fin 250;
     Timeline.employees := Some (JS.Fin 12);
     Timeline.perf_series := None |}.

Definition sample_input (finance team : bool) : Timeline.Input :=
  {| Timeline.title := "Acme";
     Timeline.subtitle := None;
     Timeline.given_xLabels := None;
     Timeline.given_height := None;
     Timeline.given_headerHeight := None;
     Timeline.given_compact := None;
     Timeline.found := Some sample_item;
     Timeline.autoXLabels := Some ("2022"%string, "2024"%string);
     Timeline.isFinance := finance;
     Timeline.isTech := false;
     Timeline.isTeam := team;
     Timeline.vizOverride := None;
     Timeline.palOverride := None |}.

End SpecCharts.

(** * Properties *)

(** ** Arithmetic on finite numbers *)

Module JSFacts.

Import JS.

Lemma sgn_pos (r : R) : 0 < r -> sgn r = Pos.
Proof. intros H. unfold sgn. destruct (Rlt_dec 0 r); [reflexivity | lra]. Qed.

Lemma sgn_neg (r : R) : r < 0 -> sgn r = Neg.
Proof.
  intros H. unfold sgn.
  destruct (Rlt_dec 0 r); [lra |].
  destruct (Rlt_dec r 0); [reflexivity | lra].
Qed.

Lemma div_fin (a b : R) : b <> 0 -> div (Fin a) (Fin b) = Fin (a / b).
Proof.
  intros Hb. unfold div.
  destruct (Rtotal_order b 0) as [Hlt | [Heq | Hgt]].
  - now rewrite (sgn_neg b Hlt).
  - contradiction.
  - now rewrite (sgn_pos b Hgt).
Qed.

Lemma ltb_fin (a b : R) : ltb (Fin a) (Fin b) = true <-> a < b.
Proof.
  unfold ltb. destruct (Rlt_dec a b); split; intros; try easy.
Qed.

Lemma eqb_fin (a b : R) : eqb (Fin a) (Fin b) = true <-> a = b.
Proof.
  unfold eqb. destruct (Req_dec_T a b); split; intros; try easy.
Qed.

Lemma leb_fin (a b : R) : leb (Fin a) (Fin b) = true <-> a <= b.
Proof.
  unfold leb. rewrite orb_true_iff, ltb_fin, eqb_fin. unfold Rle. tauto.
Qed.

Lemma geb_fin (a b : R) : geb (Fin a) (Fin b) = true <-> b <= a.
Proof. unfold geb. apply leb_fin. Qed.

(** Clamping into an interval, as [Math.max(lo, Math.min(hi, x))]. *)
Lemma clamp_bounds (lo hi x : R) :
  lo <= hi -> lo <= Rmax lo (Rmin hi x) <= hi.
Proof.
  intros H. unfold Rmax, Rmin.
  destruct (Rle_dec hi x); destruct (Rle_dec lo _); lra.
Qed.

Lemma clamp_inside (lo hi x : R) :
  lo <= x <= hi -> Rmax lo (Rmin hi x) = x.
Proof.
  intros H. unfold Rmax, Rmin.
  destruct (Rle_dec hi x); destruct (Rle_dec lo _); lra.
Qed.

Lemma clamp_above (lo hi x : R) :
  lo <= hi -> hi <= x -> Rmax lo (Rmin hi x) = hi.
Proof.
  intros H Hx. unfold Rmax, Rmin.
  destruct (Rle_dec hi x); destruct (Rle_dec lo _); lra.
Qed.

Lemma clamp_below (lo hi x : R) :
  lo <= hi -> x <= lo -> Rmax lo (Rmin hi x) = lo.
Proof.
  intros H Hx. unfold Rmax, Rmin.
  destruct (Rle_dec hi x); destruct (Rle_dec lo _); lra.
Qed.

Lemma clamp_mono (lo hi x y : R) :
  x <= y -> Rmax lo (Rmin hi x) <= Rmax lo (Rmin hi y).
Proof.
  intros H. unfold Rmax, Rmin.
  destruct (Rle_dec hi x); destruct (Rle_dec hi y);
    repeat match goal with |- context [Rle_dec ?a ?b] => destruct (Rle_dec a b) end;
    lra.
Qed.

(** [Math.round] of a whole number. *)
Lemma round_whole (z : Z) : round (Fin (IZR z)) = Fin (IZR z).
Proof.
  cbn. do 2 f_equal. apply Zfloor_eq. lra.
Qed.

End JSFacts.

(** ** The matcher *)

Module RegexFacts.

Import Regex Spec.
Local Open Scope list_scope.

Lemma strip_prefix_spec (p s r : chars) :
  strip_prefix p s = Some r <-> s = p ++ r.
Proof.
  revert s. induction p as [| a p IH]; intros s; cbn.
  - split; intros H; [now injection H | now subst].
  - destruct s as [| b s]; [easy |].
    destruct (Ascii.eqb_spec a b) as [-> | Hne].
    + rewrite IH. split; intros H; [now subst | now injection H].
    + split; [easy | intros H; injection H; congruence].
Qed.

Lemma strip_prefix_app (p r : chars) : strip_prefix p (p ++ r) = Some r.
Proof. now apply strip_prefix_spec. Qed.

Section Star.

Context {A : Type} (cls : ascii -> bool).

(** Whatever [star] returns comes from the continuation, called on what is
    left after a run of class characters. *)
Lemma star_sound (s : chars) (k : chars -> option A) (r : A) :
  star cls s k = Some r ->
  exists run rest, s = run ++ rest /\ forallb cls run = true /\ k rest = Some r.
Proof.
  revert r. induction s as [| c s IH]; intros r; cbn.
  - intros H. now exists [], [].
  - destruct (cls c) eqn:Hc.
    + destruct (star cls s k) as [r' |] eqn:Hs.
      * intros [= <-]. destruct (IH r' eq_refl) as (run & rest & -> & Hrun & Hk).
        exists (c :: run), rest. cbn. now rewrite Hc, Hrun.
      * intros Hk. now exists [], (c :: s).
    + intros Hk. now exists [], (c :: s).
Qed.

Lemma star_tries_empty (s : chars) (k : chars -> option A) :
  k s <> None -> star cls s k <> None.
Proof.
  destruct s as [| c s]; cbn; [easy |].
  destruct (cls c); [| easy].
  now destruct (star cls s k).
Qed.

(** Backtracking reaches every split: if the continuation accepts after some
    run of class characters, [star] succeeds. *)
Lemma star_complete (run rest : chars) (k : chars -> option A) :
  forallb cls run = true -> k rest <> None -> star cls (run ++ rest) k <> None.
Proof.
  induction run as [| c run IH]; cbn.
  - intros _. apply star_tries_empty.
  - intros [Hc Hrun]%andb_prop Hk. rewrite Hc.
    specialize (IH Hrun Hk). now destruct (star cls (run ++ rest) k).
Qed.

End Star.

Lemma exec_chars_sound (rs : list re) (s : chars) (c : captures) :
  exec_chars rs s = Some c ->
  exists pre suf, s = pre ++ suf /\ match_here rs suf = Some c.
Proof.
  induction s as [| a s IH]; cbn.
  - destruct (match_here rs []) eqn:Hm; [| easy].
    intros [= <-]. now exists [], [].
  - destruct (match_here rs (a :: s)) eqn:Hm.
    + intros [= <-]. now exists [], (a :: s).
    + intros (pre & suf & -> & H)%IH. now exists (a :: pre), suf.
Qed.

Lemma exec_chars_complete (rs : list re) (pre suf : chars) :
  match_here rs suf <> None -> exec_chars rs (pre ++ suf) <> None.
Proof.
  intros Hm. induction pre as [| a pre IH]; cbn.
  - destruct suf; cbn; now destruct (match_here rs _).
  - now destruct (match_here rs (a :: pre ++ suf)).
Qed.

(** [exec] finds the match at the first start position that has one. *)
Lemma exec_chars_first (rs : list re) (s : chars) (c : captures) :
  exec_chars rs s = Some c ->
  exists pre suf,
    s = pre ++ suf /\ match_here rs suf = Some c
    /\ forall pre' suf',
         s = pre' ++ suf' -> (List.length pre' < List.length pre)%nat ->
         match_here rs suf' = None.
Proof.
  induction s as [| a s IH]; cbn [exec_chars].
  - destruct (match_here rs []) as [c' |] eqn:Hm; [| discriminate].
    intros [= <-]. exists [], []. split; [reflexivity |].
    split; [exact Hm |]. cbn. intros pre' suf' _ H. lia.
  - destruct (match_here rs (a :: s)) as [c' |] eqn:Hm.
    + intros [= <-]. exists [], (a :: s). split; [reflexivity |].
      split; [exact Hm |]. cbn. intros pre' suf' _ H. lia.
    + intros He. destruct (IH He) as (pre & suf & -> & Hs & Hfirst).
      exists (a :: pre), suf. split; [reflexivity |]. split; [exact Hs |].
      intros pre' suf' Heq Hlen. destruct pre' as [| b pre'].
      * cbn in Heq. now rewrite <- Heq.
      * cbn in Heq. injection Heq as _ Heq. apply (Hfirst pre' suf' Heq).
        cbn in Hlen. lia.
Qed.

(** The equations of the matcher, one for each construct. *)
Lemma run_seq_cons r rs s c k :
  run_seq (r :: rs) s c k = run r s c (fun s' c' => run_seq rs s' c' k).
Proof. reflexivity. Qed.

Lemma run_Lit l s c k :
  run (Lit l) s c k =
    match strip_prefix (str l) s with
    | Some rest => k rest c
    | None => None
    end.
Proof. reflexivity. Qed.

Lemma run_Star cls s c k :
  run (Star cls) s c k = star cls s (fun rest => k rest c).
Proof. reflexivity. Qed.

Lemma run_Plus cls s c k :
  run (Plus cls) s c k =
    match s with
    | a :: s' => if cls a then star cls s' (fun rest => k rest c) else None
    | [] => None
    end.
Proof. reflexivity. Qed.

Lemma run_Opt body s c k :
  run (Opt body) s c k =
    match run_seq body s c k with
    | Some res => Some res
    | None => k s c
    end.
Proof. reflexivity. Qed.

Lemma run_Group i body s c k :
  run (Group i body) s c k =
    run_seq body s c (fun rest c' => k rest ((i, consumed s rest) :: c')).
Proof. reflexivity. Qed.

Lemma consumed_app (x rest : chars) : consumed (x ++ rest) rest = x.
Proof.
  unfold consumed. rewrite List.length_app, Nat.add_sub.
  rewrite firstn_app, Nat.sub_diag, firstn_all. cbn. apply app_nil_r.
Qed.

End RegexFacts.

(** ** The two patterns of the builder *)

Module PatternFacts.

Import Regex Spec RegexFacts.
Local Open Scope list_scope.

(** *** The matcher on some colour strings *)

Example red_prop_matches :
  test Sparkline.red_signature "rgba(239,68,68,0.9)" = true
  /\ test Sparkline.red_signature "rgba(239, 68,  68, 1)" = true
  /\ test Sparkline.red_signature "rgba(16,185,129,0.8)" = false
  /\ test Sparkline.red_signature "rgba(239,68,6,0.9)" = false.
Proof. repeat split; vm_compute; reflexivity. Qed.

Example default_colour_groups :
  option_map (fun c => (capture 1 c, capture 2 c, capture 3 c, capture 4 c))
    (exec Sparkline.rgba_pattern "rgba(16,185,129,0.8)")
  = Some (Some (str "16"), Some (str "185"), Some (str "129"), Some (str "0.8")).
Proof. vm_compute. reflexivity. Qed.

Example leftmost_complete_match :
  option_map (fun c => (capture 1 c, capture 2 c, capture 3 c, capture 4 c))
    (exec Sparkline.rgba_pattern "rgb(1,2,3,1.5.5) x rgb( 4 ,5,6 )")
  = Some (Some (str " 4 "), Some (str "5"), Some (str "6 "), None).
Proof. vm_compute. reflexivity. Qed.

Example not_rgba :
  exec Sparkline.rgba_pattern "#ef4444" = None
  /\ exec Sparkline.rgba_pattern "rgb(1,2,3" = None
  /\ exec Sparkline.rgba_pattern "rgba(1,2,3,5.)" = None
  /\ exec Sparkline.rgba_pattern "rgba(1.5,2,3)" = None.
Proof. repeat split; vm_compute; reflexivity. Qed.

(** *** The red signature *)

Lemma red_signature_here (suf : chars) :
  match_here Sparkline.red_signature suf <> None <->
  exists ws1 ws2 post,
    suf = str "239," ++ ws1 ++ str "68," ++ ws2 ++ str "68" ++ post
    /\ forallb is_space ws1 = true /\ forallb is_space ws2 = true.
Proof.
  unfold match_here, Sparkline.red_signature.
  rewrite run_seq_cons, run_Lit. split.
  - destruct (strip_prefix _ suf) as [r1 |] eqn:H1; [| easy].
    apply strip_prefix_spec in H1. subst suf.
    rewrite run_seq_cons, run_Star.
    destruct (star is_space r1 _) as [c |] eqn:Hs1; [| easy]. intros _.
    apply star_sound in Hs1 as (ws1 & r2 & -> & Hws1 & Hk1).
    cbn beta in Hk1. rewrite run_seq_cons, run_Lit in Hk1.
    destruct (strip_prefix _ r2) as [r3 |] eqn:H2; [| easy].
    apply strip_prefix_spec in H2. subst r2.
    rewrite run_seq_cons, run_Star in Hk1.
    apply star_sound in Hk1 as (ws2 & r4 & -> & Hws2 & Hk2).
    cbn beta in Hk2. rewrite run_seq_cons, run_Lit in Hk2.
    destruct (strip_prefix _ r4) as [r5 |] eqn:H3; [| easy].
    apply strip_prefix_spec in H3. subst r4.
    now exists ws1, ws2, r5.
  - intros (ws1 & ws2 & post & -> & Hws1 & Hws2).
    rewrite strip_prefix_app, run_seq_cons, run_Star.
    apply star_complete; [assumption |].
    rewrite run_seq_cons, run_Lit, strip_prefix_app, run_seq_cons, run_Star.
    apply star_complete; [assumption |].
    now rewrite run_seq_cons, run_Lit, strip_prefix_app.
Qed.

(** The test of line 73 holds exactly for the strings that contain the
    signature. *)
Lemma test_red_signature (s : string) :
  test Sparkline.red_signature s = true <-> contains_red_signature s.
Proof.
  unfold test, exec, contains_red_signature. split.
  - destruct (exec_chars _ _) as [c |] eqn:He; [| easy]. intros _.
    apply exec_chars_sound in He as (pre & suf & Hs & Hm).
    assert (Hne : match_here Sparkline.red_signature suf <> None) by congruence.
    apply red_signature_here in Hne as (ws1 & ws2 & post & -> & H1 & H2).
    now exists pre, ws1, ws2, post.
  - intros (pre & ws1 & ws2 & post & Hs & H1 & H2).
    unfold str in Hs at 1. rewrite Hs.
    destruct (exec_chars _ _) eqn:He; [reflexivity |].
    exfalso. revert He. apply exec_chars_complete.
    apply red_signature_here. now exists ws1, ws2, post.
Qed.

(** *** The rgba pattern: what a match tells *)

Lemma channel_group_sound i s c k res :
  run (Group i Sparkline.channel) s c k = Some res ->
  exists g ds rest,
    s = g ++ rest /\ channel_text g ds /\ k rest ((i, g) :: c) = Some res.
Proof.
  unfold Sparkline.channel.
  rewrite run_Group, run_seq_cons, run_Star.
  intros (ws1 & r1 & -> & Hws1 & H1)%star_sound.
  cbn beta in H1. rewrite run_seq_cons, run_Plus in H1.
  destruct r1 as [| a r1]; [easy |].
  destruct (is_digit a) eqn:Ha; [| easy].
  apply star_sound in H1 as (ds & r2 & -> & Hds & H2).
  cbn beta in H2. rewrite run_seq_cons, run_Star in H2.
  apply star_sound in H2 as (ws2 & r3 & -> & Hws2 & H3).
  cbn [run_seq] in H3.
  exists (ws1 ++ (a :: ds) ++ ws2), (a :: ds), r3.
  replace (ws1 ++ a :: ds ++ ws2 ++ r3) with ((ws1 ++ (a :: ds) ++ ws2) ++ r3) in *
    by (now rewrite <- !app_assoc).
  rewrite consumed_app in H3.
  repeat split; try assumption.
  exists ws1, ws2. repeat split; try assumption; [easy |].
  cbn. now rewrite Ha, Hds.
Qed.

Lemma alpha_part_sound s c k res :
  run_seq alpha_part s c k = Some res ->
  exists g4 rest,
    s = str "," ++ g4 ++ rest /\ alpha_text g4
    /\ k rest ((4%nat, g4) :: c) = Some res.
Proof.
  unfold alpha_part.
  rewrite run_seq_cons, run_Lit.
  destruct (strip_prefix _ s) as [r0 |] eqn:H0; [| easy].
  apply strip_prefix_spec in H0. subst s.
  rewrite run_seq_cons, run_Group.
  match goal with |- run_seq _ _ _ ?K = _ -> _ => set (K0 := K) end.
  rewrite run_seq_cons, run_Star.
  intros (ws1 & r1 & Hr0 & Hws1 & H)%star_sound.
  cbn beta in H. rewrite run_seq_cons, run_Star in H.
  apply star_sound in H as (d1 & r2 & -> & Hd1 & H).
  cbn beta in H. rewrite run_seq_cons, run_Opt in H.
  assert (Hplus : exists dot r3,
             r2 = dot ++ r3 /\ (dot = [] \/ dot = str ".")
             /\ run_seq [Plus is_digit; Star is_space] r3 c K0 = Some res).
  { match type of H with
    | match ?X with _ => _ end = _ => destruct X as [res' |] eqn:Hdot
    end.
    - injection H as ->. rewrite run_seq_cons, run_Lit in Hdot.
      destruct (strip_prefix _ r2) as [r3 |] eqn:H3; [| easy].
      apply strip_prefix_spec in H3. exists (str "."), r3. auto.
    - exists [], r2. auto. }
  clear H. destruct Hplus as (dot & r3 & -> & Hdot & H).
  rewrite run_seq_cons, run_Plus in H.
  destruct r3 as [| a r3]; [easy |]. destruct (is_digit a) eqn:Ha; [| easy].
  apply star_sound in H as (d2 & r4 & -> & Hd2 & H).
  cbn beta in H. rewrite run_seq_cons, run_Star in H.
  apply star_sound in H as (ws2 & r5 & -> & Hws2 & H).
  cbn [run_seq] in H. subst K0. cbn beta in H. cbn [run_seq] in H.
  subst r0.
  replace (ws1 ++ d1 ++ dot ++ a :: d2 ++ ws2 ++ r5)
    with ((ws1 ++ d1 ++ dot ++ (a :: d2) ++ ws2) ++ r5) in *
    by (now rewrite <- ?app_assoc; cbn; rewrite <- ?app_assoc).
  rewrite consumed_app in H.
  eexists _, r5. split; [reflexivity |]. split; [| exact H].
  exists ws1, d1, dot, (a :: d2), ws2.
  repeat split; try assumption; [easy |]. cbn. now rewrite Ha, Hd2.
Qed.

Lemma rgba_pattern_parts :
  Sparkline.rgba_pattern = Lit "rgb" :: Opt [Lit "a"] :: paren_part.
Proof. reflexivity. Qed.

Lemma paren_part_sound s res :
  run_seq paren_part s [] (fun _ c => Some c) = Some res ->
  exists g1 d1 g2 d2 g3 d3 tail post,
    s = str "(" ++ g1 ++ str "," ++ g2 ++ str "," ++ g3 ++ tail
        ++ str ")" ++ post
    /\ channel_text g1 d1 /\ channel_text g2 d2 /\ channel_text g3 d3
    /\ (tail = [] \/ exists g4, tail = str "," ++ g4 /\ alpha_text g4)
    /\ capture 1 res = Some g1 /\ capture 2 res = Some g2
    /\ capture 3 res = Some g3.
Proof.
  unfold paren_part.
  rewrite run_seq_cons, run_Lit.
  destruct (strip_prefix _ s) as [r0 |] eqn:H0; [| easy].
  apply strip_prefix_spec in H0. subst s.
  rewrite run_seq_cons.
  intros (g1 & d1 & r1 & -> & Hg1 & H)%channel_group_sound.
  rewrite run_seq_cons, run_Lit in H.
  destruct (strip_prefix _ r1) as [r1' |] eqn:H1; [| easy].
  apply strip_prefix_spec in H1. subst r1.
  rewrite run_seq_cons in H.
  apply channel_group_sound in H as (g2 & d2 & r2 & -> & Hg2 & H).
  rewrite run_seq_cons, run_Lit in H.
  destruct (strip_prefix _ r2) as [r2' |] eqn:H2; [| easy].
  apply strip_prefix_spec in H2. subst r2.
  rewrite run_seq_cons in H.
  apply channel_group_sound in H as (g3 & d3 & r3 & -> & Hg3 & H).
  rewrite run_seq_cons, run_Opt in H.
  match type of H with
  | match ?X with _ => _ end = _ => destruct X as [res' |] eqn:Ha
  end.
  - injection H as ->.
    apply alpha_part_sound in Ha as (g4 & rest & -> & Hg4 & Ha).
    rewrite run_seq_cons, run_Lit in Ha.
    destruct (strip_prefix _ rest) as [post |] eqn:Hp; [| easy].
    apply strip_prefix_spec in Hp. subst rest.
    cbn [run_seq] in Ha. injection Ha as <-.
    exists g1, d1, g2, d2, g3, d3, (str "," ++ g4), post.
    split; [now rewrite <- ?app_assoc |].
    do 3 (split; [assumption |]).
    split; [right; now exists g4 | now cbn].
  - rewrite run_seq_cons, run_Lit in H.
    destruct (strip_prefix _ r3) as [post |] eqn:Hp; [| easy].
    apply strip_prefix_spec in Hp. subst r3.
    cbn [run_seq] in H. injection H as <-.
    exists g1, d1, g2, d2, g3, d3, [], post.
    split; [reflexivity |].
    do 3 (split; [assumption |]).
    split; [now left | now cbn].
Qed.

Lemma rgba_here_sound s res :
  match_here Sparkline.rgba_pattern s = Some res ->
  exists g1 d1 g2 d2 g3 d3,
    rgba_here s d1 d2 d3
    /\ channel_text g1 d1 /\ channel_text g2 d2 /\ channel_text g3 d3
    /\ capture 1 res = Some g1 /\ capture 2 res = Some g2
    /\ capture 3 res = Some g3.
Proof.
  unfold match_here. rewrite rgba_pattern_parts.
  rewrite run_seq_cons, run_Lit.
  destruct (strip_prefix _ s) as [r0 |] eqn:H0; [| easy].
  apply strip_prefix_spec in H0. subst s.
  rewrite run_seq_cons, run_Opt.
  match goal with
  | |- match ?X with _ => _ end = _ -> _ => destruct X as [res' |] eqn:Ha
  end.
  - intros [= ->]. rewrite run_seq_cons, run_Lit in Ha.
    destruct (strip_prefix _ r0) as [r1 |] eqn:H1; [| easy].
    apply strip_prefix_spec in H1. subst r0. cbn [run_seq] in Ha.
    apply paren_part_sound in Ha
      as (g1 & d1 & g2 & d2 & g3 & d3 & tail & post & -> & H1 & H2 & H3 & Ht & Hc).
    exists g1, d1, g2, d2, g3, d3. repeat split; try tauto.
    exists (str "a"), g1, g2, g3, tail, post. repeat split; auto.
  - intros (g1 & d1 & g2 & d2 & g3 & d3 & tail & post & -> & H1 & H2 & H3 & Ht & Hc)%paren_part_sound.
    exists g1, d1, g2, d2, g3, d3. repeat split; try tauto.
    exists [], g1, g2, g3, tail, post. repeat split; auto.
Qed.

(** *** The rgba pattern: what is enough for a match *)

Lemma channel_group_complete i g ds rest c k :
  channel_text g ds ->
  (forall c', k rest c' <> None) ->
  run (Group i Sparkline.channel) (g ++ rest) c k <> None.
Proof.
  intros (ws1 & ws2 & -> & Hws1 & Hne & Hds & Hws2) Hk.
  unfold Sparkline.channel.
  rewrite run_Group, run_seq_cons, run_Star, <- app_assoc.
  apply star_complete; [assumption |].
  rewrite run_seq_cons, run_Plus.
  destruct ds as [| d ds]; [easy |]. cbn [forallb] in Hds.
  apply andb_prop in Hds as [Hd Hds].
  rewrite <- ?app_assoc.
  change ((d :: ds) ++ ws2 ++ rest) with (d :: ds ++ ws2 ++ rest).
  cbn iota. rewrite Hd.
  apply star_complete; [assumption |].
  rewrite run_seq_cons, run_Star.
  apply star_complete; [assumption |].
  cbn [run_seq]. apply Hk.
Qed.

Lemma alpha_part_complete g rest c k :
  alpha_text g ->
  (forall c', k rest c' <> None) ->
  run_seq alpha_part (str "," ++ g ++ rest) c k <> None.
Proof.
  intros (ws1 & d1 & dot & d2 & ws2 & -> & Hws1 & Hd1 & Hdot & Hne & Hd2 & Hws2) Hk.
  unfold alpha_part.
  rewrite run_seq_cons, run_Lit, strip_prefix_app.
  rewrite run_seq_cons, run_Group.
  match goal with |- run_seq _ _ _ ?K <> _ => set (K0 := K) end.
  rewrite run_seq_cons, run_Star, <- !app_assoc.
  apply star_complete; [assumption |].
  rewrite run_seq_cons, run_Star.
  apply star_complete; [assumption |].
  rewrite run_seq_cons, run_Opt.
  assert (Hplus : forall c0,
             run_seq [Plus is_digit; Star is_space] (d2 ++ ws2 ++ rest) c0 K0
             <> None).
  { intros c0. rewrite run_seq_cons, run_Plus.
    destruct d2 as [| d d2]; [easy |]. cbn [forallb] in Hd2.
    apply andb_prop in Hd2 as [Hd Hd2].
    change ((d :: d2) ++ ws2 ++ rest) with (d :: d2 ++ ws2 ++ rest).
    cbn iota. rewrite Hd.
    apply star_complete; [assumption |].
    rewrite run_seq_cons, run_Star.
    apply star_complete; [assumption |].
    cbn [run_seq]. subst K0. cbn beta. cbn [run_seq]. apply Hk. }
  match goal with
  | |- match ?X with _ => _ end <> _ => destruct X eqn:Hdotrun
  end; [easy |].
  destruct Hdot as [-> | ->]; [apply Hplus |].
  exfalso. revert Hdotrun.
  rewrite run_seq_cons, run_Lit, strip_prefix_app. apply Hplus.
Qed.

Lemma paren_part_complete g1 d1 g2 d2 g3 d3 tail post c :
  channel_text g1 d1 -> channel_text g2 d2 -> channel_text g3 d3 ->
  (tail = [] \/ exists g4, tail = str "," ++ g4 /\ alpha_text g4) ->
  run_seq paren_part
    (str "(" ++ g1 ++ str "," ++ g2 ++ str "," ++ g3 ++ tail ++ str ")" ++ post)
    c (fun _ c' => Some c') <> None.
Proof.
  intros H1 H2 H3 Htail. unfold paren_part.
  rewrite run_seq_cons, run_Lit, strip_prefix_app, run_seq_cons.
  apply (channel_group_complete 1 g1 d1); [assumption |]. intros c1.
  rewrite run_seq_cons, run_Lit, strip_prefix_app, run_seq_cons.
  apply (channel_group_complete 2 g2 d2); [assumption |]. intros c2.
  rewrite run_seq_cons, run_Lit, strip_prefix_app, run_seq_cons.
  apply (channel_group_complete 3 g3 d3); [assumption |]. intros c3.
  rewrite run_seq_cons, run_Opt.
  assert (Hclose : forall r c0,
             run_seq [Lit ")"] (str ")" ++ r) c0 (fun _ c' => Some c') <> None).
  { intros r c0. now rewrite run_seq_cons, run_Lit, strip_prefix_app. }
  match goal with
  | |- match ?X with _ => _ end <> _ => destruct X eqn:Halpha
  end; [easy |].
  destruct Htail as [-> | (g4 & -> & Hg4)]; [apply Hclose |].
  exfalso. revert Halpha. rewrite <- !app_assoc.
  apply alpha_part_complete; [assumption |]. intros c4. apply Hclose.
Qed.

Lemma rgba_here_complete s d1 d2 d3 :
  rgba_here s d1 d2 d3 -> match_here Sparkline.rgba_pattern s <> None.
Proof.
  intros (a & g1 & g2 & g3 & tail & post & -> & Ha & H1 & H2 & H3 & Htail).
  unfold match_here. rewrite rgba_pattern_parts.
  rewrite run_seq_cons, run_Lit, strip_prefix_app, run_seq_cons, run_Opt.
  match goal with
  | |- match ?X with _ => _ end <> _ => destruct X eqn:Hopt
  end; [easy |].
  destruct Ha as [-> | ->].
  - cbn [app]. now apply (paren_part_complete g1 d1 g2 d2 g3 d3).
  - exfalso. revert Hopt.
    rewrite run_seq_cons, run_Lit, strip_prefix_app. cbn [run_seq].
    now apply (paren_part_complete g1 d1 g2 d2 g3 d3).
Qed.

(** *** parseInt on a channel *)

Import ParseInt.

Lemma digit_not_space c : is_digit c = true -> is_space c = false.
Proof. destruct c as [[] [] [] [] [] [] [] []]; now cbn. Qed.

Lemma digit_not_sign c :
  is_digit c = true -> c <> "-"%char /\ c <> "+"%char.
Proof. destruct c as [[] [] [] [] [] [] [] []]; now cbn. Qed.

Lemma skip_space_run ws rest :
  forallb is_space ws = true -> skip_space (ws ++ rest) = skip_space rest.
Proof.
  induction ws as [| c ws IH]; cbn; [easy |].
  intros [Hc Hws]%andb_prop. now rewrite Hc, IH.
Qed.

Lemma digits_run ds ws v :
  forallb is_digit ds = true -> forallb is_space ws = true ->
  digits (Some v) (ds ++ ws)
  = Some (fold_left (fun v c => 10 * v + digit_value c)%Z ds v).
Proof.
  revert v. induction ds as [| d ds IH]; intros v; cbn [app forallb fold_left].
  - intros _ Hws. destruct ws as [| c ws]; cbn [digits]; [easy |].
    cbn [forallb] in Hws. apply andb_prop in Hws as [Hc _].
    destruct (is_digit c) eqn:Hd; [| easy].
    apply digit_not_space in Hd. congruence.
  - intros [Hd Hds]%andb_prop Hws. cbn [digits]. rewrite Hd. now apply IH.
Qed.

Lemma fold_decimal_nonneg ds v :
  (0 <= v)%Z ->
  (0 <= fold_left (fun v c => 10 * v + digit_value c)%Z ds v)%Z.
Proof.
  revert v. induction ds as [| d ds IH]; intros v Hv; cbn [fold_left]; [easy |].
  apply IH. assert (0 <= digit_value d)%Z by apply Nat2Z.is_nonneg. lia.
Qed.

(** A whole number below 2^53 is its own Number value. *)
Lemma to_number_exact (z : Z) :
  (z < 2 ^ 53)%Z -> to_number z = JS.Fin (IZR z).
Proof.
  intros H. unfold to_number.
  destruct (Z.ltb_spec z (2 ^ 53)); [reflexivity | lia].
Qed.

(** [parseInt] of a channel text is the Number value of what its digits
    denote. *)
Lemma parseInt10_channel g ds :
  channel_text g ds ->
  parseInt10 g = to_number (decimal ds) /\ (0 <= decimal ds)%Z.
Proof.
  intros (ws1 & ws2 & -> & Hws1 & Hne & Hds & Hws2).
  destruct ds as [| d ds]; [easy |]. clear Hne.
  cbn [forallb] in Hds. apply andb_prop in Hds as [Hd Hds].
  split; [| apply fold_decimal_nonneg; lia].
  unfold parseInt10.
  rewrite skip_space_run by assumption.
  cbn [app skip_space]. rewrite (digit_not_space d Hd).
  destruct (digit_not_sign d Hd) as [Hm%Ascii.eqb_neq Hp%Ascii.eqb_neq].
  rewrite Hm, Hp. cbn [orb].
  cbn [digits]. rewrite Hd.
  rewrite digits_run by assumption.
  unfold decimal. cbn [fold_left].
  now replace (10 * 0 + digit_value d)%Z with (digit_value d) by lia.
Qed.

(** *** The outcome of [exec] on a colour string *)

(** A match gives the three numbers of the first text of the rgba shape;
    no match means the string holds no such text. *)
Lemma rgba_exec_spec (s : string) :
  match exec Sparkline.rgba_pattern s with
  | Some caps =>
      exists d1 d2 d3,
        first_rgba s d1 d2 d3
        /\ Sparkline.parsed_group 1 caps = to_number (decimal d1)
        /\ Sparkline.parsed_group 2 caps = to_number (decimal d2)
        /\ Sparkline.parsed_group 3 caps = to_number (decimal d3)
        /\ (0 <= decimal d1)%Z /\ (0 <= decimal d2)%Z /\ (0 <= decimal d3)%Z
  | None => forall d1 d2 d3, ~ rgba_shaped s d1 d2 d3
  end.
Proof.
  unfold exec. destruct (exec_chars _ _) as [caps |] eqn:He.
  - apply exec_chars_first in He as (pre & suf & Hs & Hm & Hfirst).
    apply rgba_here_sound in Hm
      as (g1 & d1 & g2 & d2 & g3 & d3 & Hshape & H1 & H2 & H3 & C1 & C2 & C3).
    exists d1, d2, d3. unfold Sparkline.parsed_group. rewrite C1, C2, C3.
    destruct (parseInt10_channel g1 d1 H1) as [-> ?].
    destruct (parseInt10_channel g2 d2 H2) as [-> ?].
    destruct (parseInt10_channel g3 d3 H3) as [-> ?].
    repeat split; try assumption.
    exists pre, suf. split; [exact Hs |]. split; [exact Hshape |].
    intros pre' suf' e1 e2 e3 Heq Hlen Hhere.
    unfold str in Heq. rewrite Hs in Hfirst.
    specialize (Hfirst pre' suf').
    assert (Hnone : match_here Sparkline.rgba_pattern suf' = None).
    { apply Hfirst; [| exact Hlen]. now rewrite <- Hs. }
    now apply (rgba_here_complete suf' e1 e2 e3 Hhere).
  - intros d1 d2 d3 (pre & suf & Hs & Hshape).
    unfold str in Hs. rewrite Hs in He. revert He.
    apply exec_chars_complete. now apply (rgba_here_complete suf d1 d2 d3).
Qed.

End PatternFacts.

(** ** The Model Builder *)

Module BuilderFacts.

Import Sparkline Spec JSFacts.
Local Open Scope num_scope.

Section Builder.

Variable measureText : string -> R.

Local Abbreviation build := (buildModel measureText).

Lemma padTop_build P w h : padTop (build P w h) = JS.Fin (padTop_of P).
Proof. unfold buildModel, padTop_of; cbn. now destruct (is_compact P). Qed.

Lemma padBottom_build P w h : padBottom (build P w h) = JS.Fin (padBottom_of P).
Proof. unfold buildModel, padBottom_of; cbn. now destruct (is_compact P). Qed.

Lemma padX_build P w h : padX (build P w h) = JS.Fin (padX_of P).
Proof. unfold buildModel, padX_of; cbn. now destruct (is_compact P). Qed.

Lemma startX_build P w h :
  startX (build P w h) = JS.Fin (padX_of P + leftAxis_of P).
Proof.
  unfold buildModel, padX_of, leftAxis_of; cbn. now destruct (is_compact P).
Qed.

Lemma startY_build P w (h : R) :
  startY (build P w (JS.Fin h)) = JS.Fin (h - padBottom_of P - 1).
Proof.
  unfold buildModel, padBottom_of; cbn. now destruct (is_compact P).
Qed.

(** The clamped metric [p] of the builder is finite, whatever the input. *)
Lemma clamped_metric (percent : option JS.num) :
  JS.max 0 (JS.min 1000
    match percent with
    | Some x => if JS.isFinite x then x else JS.Fin 100
    | None => JS.Fin 100
    end)
  = JS.Fin (Rmax 0 (Rmin 1000 (metric_or_default percent))).
Proof. destruct percent as [[| | | r] |]; reflexivity. Qed.

(** The second clamp, of the norm into [0, 1], changes nothing. *)
Lemma norm_of_clamped (c : R) :
  0 <= c <= 1000 ->
  JS.max 0 (JS.min 1 (JS.Fin c / 1000)) = JS.Fin (c / 1000).
Proof.
  intros Hc. rewrite div_fin by lra. cbn.
  f_equal. apply clamp_inside. lra.
Qed.

Lemma yFinal_build P w h :
  yFinal (build P w h) =
    JS.Fin (padTop_of P)
    + JS.Fin (1 - Rmax 0 (Rmin 1000 (metric_or_default (percent P))) / 1000)
      * JS.max 1 (h - JS.Fin (padTop_of P) - JS.Fin (padBottom_of P)).
Proof.
  unfold buildModel; cbn [yFinal].
  rewrite clamped_metric.
  rewrite norm_of_clamped by (apply clamp_bounds; lra).
  unfold padTop_of, padBottom_of. now destruct (is_compact P).
Qed.

Lemma yFinal_finite P w (h : R) :
  yFinal (build P w (JS.Fin h)) =
    JS.Fin (padTop_of P
            + (1 - Rmax 0 (Rmin 1000 (metric_or_default (percent P))) / 1000)
              * Rmax 1 (h - padTop_of P - padBottom_of P)).
Proof. rewrite yFinal_build. reflexivity. Qed.

(** The target y never rises when the metric grows, clamped or not. *)
Lemma yFinal_antitone P w (h x1 x2 : R) :
  x1 <= x2 ->
  JS.leb (yFinal (build (with_percent P (Some (JS.Fin x2))) w (JS.Fin h)))
         (yFinal (build (with_percent P (Some (JS.Fin x1))) w (JS.Fin h)))
  = true.
Proof.
  intros Hle. rewrite !yFinal_finite. apply leb_fin.
  cbn [percent with_percent metric_or_default].
  change (padTop_of (with_percent P _)) with (padTop_of P).
  change (padBottom_of (with_percent P _)) with (padBottom_of P).
  pose proof (clamp_mono 0 1000 x1 x2 Hle) as Hc.
  pose proof (Rmax_l 1 (h - padTop_of P - padBottom_of P)) as Hh.
  nra.
Qed.

(** Inside [0, 1000] it falls strictly. *)
Lemma yFinal_strict P w (h x1 x2 : R) :
  0 <= x1 -> x1 < x2 -> x2 <= 1000 ->
  JS.ltb (yFinal (build (with_percent P (Some (JS.Fin x2))) w (JS.Fin h)))
         (yFinal (build (with_percent P (Some (JS.Fin x1))) w (JS.Fin h)))
  = true.
Proof.
  intros H0 Hlt H1. rewrite !yFinal_finite. apply ltb_fin.
  cbn [percent with_percent metric_or_default].
  change (padTop_of (with_percent P _)) with (padTop_of P).
  change (padBottom_of (with_percent P _)) with (padBottom_of P).
  rewrite (clamp_inside 0 1000 x1), (clamp_inside 0 1000 x2) by lra.
  pose proof (Rmax_l 1 (h - padTop_of P - padBottom_of P)) as Hh.
  nra.
Qed.

Lemma duration_build P w h :
  duration (build P w h) =
    match durationMs P with
    | Some (JS.Fin d) => JS.Fin (Rmax 200 (Rmin 4000 (IZR (Zfloor d))))
    | _ => JS.Fin 980
    end.
Proof.
  unfold buildModel; cbn [duration].
  now destruct (durationMs P) as [[| | | d] |].
Qed.

Lemma label_build P w h w' h' : label (build P w h) = label (build P w' h').
Proof. reflexivity. Qed.

Lemma labelWidth_build P w h :
  labelWidth (build P w h) = JS.Fin (measureText (label (build P 0 0))).
Proof. reflexivity. Qed.

(** The label of a whole metric in range, and of an absent metric. *)
Lemma label_whole P (z : Z) w h :
  percent P = Some (JS.Fin (IZR z)) -> (0 <= z <= 1000)%Z ->
  label (build P w h)
  = ("+" ++ DecimalString.NilZero.string_of_int (Z.to_int z) ++ "%")%string.
Proof.
  intros Hp [H0 H1]. unfold buildModel; cbn [label]. rewrite Hp.
  cbn [JS.isFinite JS.max JS.min].
  rewrite clamp_inside by (split; apply IZR_le; lia).
  rewrite round_whole.
  rewrite (proj2 (geb_fin (IZR z) 0)) by (apply IZR_le; lia).
  cbn [string_of_integral]. now rewrite ZfloorZ.
Qed.

Lemma label_absent P w h :
  percent P = None -> label (build P w h) = "+100%"%string.
Proof.
  intros Hp. unfold buildModel; cbn [label]. rewrite Hp.
  cbn [JS.max JS.min].
  rewrite clamp_inside by lra.
  rewrite (round_whole 100).
  rewrite (proj2 (geb_fin 100 0)) by lra.
  cbn [string_of_integral]. now rewrite (ZfloorZ 100).
Qed.

Lemma endX_build P (w : R) h :
  let m := build P (JS.Fin w) h in
  endX m = JS.max (startX m) (JS.Fin w - padX m - rightGutter_of P m).
Proof.
  unfold rightGutter_of, gutterBase_of, buildModel; cbn.
  now destruct (is_compact P).
Qed.

Lemma endX_finite P (w : R) h :
  endX (build P (JS.Fin w) h) =
    JS.Fin (Rmax (padX_of P + leftAxis_of P)
              (w - padX_of P
               - Rmax (gutterBase_of P) (measureText (label (build P 0 0)) + 18))).
Proof.
  unfold gutterBase_of, padX_of, leftAxis_of, buildModel; cbn.
  now destruct (is_compact P).
Qed.

(** The chart never points backward. *)
Lemma endX_not_left_of_startX P (w : R) h :
  JS.leb (startX (build P (JS.Fin w) h)) (endX (build P (JS.Fin w) h)) = true.
Proof. rewrite endX_finite, startX_build. apply leb_fin, Rmax_l. Qed.

End Builder.

End BuilderFacts.

(** ** Painting and hovering *)

Module PaintFacts.

Import Sparkline Spec JSFacts.
Local Open Scope num_scope.
Local Open Scope string_scope.

(** The three strokes of a frame: the axis guide, the dashed level line,
    and the line from the start point to the tip.  The line has the stroke
    colour of the Model when the context takes it for a colour, and the
    style of the level line before it otherwise. *)
Lemma strokes_draw isColor P dpr m t labels :
  takes_fixed_styles isColor ->
  stroke_ends isColor (draw P dpr m t labels) =
    [ (axis_style,
       (padX m + 20, padTop m + (5 / 10)%R),
       (padX m + 20, height m - padBottom m + (5 / 10)%R));
      (level_style,
       (startX m, startY m + (5 / 10)%R),
       (endX m, startY m + (5 / 10)%R));
      (if isColor (strokeColor m) then strokeColor m else level_style,
       (startX m, startY m),
       blend m (cosine_ease (JS.max 0 (JS.min 1 t)))) ].
Proof.
  intros [Ha Hl]. unfold axis_style, level_style in *.
  unfold stroke_ends, draw.
  destruct labels as [[l0 l1] |];
    cbn [app strokes pen_step map fresh_pen pen_style pen_width pen_at
         pen_path seg_style seg_from seg_to fst snd];
    rewrite Ha, Hl; destruct (isColor (strokeColor m)); reflexivity.
Qed.

(** The end points of the three strokes, whatever the context takes for a
    colour. *)
Lemma points_draw isColor P dpr m t labels :
  map (fun s => (snd (fst s), snd s))
      (stroke_ends isColor (draw P dpr m t labels)) =
    [ ((padX m + 20, padTop m + (5 / 10)%R),
       (padX m + 20, height m - padBottom m + (5 / 10)%R));
      ((startX m, startY m + (5 / 10)%R),
       (endX m, startY m + (5 / 10)%R));
      ((startX m, startY m),
       blend m (cosine_ease (JS.max 0 (JS.min 1 t)))) ].
Proof.
  unfold stroke_ends, draw.
  destruct labels as [[l0 l1] |];
    cbn [app strokes pen_step map fresh_pen pen_style pen_width pen_at
         pen_path seg_style seg_from seg_to fst snd];
    reflexivity.
Qed.

(** The third stroke ends at the tip. *)
Lemma tip_point isColor P dpr m t labels :
  option_map (fun s => (snd (fst s), snd s))
    (nth_error (stroke_ends isColor (draw P dpr m t labels)) 2)
  = Some ((startX m, startY m),
          blend m (cosine_ease (JS.max 0 (JS.min 1 t)))).
Proof.
  rewrite <- nth_error_map, points_draw. reflexivity.
Qed.

Lemma cosine_ease_fin (x : R) :
  cosine_ease (JS.Fin x) = JS.Fin ((1 - cos (Rtrigo1.PI * x)) / 2).
Proof. unfold cosine_ease. cbn. f_equal. lra. Qed.

Lemma ease_0 : cosine_ease (JS.Fin 0) = JS.Fin 0.
Proof. rewrite cosine_ease_fin, Rmult_0_r, cos_0. f_equal. lra. Qed.

Lemma ease_1 : cosine_ease (JS.Fin 1) = JS.Fin 1.
Proof. rewrite cosine_ease_fin, Rmult_1_r, cos_PI. f_equal. lra. Qed.

Lemma ease_third : cosine_ease (JS.Fin (1 / 3)) = JS.Fin (1 / 4).
Proof.
  rewrite cosine_ease_fin.
  replace (Rtrigo1.PI * (1 / 3))%R with (Rtrigo1.PI / 3)%R by lra.
  rewrite cos_PI3. f_equal. lra.
Qed.

(** The eased value stays in [0, 1]. *)
Lemma ease_range (x : R) :
  exists e : R, cosine_ease (JS.Fin x) = JS.Fin e /\ 0 <= e <= 1.
Proof.
  rewrite cosine_ease_fin. eexists; split; [reflexivity |].
  pose proof (COS_bound (Rtrigo1.PI * x)). lra.
Qed.

(** The Model has no property [pValue]. *)
Lemma no_pValue (m : Model) : Model_get m "pValue" = None.
Proof. reflexivity. Qed.

(** Over a span with finite ends the handler shows the value 0: the base is
    0 at every pointer position. *)
Lemma hover_finite (m : Model) (a b x left : R) hover :
  startX m = JS.Fin a -> endX m = JS.Fin b ->
  onMouseMove (Some m) x left hover =
    let clampedX := Rmax a (Rmin b (x - left)) in
    let ratio := if Req_dec_T b a then 0%R else ((clampedX - a) / (b - a))%R in
    Some {| hover_x := JS.Fin clampedX;
            hover_y := startY m + (yFinal m - startY m) * JS.Fin ratio;
            hover_pct := JS.Fin 0 |}.
Proof.
  intros Ha Hb. unfold onMouseMove. rewrite no_pValue, Ha, Hb.
  cbn [JS.sub JS.add JS.neg JS.max JS.min JS.eqb].
  destruct (Req_dec_T b a) as [Heq | Hne]; cbn zeta.
  - unfold JS.zero. cbn [JS.mul JS.max JS.min]. do 2 f_equal.
    rewrite Rmult_0_l. f_equal. apply clamp_inside. lra.
  - rewrite div_fin by lra. unfold JS.zero. cbn [JS.mul JS.max JS.min].
    do 2 f_equal.
    rewrite Rmult_0_l. f_equal. apply clamp_inside. lra.
Qed.

End PaintFacts.

(** ** The event loop *)

Module LoopFacts.

Import Sparkline Spec JSFacts.
Local Open Scope num_scope.
Local Open Scope list_scope.

Section Loop.

Variable measureText : string -> R.

Local Abbreviation build := (buildModel measureText).

Lemma css_size (z : Z) :
  (1 <= z)%Z -> JS.max 1 (JS.floor (JS.Fin (IZR z))) = JS.Fin (IZR z).
Proof.
  intros Hz. cbn. rewrite ZfloorZ. f_equal.
  apply Rmax_right. now apply IZR_le.
Qed.

(** What one call of [renderOnce] leaves: a new Model cached, the canvas
    sized for it, one more callback in the queue. Nothing is cancelled. *)
Lemma renderOnce_model st (w h : Z) :
  rect st = (JS.Fin (IZR w), JS.Fin (IZR h)) -> (1 <= w)%Z -> (1 <= h)%Z ->
  let m := build (props st) (IZR w) (IZR h) in
  let st' := renderOnce measureText st in
  modelRef st' = Some m
  /\ canvas_css st' = Some (JS.Fin (IZR w), JS.Fin (IZR h))
  /\ rafRef st' = Some (next_handle st)
  /\ (exists cb, chain_model cb = m
        /\ frames st' = frames st ++ [(next_handle st, cb)])
  /\ props st' = props st /\ inView st' = inView st
  /\ paints st' = paints st.
Proof.
  intros Hr Hw Hh. unfold renderOnce, requestAnimationFrame.
  rewrite Hr. cbn [fst snd]. rewrite !css_size by assumption.
  cbn [modelRef canvas_css rafRef frames props inView paints next_handle].
  repeat split. eexists. split; [| reflexivity]. reflexivity.
Qed.

(** [step] paints the Model of its own chain, with the eased time fraction
    as progress, whatever is cached by then. *)
Lemma step_paints cb ts st :
  let raw :=
    JS.min 1 (JS.max 0 ((ts - chain_start cb) / duration (chain_model cb))) in
  paints (step cb ts st) =
    paints st ++
    [{| painted := chain_model cb; paint_progress := cosine_ease raw;
        paint_cached := modelRef st; paint_surface := canvas_css st;
        paint_cmds := draw (chain_props cb) (chain_dpr cb) (chain_model cb)
                        (cosine_ease raw) (xLabels (chain_props cb)) |}]
  /\ modelRef (step cb ts st) = modelRef st
  /\ canvas_css (step cb ts st) = canvas_css st.
Proof.
  unfold step.
  match goal with |- context [if ?b then _ else _] => destruct b end;
    repeat split.
Qed.

Lemma run_callbacks_first cbs ts st h cb :
  exists later,
    paints (run_callbacks ((h, cb) :: cbs) ts st) =
      paints (step cb ts st) ++ later.
Proof.
  cbn [run_callbacks]. generalize (step cb ts st). clear st.
  induction cbs as [| [h' cb'] cbs IH]; intros st; cbn [run_callbacks].
  - exists []. now rewrite app_nil_r.
  - destruct (IH (step cb' ts st)) as (later & ->).
    destruct (step_paints cb' ts st) as (-> & _).
    eexists. now rewrite <- app_assoc.
Qed.

(** A resize while a chain is pending leaves that chain in the queue: the
    next frame paints its Model, while the cached Model and the surface are
    those of the new size. *)
Lemma resize_then_frame st h1 cb1 (w' h' : Z) (t t' : JS.num) :
  frames st = [(h1, cb1)] -> (1 <= w')%Z -> (1 <= h')%Z ->
  let st2 := handle measureText st (Resized t (IZR w') (IZR h')) in
  let st3 := handle measureText st2 (Frame t') in
  exists p later,
    paints st3 = paints st ++ p :: later
    /\ painted p = chain_model cb1
    /\ paint_cached p = Some (build (props st) (IZR w') (IZR h'))
    /\ paint_surface p = Some (JS.Fin (IZR w'), JS.Fin (IZR h')).
Proof.
  intros Hf1 Hw' Hh' st2 st3.
  destruct (renderOnce_model (with_rect (with_now st t) (IZR w') (IZR h'))
              w' h' eq_refl Hw' Hh')
    as (Hm2 & Hc2 & _ & (cb2 & Hcb2 & Hf2) & _ & _ & Hpt2).
  change (renderOnce measureText (with_rect (with_now st t) (IZR w') (IZR h')))
    with st2 in Hm2, Hc2, Hf2, Hpt2.
  cbn [props frames paints next_handle with_rect with_now] in Hm2, Hf2, Hpt2.
  rewrite Hf1 in Hf2. cbn [app] in Hf2.
  subst st3. cbn [handle]. cbn [frames with_now]. rewrite Hf2.
  destruct (run_callbacks_first [(next_handle st, cb2)] t'
              (take_frames (with_now st2 t')) h1 cb1)
    as (later & ->).
  destruct (step_paints cb1 t' (take_frames (with_now st2 t')))
    as (-> & _).
  cbn [paints take_frames with_now modelRef canvas_css]. rewrite Hpt2.
  rewrite <- app_assoc. cbn [app].
  eexists _, _. split; [reflexivity |].
  cbn [painted paint_cached paint_surface]. now rewrite Hm2, Hc2.
Qed.

(** *** The render effect keeps a single chain *)

Lemma cleanup_clears st :
  single_chain st -> frames (cleanup st) = [] /\ paints (cleanup st) = paints st.
Proof.
  unfold cleanup. intros [Hnil | (h & cb & Hf & Hr & Hc & _)].
  - destruct (has_cleanup st); [| auto].
    destruct (rafRef st); cbn; rewrite ?Hnil; auto.
  - rewrite Hc, Hr. cbn. rewrite Hf. cbn. now rewrite Nat.eqb_refl.
Qed.

Lemma renderOnce_single st :
  frames st = [] ->
  single_chain (with_cleanup (renderOnce measureText st) true)
  /\ paints (with_cleanup (renderOnce measureText st) true) = paints st.
Proof.
  intros Hnil. split; [| reflexivity].
  right. unfold renderOnce, requestAnimationFrame. cbn. rewrite Hnil.
  eexists _, _. repeat split.
Qed.

Lemma render_effect_single st :
  frames st = [] ->
  single_chain (render_effect measureText st)
  /\ paints (render_effect measureText st) = paints st.
Proof.
  intros Hnil. unfold render_effect.
  destruct (negb (inView st) && negb document_undefined).
  - split; [now left | reflexivity].
  - now apply renderOnce_single.
Qed.

Lemma step_keeps cb ts st :
  frames st = [] -> has_cleanup st = true ->
  modelRef st = Some (chain_model cb) ->
  canvas_css st = Some (width (chain_model cb), height (chain_model cb)) ->
  Forall fresh (paints st) ->
  well_kept (step cb ts st).
Proof.
  intros Hnil Hcl Hm Hc Hp. unfold step.
  match goal with |- well_kept (if ?b then _ else _) => destruct b end.
  - split.
    + right. unfold requestAnimationFrame. cbn. rewrite Hnil.
      eexists _, _. repeat split; assumption.
    + cbn. apply Forall_app. split; [assumption |].
      constructor; [| constructor]. now split.
  - split.
    + now left.
    + cbn. apply Forall_app. split; [assumption |].
      constructor; [| constructor]. now split.
Qed.

Lemma handle_keeps st e :
  is_resize e = false -> well_kept st -> well_kept (handle measureText st e).
Proof.
  intros He [Hs Hp]. destruct e as [t | t w h | t P | t vis]; [| easy | |].
  - cbn [handle]. destruct Hs as [Hnil | (h & cb & Hf & Hr & Hcl & Hm & Hc)].
    + cbn [frames with_now]. rewrite Hnil. cbn. split; [now left | assumption].
    + cbn [frames with_now]. rewrite Hf. cbn [run_callbacks].
      now apply step_keeps.
  - cbn [handle].
    destruct (same_deps _ P); [now split |].
    assert (Hs' : single_chain (with_now st t)) by exact Hs.
    destruct (cleanup_clears _ Hs') as [Hc Hpc].
    destruct (render_effect_single (with_props (cleanup (with_now st t)) P) Hc)
      as [H1 H2].
    split; [assumption |]. rewrite H2. cbn [paints with_props]. now rewrite Hpc.
  - cbn [handle].
    destruct (Bool.eqb _ vis); [now split |].
    assert (Hs' : single_chain (with_now st t)) by exact Hs.
    destruct (cleanup_clears _ Hs') as [Hc Hpc].
    destruct (render_effect_single
                (with_inView
                   (with_props (cleanup (with_now st t))
                      (latest (with_now st t))) vis) Hc)
      as [H1 H2].
    split; [assumption |]. rewrite H2. cbn [paints with_inView with_props].
    now rewrite Hpc.
Qed.

Lemma mounted_well_kept P w h dpr t0 : well_kept (mounted P w h dpr t0).
Proof. split; [now left | constructor]. Qed.

(** Frames, re-renders and visibility changes alone never give a stale
    paint: on these paths the cleanup of the render effect cancels the
    chain before [renderOnce] schedules the next one. *)
Lemma no_resize_no_stale_paint P w h dpr t0 trace :
  forallb (fun e => negb (is_resize e)) trace = true ->
  Forall fresh (paints (run measureText (mounted P w h dpr t0) trace)).
Proof.
  generalize (mounted_well_kept P w h dpr t0).
  generalize (mounted P w h dpr t0).
  induction trace as [| e trace IH]; intros st Hst; cbn.
  - intros _. apply Hst.
  - intros [He Htr]%andb_prop. apply IH; [| assumption].
    apply handle_keeps; [| assumption]. now destruct (is_resize e).
Qed.

(** Becoming visible for the first time schedules one chain, for the Model
    of the present box. *)
Lemma first_visible P (w h : Z) dpr t0 t :
  (1 <= w)%Z -> (1 <= h)%Z ->
  let st := handle measureText (mounted P (IZR w) (IZR h) dpr t0)
              (Intersected t true) in
  exists cb,
    frames st = [(1%nat, cb)] /\ chain_model cb = build P (IZR w) (IZR h)
    /\ props st = P /\ paints st = [].
Proof.
  intros Hw Hh. cbn zeta.
  destruct (renderOnce_model
              (with_inView (cleanup (with_now (mounted P (IZR w) (IZR h) dpr t0) t))
                 true) w h eq_refl Hw Hh)
    as (_ & _ & _ & (cb & Hcb & Hf) & Hp & _ & Hpt).
  exists cb. repeat split; assumption.
Qed.

End Loop.

End LoopFacts.

(** * The claims *)

Import Sparkline Spec.
Local Open Scope num_scope.
Local Open Scope string_scope.

Section Claims.

Variable measureText : string -> R.
Variable isColor : string -> bool.

Local Abbreviation build := (buildModel measureText).

(** C1.  Hover projection as the handler computes it.  For every built
    Model (finite size) and every pointer position, the pointer is clamped
    into [startX, endX] and the ratio is
    (clamp(x, startX, endX) - startX) / (endX - startX), or 0 on an empty
    span; the value shown is 0 at every pointer position, also at and
    beyond endX, whatever the metric: the base is read from a property
    [pValue] that the Model does not have. *)
Theorem C1_hover_value_is_zero (P : Props) (w h clientX rectLeft : R)
  (hover : option Hover) :
  let m := build P w h in
  exists a b : R,
    startX m = JS.Fin a /\ endX m = JS.Fin b /\ a <= b
    /\ onMouseMove (Some m) clientX rectLeft hover =
       let clampedX := Rmax a (Rmin b (clientX - rectLeft)) in
       let ratio :=
         if Req_dec_T b a then 0%R else ((clampedX - a) / (b - a))%R in
       Some {| hover_x := JS.Fin clampedX;
               hover_y := startY m + (yFinal m - startY m) * JS.Fin ratio;
               hover_pct := JS.Fin 0 |}.
Proof.
  intros m.
  pose proof (BuilderFacts.startX_build measureText P w h) as Ha.
  pose proof (BuilderFacts.endX_finite measureText P w h) as Hb.
  eexists _, _. split; [exact Ha |]. split; [exact Hb |].
  split; [apply Rmax_l |].
  apply PaintFacts.hover_finite; assumption.
Qed.

(** C3 (amended).  For every Model and every progress argument t, the
    paint routine strokes the line from (startX, startY) to the blend
    (startX + (endX - startX) * prog, startY + (yFinal - startY) * prog)
    with prog = 0.5 * (1 - cos(pi * clamp(t, 0, 1))): it clamps its argument
    and applies the cosine ease to it once more, t being the already eased
    value that the animation step hands over. *)
Theorem C3_tip_is_eased_blend (P : Props) (dpr : JS.num) (m : Model)
  (t : JS.num) (labels : option (string * string))
  (cb : Chain) (ts : JS.num) (st : State) :
  (let prog :=
     JS.Fin (5 / 10) * (1 - JS.cos (JS.PI * JS.max 0 (JS.min 1 t))) in
   option_map (fun s => (snd (fst s), snd s))
     (nth_error (stroke_ends isColor (draw P dpr m t labels)) 2)
   = Some ((startX m, startY m),
           (startX m + (endX m - startX m) * prog,
            startY m + (yFinal m - startY m) * prog)))
  /\ (let raw :=
        JS.min 1 (JS.max 0 ((ts - chain_start cb) / duration (chain_model cb))) in
      let eased := JS.Fin (5 / 10) * (1 - JS.cos (JS.PI * raw)) in
      map paint_cmds (paints (step cb ts st))
      = (map paint_cmds (paints st)
         ++ [draw (chain_props cb) (chain_dpr cb) (chain_model cb)
               eased (xLabels (chain_props cb))])%list).
Proof.
  split.
  - cbn zeta. rewrite PaintFacts.tip_point. reflexivity.
  - cbn zeta. destruct (LoopFacts.step_paints cb ts st) as (-> & _).
    now rewrite map_app.
Qed.

(** C4 (amended).  The overrides lineWidth and glowRadius take precedence
    over the compact-derived default exactly when a number is supplied,
    finite or not (NaN and the infinities are stored as they are); the
    areaAlpha override likewise, passed through
    [Math.max(0, Math.min(1, a))]; an absent override gives the default.
    Only durationMs tests finiteness and falls back to its default 980. *)
Theorem C4_overrides_when_number (P : Props) (cssW cssH : JS.num) :
  let m := build P cssW cssH in
  lineWidth m =
    match lineWidthOverride P with
    | Some x => x
    | None => lineWidth_default P
    end
  /\ glowRadius m =
    match glowRadiusOverride P with
    | Some x => x
    | None => glowRadius_default P
    end
  /\ alpha (areaStartColor m) =
    match areaAlphaOverride P with
    | Some (JS.Fin a) => JS.Fin (Rmax 0 (Rmin 1 a))
    | Some JS.NaN => JS.NaN
    | Some JS.PInf => JS.Fin 1
    | Some JS.NInf => JS.Fin 0
    | None => areaAlpha_default P
    end
  /\ duration m =
    match durationMs P with
    | Some (JS.Fin d) => JS.max 200 (JS.min 4000 (JS.floor (JS.Fin d)))
    | Some JS.NaN | Some JS.PInf | Some JS.NInf | None => JS.Fin 980
    end.
Proof.
  unfold buildModel, lineWidth_default, glowRadius_default, areaAlpha_default.
  cbn [lineWidth glowRadius areaStartColor alpha duration].
  repeat split.
  - destruct (lineWidthOverride P); [reflexivity |]. now destruct (is_compact P).
  - destruct (glowRadiusOverride P); [reflexivity |]. now destruct (is_compact P).
  - destruct (areaAlphaOverride P) as [[| | | a] |]; try reflexivity.
    + cbn. f_equal. apply Rmax_right. lra.
    + now destruct (is_compact P).
  - now destruct (durationMs P) as [[| | | d] |].
Qed.

(** C5 (amended).  For every input colour string the r, g, b components
    are parsed by the rgba pattern match, and when the match fails the fixed
    triplet (16,185,129) is used.  The glow colour is the red variant
    exactly when the string matches the red signature 239,68,68, whether or
    not the string parses, and the green variant otherwise; so an
    unparseable colour string gets the green glow exactly when it does not
    match the red signature.  (What the match parses is the first text of
    the rgba shape in the string, each component the Number value of its
    digits; there is no match exactly when no part of the string has that
    shape.) *)
Theorem C5_color_handling (P : Props) (cssW cssH : JS.num) :
  let m := build P cssW cssH in
  let c :=
    match color P with Some s => s | None => "rgba(16,185,129,0.8)" end in
  triplet (areaStartColor m)
  = match Regex.exec rgba_pattern c with
    | Some caps =>
        (parsed_group 1 caps, parsed_group 2 caps, parsed_group 3 caps)
    | None => (JS.Fin 16, JS.Fin 185, JS.Fin 129)
    end
  /\ match Regex.exec rgba_pattern c with
     | Some caps =>
         exists d1 d2 d3,
           first_rgba c d1 d2 d3
           /\ triplet (areaStartColor m)
              = (ParseInt.to_number (decimal d1),
                 ParseInt.to_number (decimal d2),
                 ParseInt.to_number (decimal d3))
     | None => forall d1 d2 d3, ~ rgba_shaped c d1 d2 d3
     end
  /\ triplet (areaEndColor m) = triplet (areaStartColor m)
  /\ (tipGlowColor m = "rgba(239,68,68,0.9)" <-> contains_red_signature c)
  /\ (tipGlowColor m = "rgba(16,185,129,0.9)" <-> ~ contains_red_signature c).
Proof.
  intros m c.
  assert (Ht : triplet (areaStartColor m)
               = match Regex.exec rgba_pattern c with
                 | Some caps =>
                     (parsed_group 1 caps, parsed_group 2 caps,
                      parsed_group 3 caps)
                 | None => (JS.Fin 16, JS.Fin 185, JS.Fin 129)
                 end).
  { subst m. unfold buildModel, triplet, color_of.
    cbn [areaStartColor red green blue]. fold c.
    now destruct (Regex.exec rgba_pattern c). }
  split; [exact Ht |]. split; [| split; [reflexivity |]].
  - pose proof (PatternFacts.rgba_exec_spec c) as Hspec. rewrite Ht.
    destruct (Regex.exec rgba_pattern c) as [caps |]; [| exact Hspec].
    destruct Hspec as (d1 & d2 & d3 & Hfirst & -> & -> & -> & _).
    now exists d1, d2, d3.
  - pose proof (PatternFacts.test_red_signature c) as Hred.
    subst m. unfold buildModel, color_of. cbn [tipGlowColor]. fold c.
    destruct (Regex.test red_signature c);
      intuition (try discriminate; try congruence).
Qed.

(** C6.  Vertical mapping.  For every metric input (a number, NaN, an
    infinity, or absent) and every size, the builder takes 100 for an absent
    or non-finite input, clamps to [0, 1000], and sets
    yFinal = padTop + (1 - clamp(p,0,1000)/1000) * drawableHeight with
    drawableHeight = max(1, height - padTop - padBottom), where height is
    the height handed to the builder and padTop and padBottom are 6 and 14 in
    compact mode, 10 and 18 otherwise; for a finite height this is a finite
    number. *)
Theorem C6_vertical_mapping (P : Props) (cssW cssH : JS.num) (h : R) :
  let p : R :=
    match percent P with
    | Some (JS.Fin r) => r
    | Some JS.NaN | Some JS.PInf | Some JS.NInf | None => 100
    end in
  let clamped := Rmax 0 (Rmin 1000 p) in
  let dense := match compact P with Some b => b | None => false end in
  let pT : R := if dense then 6 else 10 in
  let pB : R := if dense then 14 else 18 in
  0 <= clamped <= 1000
  /\ height (build P cssW cssH) = cssH
  /\ padTop (build P cssW cssH) = JS.Fin pT
  /\ padBottom (build P cssW cssH) = JS.Fin pB
  /\ yFinal (build P cssW cssH)
     = JS.Fin pT
       + JS.Fin (1 - clamped / 1000)
         * JS.max 1 (cssH - JS.Fin pT - JS.Fin pB)
  /\ yFinal (build P cssW (JS.Fin h))
     = JS.Fin (pT + (1 - clamped / 1000) * Rmax 1 (h - pT - pB)).
Proof.
  intros p clamped dense pT pB.
  assert (Hp : metric_or_default (percent P) = p)
    by (subst p; now destruct (percent P) as [[| | | r] |]).
  assert (HT : padTop_of P = pT)
    by (unfold padTop_of, is_compact; subst pT dense;
        now destruct (compact P) as [[|] |]).
  assert (HB : padBottom_of P = pB)
    by (unfold padBottom_of, is_compact; subst pB dense;
        now destruct (compact P) as [[|] |]).
  split; [apply JSFacts.clamp_bounds; lra |].
  split; [reflexivity |].
  split; [now rewrite BuilderFacts.padTop_build, HT |].
  split; [now rewrite BuilderFacts.padBottom_build, HB |].
  split.
  - rewrite BuilderFacts.yFinal_build, Hp, HT, HB. reflexivity.
  - rewrite BuilderFacts.yFinal_finite, Hp, HT, HB. reflexivity.
Qed.

(** C7 (amended).  Duration invariant.  Whatever the override (finite,
    non-finite or absent), the stored duration is a finite number in
    [200, 4000]; a finite override is floored and then clamped into that
    range (50 gives 200, 10000 gives 4000, 1500 gives 1500, and 1500.5
    gives 1500 as well); an absent or non-finite override gives 980. *)
Theorem C7_duration_invariant (P : Props) (cssW cssH : JS.num) :
  (exists d : R, duration (build P cssW cssH) = JS.Fin d /\ 200 <= d <= 4000)
  /\ duration (build P cssW cssH) =
       match durationMs P with
       | Some (JS.Fin x) => JS.Fin (Rmax 200 (Rmin 4000 (IZR (Zfloor x))))
       | Some JS.NaN | Some JS.PInf | Some JS.NInf | None => JS.Fin 980
       end
  /\ duration (build (with_duration P (Some (JS.Fin 50))) cssW cssH) = JS.Fin 200
  /\ duration (build (with_duration P (Some (JS.Fin 10000))) cssW cssH) = JS.Fin 4000
  /\ duration (build (with_duration P (Some (JS.Fin 1500))) cssW cssH) = JS.Fin 1500
  /\ duration (build (with_duration P (Some (JS.Fin (3001 / 2)))) cssW cssH)
     = JS.Fin 1500.
Proof.
  assert (Hwhole : forall z : Z,
             JS.Fin (Rmax 200 (Rmin 4000 (IZR (Zfloor (IZR z)))))
             = JS.Fin (Rmax 200 (Rmin 4000 (IZR z)))).
  { intros z. now rewrite ZfloorZ. }
  repeat split.
  - rewrite BuilderFacts.duration_build.
    destruct (durationMs P) as [[| | | d] |];
      try (exists 980; split; [reflexivity | lra]).
    eexists; split; [reflexivity |]. apply JSFacts.clamp_bounds; lra.
  - rewrite BuilderFacts.duration_build.
    now destruct (durationMs P) as [[| | | d] |].
  - rewrite BuilderFacts.duration_build; cbn [durationMs with_duration].
    rewrite (Hwhole 50%Z). f_equal. apply JSFacts.clamp_below; lra.
  - rewrite BuilderFacts.duration_build; cbn [durationMs with_duration].
    rewrite (Hwhole 10000%Z). f_equal. apply JSFacts.clamp_above; lra.
  - rewrite BuilderFacts.duration_build; cbn [durationMs with_duration].
    rewrite (Hwhole 1500%Z). f_equal. apply JSFacts.clamp_inside; lra.
  - rewrite BuilderFacts.duration_build; cbn [durationMs with_duration].
    replace (Zfloor (3001 / 2)) with 1500%Z
      by (symmetry; apply Zfloor_eq; lra).
    f_equal. apply JSFacts.clamp_inside; lra.
Qed.

(** C8.  Monotonicity.  With size and style fixed, yFinal does not increase
    when the clamped metric grows: for p1 < p2 in [0, 1000] the Model of p2
    has a yFinal at most that of p1; and p = 100 gives a strictly larger
    yFinal than p = 900. *)
Theorem C8_yFinal_monotone (P : Props) (cssW : JS.num) (h p1 p2 : R) :
  0 <= p1 -> p1 < p2 -> p2 <= 1000 ->
  JS.leb (yFinal (build (with_percent P (Some (JS.Fin p2))) cssW (JS.Fin h)))
         (yFinal (build (with_percent P (Some (JS.Fin p1))) cssW (JS.Fin h)))
  = true
  /\ JS.ltb (yFinal (build (with_percent P (Some (JS.Fin 900))) cssW (JS.Fin h)))
            (yFinal (build (with_percent P (Some (JS.Fin 100))) cssW (JS.Fin h)))
     = true.
Proof.
  intros H0 Hlt H1000. split.
  - apply BuilderFacts.yFinal_antitone. lra.
  - apply BuilderFacts.yFinal_strict; lra.
Qed.

(** C9 (amended).  Width-only frame property.  With metric, labels, style
    flags and height fixed, and endX not floored at startX at either width,
    the Models built for the widths 300 and 600 have the same startX,
    startY, yFinal and label, and endX is the width less padX less the
    right gutter at both, with one padX and one gutter: endX is larger at
    600.  (The two differ by the added 300 on exact numbers; the two
    binary64 subtractions of the program round.) *)
Theorem C9_width_only (P : Props) (h : R) :
  let m300 := build P 300 h in
  let m600 := build P 600 h in
  let dense := match compact P with Some b => b | None => false end in
  let pX : R := if dense then 8 else 10 in
  let a : R := (pX + ((if dense then 16 else 20) + 8))%R in
  let g : R :=
    Rmax (if dense then 30 else 36) (measureText (label m300) + 18)%R in
  (a <= 300 - pX - g)%R -> (a <= 600 - pX - g)%R ->
  label m600 = label m300
  /\ startX m300 = JS.Fin a /\ startX m600 = JS.Fin a
  /\ (exists y0 y1 : R,
        startY m300 = JS.Fin y0 /\ startY m600 = JS.Fin y0
        /\ yFinal m300 = JS.Fin y1 /\ yFinal m600 = JS.Fin y1)
  /\ endX m300 = JS.Fin (300 - pX - g)
  /\ endX m600 = JS.Fin (600 - pX - g)
  /\ JS.ltb (endX m300) (endX m600) = true.
Proof.
  intros m300 m600 dense pX a g H3 H6.
  assert (HX : padX_of P = pX)
    by (unfold padX_of, is_compact; subst pX dense;
        now destruct (compact P) as [[|] |]).
  assert (HA : (padX_of P + leftAxis_of P)%R = a).
  { rewrite HX. unfold leftAxis_of, is_compact. subst a dense.
    now destruct (compact P) as [[|] |]. }
  assert (HG : Rmax (gutterBase_of P)
                 (measureText (label (build P 0 0)) + 18) = g).
  { subst g m300. rewrite (BuilderFacts.label_build measureText P 0 0 300 h).
    unfold gutterBase_of, is_compact. subst dense.
    now destruct (compact P) as [[|] |]. }
  assert (E3 : endX m300 = JS.Fin (300 - pX - g)).
  { subst m300. rewrite BuilderFacts.endX_finite, HA, HX, HG.
    f_equal. apply Rmax_right. exact H3. }
  assert (E6 : endX m600 = JS.Fin (600 - pX - g)).
  { subst m600. rewrite BuilderFacts.endX_finite, HA, HX, HG.
    f_equal. apply Rmax_right. exact H6. }
  split; [apply BuilderFacts.label_build |].
  split; [subst m300; now rewrite BuilderFacts.startX_build, HA |].
  split; [subst m600; now rewrite BuilderFacts.startX_build, HA |].
  split.
  { eexists _, _.
    split; [apply BuilderFacts.startY_build |].
    split; [apply BuilderFacts.startY_build |].
    split; apply BuilderFacts.yFinal_finite. }
  split; [exact E3 |]. split; [exact E6 |].
  rewrite E3, E6. apply JSFacts.ltb_fin. lra.
Qed.

(** C10 (amended).  For every input colour string, parseable or not, the
    strokeColor of the Model is that string as it came in (the default
    'rgba(16,185,129,0.8)' when the prop is absent); the painted line has it
    as stroke style whenever the 2D context takes it for a colour, and
    otherwise keeps the style set before it, rgba(148,163,184,0.12), the
    context ignoring the assignment; the fallback triplet (16,185,129) goes
    only into the two area-gradient colours. *)
Theorem C10_stroke_verbatim (P : Props) (cssW cssH dpr t : JS.num)
  (labels : option (string * string)) :
  takes_fixed_styles isColor ->
  let m := build P cssW cssH in
  let c :=
    match color P with Some s => s | None => "rgba(16,185,129,0.8)" end in
  strokeColor m = c
  /\ nth_error (stroke_ends isColor (draw P dpr m t labels)) 2
     = Some (if isColor c then c else "rgba(148,163,184,0.12)",
             (startX m, startY m),
             blend m (cosine_ease (JS.max 0 (JS.min 1 t))))
  /\ triplet (areaStartColor m)
     = match Regex.exec rgba_pattern c with
       | Some caps =>
           (parsed_group 1 caps, parsed_group 2 caps, parsed_group 3 caps)
       | None => (JS.Fin 16, JS.Fin 185, JS.Fin 129)
       end
  /\ triplet (areaEndColor m) = triplet (areaStartColor m).
Proof.
  intros Hfixed m c.
  assert (Hc : strokeColor m = c) by reflexivity.
  split; [exact Hc |].
  split; [rewrite PaintFacts.strokes_draw by exact Hfixed; now rewrite Hc |].
  split; [| reflexivity].
  subst m. unfold buildModel, triplet, color_of.
  cbn [areaStartColor red green blue]. fold c.
  now destruct (Regex.exec rgba_pattern c).
Qed.

End Claims.

(** * Closed instances *)

(** The default props at 7 pixels a character: the label is "+100%", 35
    pixels wide, the gutter 53, so the span runs from 38 to the width less
    63. *)
Lemma default_span (w : R) (h : JS.num) :
  let m := buildModel seven_px no_props w h in
  startX m = JS.Fin 38 /\ padX m = JS.Fin 10
  /\ rightGutter_of no_props m = JS.Fin 53
  /\ endX m = JS.Fin (Rmax 38 (w - 63)).
Proof.
  assert (Hg : Rmax 36 (seven_px "+100%" + 18) = 53).
  { unfold seven_px. cbn [String.length INR]. rewrite Rmax_right by lra. lra. }
  cbn zeta. split; [| split; [| split]].
  - rewrite BuilderFacts.startX_build.
    unfold padX_of, leftAxis_of. cbn [is_compact no_props compact].
    f_equal. lra.
  - rewrite BuilderFacts.padX_build. reflexivity.
  - unfold rightGutter_of. rewrite BuilderFacts.labelWidth_build.
    rewrite BuilderFacts.label_absent by reflexivity.
    unfold gutterBase_of. cbn [is_compact no_props compact JS.add JS.max].
    f_equal. exact Hg.
  - rewrite BuilderFacts.endX_finite.
    rewrite BuilderFacts.label_absent by reflexivity.
    unfold gutterBase_of, padX_of, leftAxis_of. cbn [is_compact no_props compact].
    rewrite Hg. f_equal. f_equal; lra.
Qed.

(** C2.  A stale paint.  After the instance became visible at 300 x 150, a
    resize to 600 x 150 and one animation frame, the first paint of that
    frame draws the Model built for 300 x 150 while the cached Model and the
    surface are those of 600 x 150: [renderOnce], called by the resize
    observer, schedules a new chain without cancelling the pending one. *)
Theorem C2_stale_paint_after_resize :
  let st := run seven_px (mounted no_props 300 150 1 0) resize_trace in
  exists p later,
    paints st = p :: later
    /\ painted p = buildModel seven_px no_props 300 150
    /\ paint_cached p = Some (buildModel seven_px no_props 600 150)
    /\ paint_surface p = Some (JS.Fin 600, JS.Fin 150)
    /\ ~ fresh p.
Proof.
  destruct (LoopFacts.first_visible seven_px no_props 300 150 1 0 0
              ltac:(lia) ltac:(lia)) as (cb1 & Hf1 & Hcb1 & Hprops & Hpaints).
  destruct (LoopFacts.resize_then_frame seven_px _ 1%nat cb1 600 150 100 116
              Hf1 ltac:(lia) ltac:(lia))
    as (p & later & Hp & Hpainted & Hcached & Hsurface).
  rewrite Hpaints, Hprops in *. rewrite Hcb1 in Hpainted.
  exists p, later. repeat split; try assumption.
  intros [Hstale _]. rewrite Hcached, Hpainted in Hstale.
  apply (f_equal (option_map width)) in Hstale. cbn in Hstale.
  injection Hstale. lra.
Qed.

(** The failing input of C1: metric 250 on 300 x 150, pointer at x = 400,
    beyond endX = 237.  The tooltip reads "0%". *)
Lemma hover_beyond_endX_shows_zero :
  let m := buildModel seven_px (with_percent no_props (Some (JS.Fin 250))) 300 150 in
  exists hv,
    onMouseMove (Some m) 400 0 None = Some hv
    /\ hover_pct hv = JS.Fin 0
    /\ tooltip hv = "0%".
Proof.
  cbn zeta.
  rewrite (PaintFacts.hover_finite _ _ _ 400 0 None
             (BuilderFacts.startX_build seven_px _ 300 150)
             (BuilderFacts.endX_finite seven_px _ 300 150)).
  eexists. split; [reflexivity |]. split; [reflexivity |].
  unfold tooltip. cbn [hover_pct].
  rewrite (JSFacts.round_whole 0). cbn [string_of_integral].
  now rewrite (ZfloorZ 0).
Qed.

(** C3, counterexample to the blend at t itself: at t = 1/3 the tip is
    drawn at the eased weight 0.5 * (1 - cos(pi / 3)), about 1/4, which is
    another point than the blend at 1/3. *)
Lemma C3_tip_not_linear_in_progress :
  let m := buildModel seven_px no_props 300 150 in
  let tip := blend m (cosine_ease (JS.Fin (1 / 3))) in
  option_map snd
    (nth_error
       (stroke_ends rgb_function (draw no_props 1 m (JS.Fin (1 / 3)) None)) 2)
  = Some tip
  /\ tip <> blend m (JS.Fin (1 / 3)).
Proof.
  cbn zeta. split.
  - pose proof (PaintFacts.tip_point rgb_function no_props 1
                  (buildModel seven_px no_props 300 150) (JS.Fin (1 / 3)) None)
      as H.
    destruct (nth_error _ 2) as [[[sty from] to] |]; [| discriminate].
    cbn in H. injection H as _ ->. cbn [option_map snd JS.max JS.min].
    now rewrite JSFacts.clamp_inside by lra.
  - rewrite PaintFacts.ease_third. unfold blend.
    rewrite (BuilderFacts.startY_build seven_px no_props 300 150).
    rewrite (BuilderFacts.yFinal_finite seven_px no_props 300 150).
    unfold padTop_of, padBottom_of, metric_or_default.
    cbn [is_compact no_props compact percent].
    rewrite (JSFacts.clamp_inside 0 1000 100) by lra.
    rewrite (Rmax_right 1 (150 - 10 - 18)) by lra.
    cbn [JS.add JS.sub JS.neg JS.mul].
    intros H. injection H as _ Hy. lra.
Qed.

(** C4, counterexample to the finiteness rule: a NaN lineWidth override is
    stored, where that rule would have kept the default 1.4. *)
Lemma C4_nan_override_is_kept :
  let P := with_lineWidth no_props (Some JS.NaN) in
  let m := buildModel seven_px P 300 150 in
  lineWidth m = JS.NaN
  /\ finite_or (lineWidthOverride P) (lineWidth_default P) = JS.Fin (14 / 10)
  /\ lineWidth m <> finite_or (lineWidthOverride P) (lineWidth_default P).
Proof.
  cbn. repeat split. discriminate.
Qed.

(** C5, counterexample to a green glow for every unparseable string: the
    colour string "239,68,68" does not parse, so the triplet is the fallback
    (16,185,129), and yet the glow is the red variant. *)
Lemma C5_unparseable_red :
  let P := with_color no_props (Some "239,68,68") in
  let m := buildModel seven_px P 300 150 in
  color P = Some "239,68,68"
  /\ Regex.exec rgba_pattern "239,68,68" = None
  /\ triplet (areaStartColor m) = (JS.Fin 16, JS.Fin 185, JS.Fin 129)
  /\ tipGlowColor m = "rgba(239,68,68,0.9)"
  /\ tipGlowColor m <> "rgba(16,185,129,0.9)".
Proof.
  cbn zeta.
  assert (He : Regex.exec rgba_pattern
                 (color_of (with_color no_props (Some "239,68,68"))) = None)
    by (vm_compute; reflexivity).
  assert (Ht : Regex.test red_signature
                 (color_of (with_color no_props (Some "239,68,68"))) = true)
    by (vm_compute; reflexivity).
  split; [reflexivity |]. split; [exact He |].
  unfold buildModel, triplet.
  cbn [areaStartColor red green blue tipGlowColor].
  rewrite He, Ht. repeat split. discriminate.
Qed.

(** C7, counterexample to the clamp of the override itself: the override
    1500.5 lies in the range, and the duration stored is 1500. *)
Lemma C7_fraction_is_floored :
  let P := with_duration no_props (Some (JS.Fin (3001 / 2))) in
  let m := buildModel seven_px P 300 150 in
  durationMs P = Some (JS.Fin (3001 / 2))
  /\ Rmax 200 (Rmin 4000 (3001 / 2)) = (3001 / 2)%R
  /\ duration m = JS.Fin 1500
  /\ duration m <> JS.Fin (Rmax 200 (Rmin 4000 (3001 / 2))).
Proof.
  cbn zeta.
  assert (Hc : Rmax 200 (Rmin 4000 (3001 / 2)) = (3001 / 2)%R)
    by (apply JSFacts.clamp_inside; lra).
  assert (Hd : duration
                 (buildModel seven_px
                    (with_duration no_props (Some (JS.Fin (3001 / 2))))
                    300 150) = JS.Fin 1500).
  { rewrite BuilderFacts.duration_build. cbn [durationMs with_duration].
    replace (Zfloor (3001 / 2)) with 1500%Z
      by (symmetry; apply Zfloor_eq; lra).
    f_equal. apply JSFacts.clamp_inside; lra. }
  split; [reflexivity |]. split; [exact Hc |]. split; [exact Hd |].
  rewrite Hd, Hc. intros [= H]. lra.
Qed.

(** C8 at the default props, 300 x 150, metrics 100 and 900. *)
Lemma C8_witness :
  0 <= 100 /\ 100 < 900 /\ 900 <= 1000
  /\ JS.leb
       (yFinal (buildModel seven_px (with_percent no_props (Some (JS.Fin 900)))
                  300 (JS.Fin 150)))
       (yFinal (buildModel seven_px (with_percent no_props (Some (JS.Fin 100)))
                  300 (JS.Fin 150)))
     = true
  /\ JS.ltb
       (yFinal (buildModel seven_px (with_percent no_props (Some (JS.Fin 900)))
                  300 (JS.Fin 150)))
       (yFinal (buildModel seven_px (with_percent no_props (Some (JS.Fin 100)))
                  300 (JS.Fin 150)))
     = true.
Proof.
  assert (H0 : 0 <= 100) by lra.
  assert (H1 : 100 < 900) by lra.
  assert (H2 : 900 <= 1000) by lra.
  split; [exact H0 |]. split; [exact H1 |]. split; [exact H2 |].
  exact (C8_yFinal_monotone seven_px no_props 300 150 100 900 H0 H1 H2).
Defined.

(** C9 at the default props and height 150, 7 pixels a character: the
    label is "+100%", the gutter 53; startX is 38 at both widths, startY
    131, yFinal 119.8, and endX goes from 237 to 537. *)
Lemma C9_witness :
  let m300 := buildModel seven_px no_props 300 150 in
  let m600 := buildModel seven_px no_props 600 150 in
  let dense := match compact no_props with Some b => b | None => false end in
  let pX : R := if dense then 8 else 10 in
  let a : R := (pX + ((if dense then 16 else 20) + 8))%R in
  let g : R :=
    Rmax (if dense then 30 else 36) (seven_px (label m300) + 18)%R in
  ((a <= 300 - pX - g)%R /\ (a <= 600 - pX - g)%R)
  /\ (label m600 = label m300
      /\ startX m300 = JS.Fin a /\ startX m600 = JS.Fin a
      /\ (exists y0 y1 : R,
            startY m300 = JS.Fin y0 /\ startY m600 = JS.Fin y0
            /\ yFinal m300 = JS.Fin y1 /\ yFinal m600 = JS.Fin y1)
      /\ endX m300 = JS.Fin (300 - pX - g)
      /\ endX m600 = JS.Fin (600 - pX - g)
      /\ JS.ltb (endX m300) (endX m600) = true)
  /\ (a = 38%R /\ g = 53%R
      /\ endX m300 = JS.Fin 237 /\ endX m600 = JS.Fin 537
      /\ startY m300 = JS.Fin 131 /\ yFinal m300 = JS.Fin (599 / 5)).
Proof.
  cbn zeta. cbn [compact no_props].
  assert (Hg : Rmax 36
                 (seven_px (label (buildModel seven_px no_props 300 150)) + 18)
               = 53%R).
  { rewrite (BuilderFacts.label_absent seven_px no_props 300 150 eq_refl).
    unfold seven_px. cbn [String.length INR]. rewrite Rmax_right by lra. lra. }
  assert (H3 : (10 + (20 + 8)
                <= 300 - 10
                   - Rmax 36
                       (seven_px (label (buildModel seven_px no_props 300 150))
                        + 18))%R) by (rewrite Hg; lra).
  assert (H6 : (10 + (20 + 8)
                <= 600 - 10
                   - Rmax 36
                       (seven_px (label (buildModel seven_px no_props 300 150))
                        + 18))%R) by (rewrite Hg; lra).
  split; [split; [exact H3 | exact H6] |].
  split; [exact (C9_width_only seven_px no_props 150 H3 H6) |].
  destruct (default_span 300 150) as (_ & _ & _ & E3).
  destruct (default_span 600 150) as (_ & _ & _ & E6).
  rewrite Hg. split; [lra |]. split; [reflexivity |].
  split; [rewrite E3; f_equal; rewrite Rmax_right by lra; lra |].
  split; [rewrite E6; f_equal; rewrite Rmax_right by lra; lra |].
  split.
  - rewrite (BuilderFacts.startY_build seven_px no_props 300 150).
    unfold padBottom_of. cbn [is_compact no_props compact]. f_equal. lra.
  - rewrite (BuilderFacts.yFinal_finite seven_px no_props 300 150).
    unfold padTop_of, padBottom_of, metric_or_default.
    cbn [is_compact no_props compact percent].
    rewrite (JSFacts.clamp_inside 0 1000 100) by lra.
    rewrite (Rmax_right 1 (150 - 10 - 18)) by lra. f_equal. lra.
Defined.

(** The two fixed styles are colours for the sample parser, and the string
    "239,68,68" is none. *)
Lemma fixed_styles_are_colours :
  takes_fixed_styles rgb_function /\ rgb_function "239,68,68" = false.
Proof. repeat split; vm_compute; reflexivity. Qed.

(** C10 at the default props, with the sample parser. *)
Lemma C10_witness :
  takes_fixed_styles rgb_function
  /\ (let m := buildModel seven_px no_props 300 150 in
      let c :=
        match color no_props with
        | Some s => s
        | None => "rgba(16,185,129,0.8)"
        end in
      strokeColor m = c
      /\ nth_error (stroke_ends rgb_function (draw no_props 1 m 1 None)) 2
         = Some (if rgb_function c then c else "rgba(148,163,184,0.12)",
                 (startX m, startY m),
                 blend m (cosine_ease (JS.max 0 (JS.min 1 1))))
      /\ triplet (areaStartColor m)
         = match Regex.exec rgba_pattern c with
           | Some caps =>
               (parsed_group 1 caps, parsed_group 2 caps, parsed_group 3 caps)
           | None => (JS.Fin 16, JS.Fin 185, JS.Fin 129)
           end
      /\ triplet (areaEndColor m) = triplet (areaStartColor m)).
Proof.
  split; [exact (proj1 fixed_styles_are_colours) |].
  exact (C10_stroke_verbatim seven_px rgb_function no_props 300 150 1 1 None
           (proj1 fixed_styles_are_colours)).
Defined.

(** C10, counterexample to the input as the stroke style of the painted
    line for every string: "239,68,68" is stored as strokeColor, the context
    does not take it for a colour, and the line is stroked in the style of
    the level line before it. *)
Lemma C10_non_colour_is_not_stroked :
  let P := with_color no_props (Some "239,68,68") in
  let m := buildModel seven_px P 300 150 in
  color P = Some "239,68,68"
  /\ strokeColor m = "239,68,68"
  /\ rgb_function "239,68,68" = false
  /\ option_map (fun s => fst (fst s))
       (nth_error (stroke_ends rgb_function (draw P 1 m 1 None)) 2)
     = Some "rgba(148,163,184,0.12)"
  /\ "rgba(148,163,184,0.12)" <> strokeColor m.
Proof.
  cbn zeta. destruct fixed_styles_are_colours as [Hfixed Hno].
  split; [reflexivity |]. split; [reflexivity |]. split; [exact Hno |].
  split; [| discriminate].
  rewrite PaintFacts.strokes_draw by exact Hfixed.
  cbn [nth_error option_map fst].
  change (strokeColor _) with "239,68,68". now rewrite Hno.
Qed.

Section Rounding.

Import PrimFloat.
Local Open Scope float_scope.

(** C9, counterexample to an increase by exactly 300: with a label
    30.083333333333332 pixels wide (not compact) the span is not floored at
    either width, endX is 241.91666666666669 at the width 300 and
    541.9166666666666 at 600, and 241.91666666666669 + 300 is
    541.9166666666667. *)
Lemma C9_shift_is_rounded :
  let labelWidth := 0x1.e155555555555p+4 in
  ltb (Binary64.startX false) (Binary64.endX false labelWidth 300) = true
  /\ ltb (Binary64.startX false) (Binary64.endX false labelWidth 600) = true
  /\ Binary64.endX false labelWidth 300 = 0x1.e3d5555555556p+7
  /\ Binary64.endX false labelWidth 600 = 0x1.0ef5555555555p+9
  /\ Binary64.endX false labelWidth 300 + 300 = 0x1.0ef5555555556p+9
  /\ eqb (Binary64.endX false labelWidth 600)
       (Binary64.endX false labelWidth 300 + 300) = false.
Proof. vm_compute. repeat split. Qed.

End Rounding.

(** * Further properties of the canvas *)

Module CanvasFacts.

Import Sparkline Spec SpecCanvas JSFacts.
Local Open Scope num_scope.
Local Open Scope list_scope.

Lemma ease_R_range (x : R) : 0 <= ease_R x <= 1.
Proof. unfold ease_R. pose proof (COS_bound (Rtrigo1.PI * x)). lra. Qed.

Lemma ease_R_mono (x y : R) : 0 <= x -> x <= y -> y <= 1 -> ease_R x <= ease_R y.
Proof.
  intros H0 Hxy H1. unfold ease_R.
  pose proof PI_RGT_0 as Hpi.
  assert (cos (Rtrigo1.PI * y) <= cos (Rtrigo1.PI * x)); [| lra].
  apply cos_decr_1; nra.
Qed.

Lemma cosine_ease_R (x : R) : cosine_ease (JS.Fin x) = JS.Fin (ease_R x).
Proof. apply PaintFacts.cosine_ease_fin. Qed.

Lemma raw_of_range s t d : 0 <= raw_of s t d <= 1.
Proof.
  unfold raw_of. generalize ((t - s) / d)%R. intros a.
  unfold Rmax. destruct (Rle_dec 0 a); unfold Rmin; destruct (Rle_dec 1 _); lra.
Qed.

Lemma raw_of_mono s t1 t2 d : 0 < d -> t1 <= t2 -> raw_of s t1 d <= raw_of s t2 d.
Proof.
  intros Hd Ht. unfold raw_of.
  assert ((t1 - s) / d <= (t2 - s) / d)%R.
  { unfold Rdiv. apply Rmult_le_compat_r; [| lra].
    left. now apply Rinv_0_lt_compat. }
  revert H. generalize ((t1 - s) / d)%R ((t2 - s) / d)%R. intros a b Hab.
  unfold Rmax. destruct (Rle_dec 0 a); destruct (Rle_dec 0 b);
    unfold Rmin;
    repeat match goal with |- context [Rle_dec 1 ?x] => destruct (Rle_dec 1 x) end;
    lra.
Qed.

(** The raw fraction of [step] on finite times and a positive duration. *)
Lemma step_raw (s t d : R) :
  0 < d ->
  JS.min 1 (JS.max 0 ((JS.Fin t - JS.Fin s) / JS.Fin d)) = JS.Fin (raw_of s t d).
Proof.
  intros Hd. cbn [JS.sub JS.add JS.neg]. rewrite div_fin by lra. reflexivity.
Qed.

Lemma tip_draw isColor P dpr m t labels :
  tip_of isColor (draw P dpr m t labels)
  = Some (blend m (cosine_ease (JS.max 0 (JS.min 1 t)))).
Proof.
  unfold tip_of.
  pose proof (PaintFacts.tip_point isColor P dpr m t labels) as H.
  destruct (nth_error _ 2) as [[[st from] to] |]; [| discriminate].
  cbn in *. congruence.
Qed.

Section Built.

Variable measureText : string -> R.
Local Abbreviation build := (buildModel measureText).

Lemma duration_range P w h :
  exists d : R, duration (build P w h) = JS.Fin d /\ 200 <= d <= 4000.
Proof.
  rewrite BuilderFacts.duration_build.
  destruct (durationMs P) as [[| | | d] |];
    try (exists 980; split; [reflexivity | lra]).
  eexists; split; [reflexivity |]. apply clamp_bounds; lra.
Qed.

(** The four corner numbers of a Model built for a finite size. *)
Lemma corners P (w h : R) :
  exists a b y0 y1 : R,
    startX (build P w h) = JS.Fin a /\ endX (build P w h) = JS.Fin b
    /\ startY (build P w h) = JS.Fin y0 /\ yFinal (build P w h) = JS.Fin y1
    /\ a <= b /\ a = (if is_compact P then 32 else 38)%R.
Proof.
  eexists _, _, _, _.
  split; [apply BuilderFacts.startX_build |].
  split; [apply BuilderFacts.endX_finite |].
  split; [apply BuilderFacts.startY_build |].
  split; [apply BuilderFacts.yFinal_finite |].
  split; [apply Rmax_l |].
  unfold padX_of, leftAxis_of. destruct (is_compact P); lra.
Qed.

Lemma blend_fin (m : Model) (a b y0 y1 x : R) :
  startX m = JS.Fin a -> endX m = JS.Fin b ->
  startY m = JS.Fin y0 -> yFinal m = JS.Fin y1 ->
  blend m (JS.Fin x)
  = (JS.Fin (a + (b - a) * x), JS.Fin (y0 + (y1 - y0) * x)).
Proof. intros Ha Hb H0 H1. unfold blend. now rewrite Ha, Hb, H0, H1. Qed.

(** What [step] does to a chain with finite times: one paint at the eased
    fraction, and one more frame exactly while the fraction is below 1 and
    the chain was started visible. *)
Lemma step_finite (m : Model) (s t d : R) dpr P vis st :
  duration m = JS.Fin d -> 0 < d ->
  let cb := chain_of m s dpr P vis in
  let st' := step cb t st in
  paints st' =
    paints st ++
    [{| painted := m; paint_progress := JS.Fin (ease_R (raw_of s t d));
        paint_cached := modelRef st; paint_surface := canvas_css st;
        paint_cmds := draw P dpr m (JS.Fin (ease_R (raw_of s t d))) (xLabels P) |}]
  /\ frames st' =
     frames st ++
     (if Rlt_dec (raw_of s t d) 1
      then if vis then [(next_handle st, cb)] else []
      else []).
Proof.
  intros Hd Hpos cb st'. subst st'. unfold step.
  cbn [chain_model chain_start chain_dpr chain_props chain_inView cb chain_of].
  rewrite Hd, step_raw by assumption. rewrite cosine_ease_R.
  unfold JS.ltb. unfold document_undefined. rewrite orb_false_r.
  destruct (Rlt_dec (raw_of s t d) 1); cbn [andb].
  - destruct vis; cbn [paints frames requestAnimationFrame].
    + split; reflexivity.
    + split; [reflexivity | now rewrite app_nil_r].
  - cbn [paints frames]. split; [reflexivity | now rewrite app_nil_r].
Qed.

End Built.

End CanvasFacts.

Import SpecCanvas.

Section CanvasExtras.

Variable measureText : string -> R.
Variable isColor : string -> bool.
Local Abbreviation build := (buildModel measureText).

(** X2.  The hover point: the handler leaves the hover state alone while
    no Model is cached; otherwise hover x is the pointer clamped into
    [startX, endX], so the pointer itself inside the span; a pointer at or
    left of startX gives the start point (startX, startY), and on a
    non-empty span a pointer at or right of endX gives hover x = endX and
    the ratio 1, that is hover y = startY + (yFinal - startY) * 1. *)
Theorem X2_hover_point_on_line (P : Props) (w h clientX rectLeft : R)
  (hover : option Hover) :
  let m := build P w h in
  let moved := onMouseMove (Some m) clientX rectLeft hover in
  onMouseMove None clientX rectLeft hover = hover
  /\ exists a b y0 y1 : R,
       startX m = JS.Fin a /\ endX m = JS.Fin b
       /\ startY m = JS.Fin y0 /\ yFinal m = JS.Fin y1 /\ a <= b
       /\ option_map hover_x moved
          = Some (JS.Fin (Rmax a (Rmin b (clientX - rectLeft))))
       /\ ((a <= clientX - rectLeft <= b)%R ->
           option_map hover_x moved = Some (JS.Fin (clientX - rectLeft)))
       /\ ((clientX - rectLeft <= a)%R ->
           option_map (fun hv => (hover_x hv, hover_y hv)) moved
           = Some (JS.Fin a, JS.Fin y0))
       /\ ((a < b)%R -> (b <= clientX - rectLeft)%R ->
           option_map (fun hv => (hover_x hv, hover_y hv)) moved
           = Some (JS.Fin b, startY m + (yFinal m - startY m) * JS.Fin 1)).
Proof.
  intros m moved. split; [reflexivity |].
  destruct (CanvasFacts.corners measureText P w h)
    as (a & b & y0 & y1 & Ha & Hb & H0 & H1 & Hab & _).
  fold m in Ha, Hb, H0, H1.
  exists a, b, y0, y1. subst moved.
  rewrite (PaintFacts.hover_finite m a b clientX rectLeft hover Ha Hb).
  cbn zeta. cbn [option_map hover_x hover_y].
  split; [exact Ha |]. split; [exact Hb |].
  split; [exact H0 |]. split; [exact H1 |]. split; [exact Hab |].
  split; [reflexivity |].
  split; [intros Hin; now rewrite JSFacts.clamp_inside by exact Hin |].
  split.
  - intros Hx. rewrite JSFacts.clamp_below by lra.
    destruct (Req_dec_T b a) as [Heq | Hne].
    + rewrite H0, H1. cbn [JS.add JS.sub JS.neg JS.mul].
      do 3 f_equal. lra.
    + replace ((a - a) / (b - a))%R with 0%R by (field; lra).
      rewrite H0, H1. cbn [JS.add JS.sub JS.neg JS.mul].
      do 3 f_equal. lra.
  - intros Hlt Hx. rewrite JSFacts.clamp_above by lra.
    destruct (Req_dec_T b a) as [Heq | Hne]; [lra |].
    replace ((b - a) / (b - a))%R with 1%R by (field; lra). reflexivity.
Qed.

(** X3.  A frame that comes no later than the chain's start time paints
    progress 0: the line is drawn from the start point to the start point
    itself, and the next frame is requested exactly when the chain was
    started visible. *)
Theorem X3_first_frame_at_zero (P : Props) (w h s t : R) (dpr : JS.num)
  (vis : bool) (st : State) :
  t <= s ->
  let m := build P w h in
  let cb := chain_of m s dpr P vis in
  exists p,
    last_paint (step cb t st) = Some p
    /\ painted p = m /\ paint_progress p = JS.Fin 0
    /\ tip_of isColor (paint_cmds p) = Some (startX m, startY m)
    /\ frames (step cb t st)
       = (frames st ++ if vis then [(next_handle st, cb)] else [])%list.
Proof.
  intros Hts m cb.
  destruct (CanvasFacts.duration_range measureText P w h) as (d & Hd & Hdr).
  destruct (CanvasFacts.corners measureText P w h)
    as (a & b & y0 & y1 & Ha & Hb & H0 & H1 & _).
  fold m in Hd, Ha, Hb, H0, H1.
  destruct (CanvasFacts.step_finite m s t d dpr P vis st Hd ltac:(lra))
    as [Hp Hf].
  fold cb in Hp, Hf.
  assert (Hraw : raw_of s t d = 0%R).
  { unfold raw_of.
    assert ((t - s) / d <= 0)%R.
    { unfold Rdiv. assert (0 < / d)%R by (apply Rinv_0_lt_compat; lra). nra. }
    rewrite Rmax_left by assumption. apply Rmin_right. lra. }
  rewrite Hraw in Hp, Hf.
  assert (He : ease_R 0 = 0%R).
  { unfold ease_R. rewrite Rmult_0_r, cos_0. lra. }
  rewrite He in Hp.
  eexists. unfold last_paint. rewrite Hp, rev_app_distr. cbn [rev app nth_error].
  split; [reflexivity |]. cbn [painted paint_progress paint_cmds].
  split; [reflexivity |]. split; [reflexivity |].
  split.
  - rewrite CanvasFacts.tip_draw. cbn [JS.max JS.min].
    rewrite JSFacts.clamp_inside by lra. rewrite PaintFacts.ease_0.
    rewrite (CanvasFacts.blend_fin m a b y0 y1 0 Ha Hb H0 H1), Ha, H0.
    do 2 f_equal; f_equal; lra.
  - rewrite Hf. destruct (Rlt_dec 0 1); [reflexivity | lra].
Qed.

(** X4.  A frame that comes a duration or more after the start of the
    chain completes it: it paints progress 1, the tip at the blend of
    weight 1, (startX + (endX - startX) * 1, startY + (yFinal - startY) * 1),
    and requests no further frame, visible or not. *)
Theorem X4_last_frame_reaches_target (P : Props) (w h s t : R) (dpr : JS.num)
  (vis : bool) (st : State) :
  let m := build P w h in
  let cb := chain_of m s dpr P vis in
  JS.leb (duration m) (JS.Fin t - JS.Fin s) = true ->
  exists p,
    last_paint (step cb t st) = Some p
    /\ painted p = m /\ paint_progress p = JS.Fin 1
    /\ tip_of isColor (paint_cmds p)
       = Some (startX m + (endX m - startX m) * JS.Fin 1,
               startY m + (yFinal m - startY m) * JS.Fin 1)
    /\ frames (step cb t st) = frames st.
Proof.
  intros m cb.
  destruct (CanvasFacts.duration_range measureText P w h) as (d & Hd & Hdr).
  fold m in Hd.
  rewrite Hd. cbn [JS.sub JS.add JS.neg]. intros Hle%JSFacts.leb_fin.
  destruct (CanvasFacts.step_finite m s t d dpr P vis st Hd ltac:(lra))
    as [Hp Hf].
  fold cb in Hp, Hf.
  assert (Hraw : raw_of s t d = 1%R).
  { unfold raw_of.
    assert (1 <= (t - s) / d)%R.
    { apply (Rmult_le_reg_r d); [lra |]. field_simplify; lra. }
    rewrite Rmax_right by lra. apply Rmin_left. lra. }
  rewrite Hraw in Hp, Hf.
  assert (He : ease_R 1 = 1%R).
  { unfold ease_R. rewrite Rmult_1_r, cos_PI. lra. }
  rewrite He in Hp.
  eexists. unfold last_paint. rewrite Hp, rev_app_distr. cbn [rev app nth_error].
  split; [reflexivity |]. cbn [painted paint_progress paint_cmds].
  split; [reflexivity |]. split; [reflexivity |].
  split.
  - rewrite CanvasFacts.tip_draw. cbn [JS.max JS.min].
    rewrite JSFacts.clamp_inside by lra. rewrite PaintFacts.ease_1.
    reflexivity.
  - rewrite Hf. destruct (Rlt_dec 1 1); [lra | apply app_nil_r].
Qed.

(** X5.  The animation never runs backward: for two frames of one chain
    at times t1 <= t2, the weights at which the tip is blended satisfy
    0 <= w1 <= w2 <= 1. *)
Theorem X5_progress_is_monotone (P : Props) (w h s t1 t2 : R) (dpr : JS.num)
  (vis : bool) (st1 st2 : State) :
  t1 <= t2 ->
  let m := build P w h in
  let cb := chain_of m s dpr P vis in
  exists p1 p2 (w1 w2 : R),
    last_paint (step cb t1 st1) = Some p1
    /\ last_paint (step cb t2 st2) = Some p2
    /\ tip_of isColor (paint_cmds p1) = Some (blend m (JS.Fin w1))
    /\ tip_of isColor (paint_cmds p2) = Some (blend m (JS.Fin w2))
    /\ 0 <= w1 /\ w1 <= w2 /\ w2 <= 1.
Proof.
  intros Ht m cb.
  destruct (CanvasFacts.duration_range measureText P w h) as (d & Hd & Hdr).
  fold m in Hd.
  destruct (CanvasFacts.step_finite m s t1 d dpr P vis st1 Hd ltac:(lra))
    as [Hp1 _].
  destruct (CanvasFacts.step_finite m s t2 d dpr P vis st2 Hd ltac:(lra))
    as [Hp2 _].
  fold cb in Hp1, Hp2.
  pose proof (CanvasFacts.raw_of_range s t1 d) as Hr1.
  pose proof (CanvasFacts.raw_of_range s t2 d) as Hr2.
  pose proof (CanvasFacts.raw_of_mono s t1 t2 d ltac:(lra) Ht) as Hmono.
  pose proof (CanvasFacts.ease_R_range (raw_of s t1 d)) as He1.
  pose proof (CanvasFacts.ease_R_range (raw_of s t2 d)) as He2.
  eexists _, _, (ease_R (ease_R (raw_of s t1 d))),
    (ease_R (ease_R (raw_of s t2 d))).
  unfold last_paint. rewrite Hp1, Hp2, !rev_app_distr.
  cbn [rev app nth_error].
  split; [reflexivity |]. split; [reflexivity |]. cbn [paint_cmds].
  rewrite !CanvasFacts.tip_draw. cbn [JS.max JS.min].
  rewrite !JSFacts.clamp_inside by assumption.
  rewrite !CanvasFacts.cosine_ease_R.
  split; [reflexivity |]. split; [reflexivity |].
  split; [apply CanvasFacts.ease_R_range |].
  split; [| apply CanvasFacts.ease_R_range].
  apply CanvasFacts.ease_R_mono; try lra.
  apply CanvasFacts.ease_R_mono; lra.
Qed.

(** X6.  Whatever finite progress is handed to the paint routine, for
    whatever Model, the tip is drawn at a blend weight between 0 and 1: the
    weight is 0 for a progress of 0 or less and 1 for a progress of 1 or
    more. *)
Theorem X6_tip_weight_in_unit_range (P : Props) (m : Model) (t : R)
  (dpr : JS.num) (labels : option (string * string)) :
  exists wt : R,
    tip_of isColor (draw P dpr m (JS.Fin t) labels)
    = Some (blend m (JS.Fin wt))
    /\ 0 <= wt <= 1
    /\ (t <= 0 -> wt = 0%R) /\ (1 <= t -> wt = 1%R).
Proof.
  rewrite CanvasFacts.tip_draw. cbn [JS.max JS.min].
  rewrite CanvasFacts.cosine_ease_R.
  eexists. split; [reflexivity |].
  split; [apply CanvasFacts.ease_R_range |].
  split.
  - intros Ht. rewrite JSFacts.clamp_below by lra.
    unfold ease_R. rewrite Rmult_0_r, cos_0. lra.
  - intros Ht. rewrite JSFacts.clamp_above by lra.
    unfold ease_R. rewrite Rmult_1_r, cos_PI. lra.
Qed.

End CanvasExtras.

Module LoopMore.

Import Sparkline Spec SpecCanvas JSFacts.
Local Open Scope num_scope.
Local Open Scope list_scope.

Lemma same_num_refl (x : JS.num) : same_num x x = true.
Proof. destruct x as [| | | r]; try reflexivity. now apply eqb_fin. Qed.

Lemma same_deps_tuning (P : Props) aria d lw g a :
  same_deps P (with_tuning P aria d lw g a) = true.
Proof.
  unfold same_deps, with_tuning, color_of. cbn.
  rewrite String.eqb_refl.
  destruct (percent P) as [x |]; cbn; rewrite ?same_num_refl;
    destruct (xLabels P) as [[l0 l1] |]; cbn; rewrite ?String.eqb_refl;
    destruct (compact P) as [[|] |]; reflexivity.
Qed.

Section Loop.

Variable measureText : string -> R.
Local Abbreviation build := (buildModel measureText).

Lemma render_effect_quiet st :
  frames st = [] ->
  (inView (render_effect measureText st) = false ->
   frames (render_effect measureText st) = [])
  /\ rect (render_effect measureText st) = rect st
  /\ inView (render_effect measureText st) = inView st.
Proof.
  intros Hnil. unfold render_effect, document_undefined.
  destruct (inView st) eqn:Hv; cbn [negb andb].
  - split; [| split; reflexivity || exact Hv].
    cbn. rewrite Hv. discriminate.
  - split; [| split; reflexivity || exact Hv].
    intros _. exact Hnil.
Qed.

Lemma step_side cb ts st :
  inView (step cb ts st) = inView st /\ rect (step cb ts st) = rect st.
Proof.
  unfold step.
  match goal with |- context [if ?b then _ else _] => destruct b end;
    split; reflexivity.
Qed.

Lemma cleanup_side st :
  inView (cleanup st) = inView st /\ rect (cleanup st) = rect st.
Proof.
  unfold cleanup. destruct (has_cleanup st); [| now split].
  destruct (rafRef st); now split.
Qed.

Lemma handle_quiet box st e :
  is_resize e = false -> quiet box st -> quiet box (handle measureText st e).
Proof.
  intros He (Hk & Hv & Hr).
  split; [now apply LoopFacts.handle_keeps |].
  destruct Hk as [Hs Hp].
  destruct e as [t | t w h | t P | t vis]; [| easy | |]; cbn [handle].
  - destruct Hs as [Hnil | (h & cb & Hf & _)].
    + cbn [frames with_now]. rewrite Hnil. cbn [run_callbacks].
      split; [| exact Hr]. cbn. intros _. reflexivity.
    + cbn [frames with_now]. rewrite Hf. cbn [run_callbacks].
      destruct (step_side cb t (take_frames (with_now st t))) as [Hsv Hsr].
      rewrite Hsv, Hsr. cbn [inView rect take_frames with_now].
      split; [| exact Hr].
      intros Hfalse. specialize (Hv Hfalse). congruence.
  - destruct (same_deps _ P); [split; assumption |].
    assert (Hs' : single_chain (with_now st t)) by exact Hs.
    destruct (LoopFacts.cleanup_clears _ Hs') as [Hc _].
    destruct (cleanup_side (with_now st t)) as [_ Hcr].
    destruct (render_effect_quiet (with_props (cleanup (with_now st t)) P) Hc)
      as (H1 & H2 & _).
    split; [exact H1 |]. rewrite H2. cbn [rect with_props]. now rewrite Hcr.
  - destruct (Bool.eqb _ vis); [split; assumption |].
    assert (Hs' : single_chain (with_now st t)) by exact Hs.
    destruct (LoopFacts.cleanup_clears _ Hs') as [Hc _].
    destruct (cleanup_side (with_now st t)) as [_ Hcr].
    destruct (render_effect_quiet
                (with_inView
                   (with_props (cleanup (with_now st t))
                      (latest (with_now st t))) vis) Hc)
      as (H1 & H2 & _).
    split; [exact H1 |]. rewrite H2. cbn [rect with_inView with_props].
    now rewrite Hcr.
Qed.

Lemma run_quiet box st trace :
  forallb (fun e => negb (is_resize e)) trace = true ->
  quiet box st -> quiet box (run measureText st trace).
Proof.
  revert st. induction trace as [| e trace IH]; intros st; cbn.
  - auto.
  - intros [He Htr]%andb_prop Hq. apply IH; [assumption |].
    apply handle_quiet; [| assumption]. now destruct (is_resize e).
Qed.

Lemma mounted_quiet P w h dpr t0 : quiet (w, h) (mounted P w h dpr t0).
Proof.
  split; [apply LoopFacts.mounted_well_kept |]. split; reflexivity.
Qed.

Lemma run_app st tr1 tr2 :
  run measureText st (tr1 ++ tr2)
  = run measureText (run measureText st tr1) tr2.
Proof. unfold run. apply fold_left_app. Qed.

(** The pixel ratio [renderOnce] works with. *)
Lemma dpr_one_or_two (x : JS.num) :
  exists k : Z,
    JS.min 2 (JS.max 1 (JS.floor (or_one x))) = JS.Fin (IZR k)
    /\ (k = 1 \/ k = 2)%Z
    /\ (k = 2%Z <->
        x = JS.PInf \/ exists r, x = JS.Fin r /\ 2 <= r).
Proof.
  destruct x as [| | | r].
  - exists 1%Z. unfold or_one. cbn.
    rewrite (ZfloorZ 1), Rmax_left, Rmin_right by lra.
    split; [reflexivity |]. split; [now left |].
    split; [lia | intros [H | (r & H & _)]; discriminate].
  - exists 2%Z. unfold or_one. cbn.
    split; [reflexivity |]. split; [now right |]. split; auto.
  - exists 1%Z. unfold or_one. cbn. rewrite Rmin_right by lra.
    split; [reflexivity |]. split; [now left |].
    split; [lia | intros [H | (r & H & _)]; discriminate].
  - unfold or_one. cbn [JS.isNaN orb JS.eqb].
    destruct (Req_dec_T r 0) as [-> | Hr].
    + exists 1%Z. cbn. rewrite (ZfloorZ 1), Rmax_left, Rmin_right by lra.
      split; [reflexivity |]. split; [now left |].
      split; [lia |]. intros [H | (r & [= <-] & Hr)]; [discriminate | lra].
    + cbn [JS.floor JS.max JS.min].
      pose proof (Zfloor_bound r) as [Hlo Hhi].
      destruct (Z_lt_le_dec (Zfloor r) 2) as [Hlt | Hge].
      * exists 1%Z.
        assert (IZR (Zfloor r) <= 1) by (apply IZR_le; lia).
        rewrite Rmax_left, Rmin_right by lra.
        split; [reflexivity |]. split; [now left |].
        split; [lia |]. intros [H0 | (r' & [= <-] & Hr')]; [discriminate |].
        assert (2 <= Zfloor r)%Z by (apply Zfloor_lub; exact Hr'). lia.
      * exists 2%Z.
        assert (2 <= IZR (Zfloor r)) by (apply IZR_le; lia).
        rewrite Rmax_right, Rmin_left by lra.
        split; [reflexivity |]. split; [now right |].
        split; [| reflexivity]. intros _. right. exists r. split; [reflexivity | lra].
Qed.

(** The CSS size [renderOnce] takes from a finite box side. *)
Lemma css_side (r : R) :
  JS.max 1 (JS.floor (JS.Fin r)) = JS.Fin (IZR (Z.max 1 (Zfloor r)))
  /\ (1 <= Z.max 1 (Zfloor r))%Z.
Proof.
  split; [| lia]. cbn. f_equal.
  destruct (Z_le_gt_dec 1 (Zfloor r)) as [Hle | Hgt].
  - rewrite Z.max_r by lia. apply Rmax_right. apply IZR_le. lia.
  - rewrite Z.max_l by lia. apply Rmax_left. apply IZR_le. lia.
Qed.

(** The chain that one [renderOnce] appends. *)
Lemma renderOnce_chain st (w h : Z) :
  rect st = (JS.Fin (IZR w), JS.Fin (IZR h)) -> (1 <= w)%Z -> (1 <= h)%Z ->
  exists dpr,
    frames (renderOnce measureText st)
    = frames st ++
      [(next_handle st,
        chain_of (build (props st) (IZR w) (IZR h)) (now st) dpr (props st)
          (inView st))]
    /\ paints (renderOnce measureText st) = paints st
    /\ modelRef (renderOnce measureText st)
       = Some (build (props st) (IZR w) (IZR h))
    /\ canvas_css (renderOnce measureText st)
       = Some (JS.Fin (IZR w), JS.Fin (IZR h)).
Proof.
  intros Hr Hw Hh. unfold renderOnce, requestAnimationFrame.
  rewrite Hr. cbn [fst snd]. rewrite !LoopFacts.css_size by assumption.
  cbn [modelRef canvas_css rafRef frames props inView paints next_handle now].
  eexists. repeat split.
Qed.

(** Becoming visible again: the render effect builds from the props of the
    last render, and the first frame paints that Model at progress 0. *)
Lemma reentry (isColor : string -> bool) (st : State) (rw rh t1 t2 : R) :
  inView st = false -> frames st = [] ->
  rect st = (JS.Fin rw, JS.Fin rh) -> t2 <= t1 ->
  let st2 := run measureText st [Intersected t1 true; Frame t2] in
  let m := build (latest st) (IZR (Z.max 1 (Zfloor rw)))
             (IZR (Z.max 1 (Zfloor rh))) in
  exists p,
    paints st2 = (paints st ++ [p])%list
    /\ painted p = m /\ paint_cached p = Some m
    /\ paint_surface p = Some (width m, height m)
    /\ paint_progress p = JS.Fin 0
    /\ tip_of isColor (paint_cmds p) = Some (startX m, startY m)
    /\ List.length (frames st2) = 1%nat.
Proof.
  intros Hv Hnil Hr Ht st2 m.
  destruct (CanvasFacts.duration_range measureText (latest st)
              (IZR (Z.max 1 (Zfloor rw))) (IZR (Z.max 1 (Zfloor rh))))
    as (d & Hd & Hdr).
  destruct (CanvasFacts.corners measureText (latest st)
              (IZR (Z.max 1 (Zfloor rw))) (IZR (Z.max 1 (Zfloor rh))))
    as (a & b & y0 & y1 & Ha & Hb & H0 & H1 & _).
  fold m in Hd, Ha, Hb, H0, H1.
  set (c0 := cleanup (with_now st t1)).
  assert (Hc : frames c0 = []).
  { subst c0. unfold cleanup.
    destruct (has_cleanup (with_now st t1)); [| exact Hnil].
    destruct (rafRef (with_now st t1)); [| exact Hnil].
    cbn [cancelAnimationFrame frames with_now]. now rewrite Hnil. }
  destruct (cleanup_side (with_now st t1)) as [_ Hcr].
  fold c0 in Hcr.
  assert (Hcp : latest c0 = latest st /\ paints c0 = paints st
                /\ now c0 = JS.Fin t1).
  { subst c0. unfold cleanup.
    destruct (has_cleanup (with_now st t1)); [| now repeat split].
    destruct (rafRef (with_now st t1)); now repeat split. }
  destruct Hcp as (Hcprops & Hcpaints & Hcnow).
  set (s1 := handle measureText st (Intersected t1 true)).
  assert (Hs1 : exists dpr,
             frames s1 = [(next_handle c0, chain_of m t1 dpr (latest st) true)]
             /\ paints s1 = paints st /\ modelRef s1 = Some m
             /\ canvas_css s1 = Some (width m, height m)).
  { subst s1. cbn [handle]. cbn [inView latest with_now]. rewrite Hv.
    cbn [Bool.eqb].
    unfold render_effect, document_undefined.
    cbn [inView with_inView with_props negb andb].
    fold c0. unfold renderOnce, requestAnimationFrame.
    cbn [rect with_inView with_props props latest inView now frames
         next_handle paints modelRef canvas_css with_cleanup devicePixelRatio
         rafRef has_cleanup canvas_bitmap].
    rewrite Hcr. cbn [rect with_now]. rewrite Hr. cbn [fst snd].
    rewrite !(proj1 (css_side _)), Hc, Hcnow, Hcpaints.
    fold m. eexists. split; [reflexivity |]. split; [reflexivity |].
    split; [reflexivity |].
    reflexivity. }
  destruct Hs1 as (dpr & Hf1 & Hp1 & Hm1 & Hcss1).
  subst st2.
  change (run measureText st [Intersected t1 true; Frame t2])
    with (handle measureText s1 (Frame t2)).
  cbn [handle]. cbn [frames with_now]. rewrite Hf1. cbn [run_callbacks].
  destruct (CanvasFacts.step_finite m t1 t2 d dpr (latest st) true
              (take_frames (with_now s1 t2)) Hd ltac:(lra)) as [Hp Hf].
  cbn zeta in Hp, Hf.
  cbn [paints frames modelRef canvas_css take_frames with_now] in Hp, Hf.
  rewrite Hp1, Hm1, Hcss1 in Hp.
  assert (Hraw : raw_of t1 t2 d = 0%R).
  { unfold raw_of.
    assert ((t2 - t1) / d <= 0)%R.
    { unfold Rdiv. assert (0 < / d)%R by (apply Rinv_0_lt_compat; lra). nra. }
    rewrite Rmax_left by assumption. apply Rmin_right. lra. }
  rewrite Hraw in Hp, Hf.
  assert (He : ease_R 0 = 0%R).
  { unfold ease_R. rewrite Rmult_0_r, cos_0. lra. }
  rewrite He in Hp.
  eexists. rewrite Hp, Hf.
  split; [reflexivity |].
  cbn [painted paint_cached paint_surface paint_progress paint_cmds].
  split; [reflexivity |]. split; [reflexivity |]. split; [reflexivity |].
  split; [reflexivity |]. split.
  - rewrite CanvasFacts.tip_draw. cbn [JS.max JS.min].
    rewrite JSFacts.clamp_inside by lra. rewrite PaintFacts.ease_0.
    rewrite (CanvasFacts.blend_fin m a b y0 y1 0 Ha Hb H0 H1), Ha, H0.
    do 2 f_equal; f_equal; lra.
  - destruct (Rlt_dec 0 1); [reflexivity | lra].
Qed.


End Loop.

End LoopMore.

Section LoopExtras.

Variable measureText : string -> R.
Variable isColor : string -> bool.
Local Abbreviation build := (buildModel measureText).

(** X7.  Without resize notifications the render effect keeps one chain:
    after any sequence of frames, re-renders and visibility changes, at
    most one animation-frame callback is pending, and every paint so far
    drew the Model that was cached at that moment, built for the surface
    size of that moment. *)
Theorem X7_single_fresh_chain (P : Props) (w h dpr t0 : JS.num)
  (trace : list Event) :
  forallb (fun e => negb (is_resize e)) trace = true ->
  let st := run measureText (mounted P w h dpr t0) trace in
  (List.length (frames st) <= 1)%nat /\ Forall fresh (paints st).
Proof.
  intros Htr st.
  destruct (LoopMore.run_quiet measureText (w, h) _ trace Htr
              (LoopMore.mounted_quiet P w h dpr t0)) as ((Hs & Hp) & _).
  fold st in Hs, Hp. split; [| exact Hp].
  destruct Hs as [-> | (n & cb & -> & _)]; cbn; lia.
Qed.

(** X8.  Losing visibility suspends the animation and keeps the picture:
    after a notification that the wrapper is not visible (following any
    resize-free history) no callback is pending, and a later animation
    frame paints nothing and schedules nothing. *)
Theorem X8_visibility_loss_suspends (P : Props) (w h dpr t0 t t' : JS.num)
  (trace : list Event) :
  forallb (fun e => negb (is_resize e)) trace = true ->
  let st := run measureText (mounted P w h dpr t0)
              (trace ++ [Intersected t false]) in
  inView st = false /\ frames st = []
  /\ paints (handle measureText st (Frame t')) = paints st
  /\ frames (handle measureText st (Frame t')) = [].
Proof.
  intros Htr st.
  assert (Hq : quiet (w, h) st).
  { apply LoopMore.run_quiet; [| apply LoopMore.mounted_quiet].
    rewrite forallb_app, Htr. reflexivity. }
  assert (Hv : inView st = false).
  { subst st. rewrite LoopMore.run_app.
    set (s0 := run measureText _ trace).
    cbn [run fold_left handle].
    destruct (inView (with_now s0 t)) eqn:Hv0; cbn [Bool.eqb].
    - unfold render_effect, document_undefined. cbn. reflexivity.
    - exact Hv0. }
  destruct Hq as (_ & Hnil & _). specialize (Hnil Hv).
  repeat split; try assumption.
  - cbn [handle]. cbn [frames with_now]. rewrite Hnil. reflexivity.
  - cbn [handle]. cbn [frames with_now]. rewrite Hnil. reflexivity.
Qed.

(** X9.  A re-render that changes only durationMs, lineWidth, glowRadius,
    areaAlpha or ariaLabel rebuilds nothing: these are no dependencies of
    [renderOnce], so the cached Model, the pending callbacks and the paints
    stay as they were, and a later resize still builds from the props of
    the earlier render. *)
Theorem X9_tuning_change_rebuilds_nothing (st : State)
  (aria : option string) (d lw g a : option JS.num) (t t' rw rh : JS.num) :
  let st' := handle measureText st
               (Rendered t (with_tuning (props st) aria d lw g a)) in
  modelRef st' = modelRef st /\ frames st' = frames st
  /\ paints st' = paints st /\ props st' = props st
  /\ modelRef (handle measureText st' (Resized t' rw rh))
     = modelRef (handle measureText st (Resized t' rw rh)).
Proof.
  cbn zeta. cbn [handle]. cbn [props with_now].
  rewrite LoopMore.same_deps_tuning. repeat split.
Qed.

(** X10.  [renderOnce] tolerates every box and pixel ratio: for a finite
    box (zero or negative sides too) the CSS size is max(1, floor(side)) on
    both axes, the Model is built and cached for exactly that size, the
    pixel ratio used is 1 or 2 (2 exactly for a ratio of at least 2), and
    the bitmap is the CSS size times that ratio. *)
Theorem X10_render_sizes (st : State) (rw rh : R) :
  let st' := renderOnce measureText (with_rect st rw rh) in
  let W := Z.max 1 (Zfloor rw) in
  let H := Z.max 1 (Zfloor rh) in
  exists k : Z,
    (k = 1 \/ k = 2)%Z
    /\ (k = 2%Z <->
        devicePixelRatio st = JS.PInf
        \/ exists r, devicePixelRatio st = JS.Fin r /\ 2 <= r)
    /\ canvas_css st' = Some (JS.Fin (IZR W), JS.Fin (IZR H))
    /\ canvas_bitmap st' = (JS.Fin (IZR (W * k)), JS.Fin (IZR (H * k)))
    /\ modelRef st' = Some (build (props st) (IZR W) (IZR H))
    /\ option_map (fun m => (width m, height m)) (modelRef st')
       = Some (JS.Fin (IZR W), JS.Fin (IZR H)).
Proof.
  cbn zeta.
  destruct (LoopMore.dpr_one_or_two (devicePixelRatio st)) as (k & Hk & Hk12 & Hk2).
  destruct (LoopMore.css_side rw) as [HW HW1].
  destruct (LoopMore.css_side rh) as [HH HH1].
  exists k. split; [exact Hk12 |]. split; [exact Hk2 |].
  unfold renderOnce, requestAnimationFrame.
  cbn [rect with_rect fst snd devicePixelRatio props
       canvas_css canvas_bitmap modelRef].
  rewrite Hk, HW, HH. cbn [JS.mul JS.floor JS.max option_map width height].
  rewrite <- !mult_IZR, !ZfloorZ.
  rewrite !Rmax_right by (apply IZR_le; nia).
  repeat split.
Qed.

(** X11.  Re-entering visibility restarts the animation from progress 0,
    with the props of the last render: when the wrapper is not visible and
    nothing is pending, a render with any props (changing a dependency of
    [renderOnce] or only the tuning props), then a notification that the
    wrapper is visible at time t1 and an animation frame stamped no later
    than t1 add exactly one paint; that paint draws the Model built from
    the props of that render for the floored box, which is the cached one,
    at progress 0 with the tip on the start point, and one callback is left
    pending for the next frame. *)
Theorem X11_reentry_restarts_from_zero (st : State) (P' : Props)
  (t0 : JS.num) (rw rh t1 t2 : R) :
  inView st = false -> frames st = [] ->
  rect st = (JS.Fin rw, JS.Fin rh) -> t2 <= t1 ->
  let st2 :=
    run measureText st [Rendered t0 P'; Intersected t1 true; Frame t2] in
  let m := build P' (IZR (Z.max 1 (Zfloor rw)))
             (IZR (Z.max 1 (Zfloor rh))) in
  exists p,
    paints st2 = (paints st ++ [p])%list
    /\ painted p = m /\ paint_cached p = Some m
    /\ paint_surface p = Some (width m, height m)
    /\ paint_progress p = JS.Fin 0
    /\ tip_of isColor (paint_cmds p) = Some (startX m, startY m)
    /\ List.length (frames st2) = 1%nat.
Proof.
  intros Hv Hnil Hr Ht st2 m.
  set (st1 := handle measureText st (Rendered t0 P')).
  assert (H1 : inView st1 = false /\ frames st1 = []
               /\ rect st1 = (JS.Fin rw, JS.Fin rh)
               /\ latest st1 = P' /\ paints st1 = paints st).
  { subst st1. cbn [handle]. cbn [props with_now].
    destruct (same_deps (props st) P').
    - cbn [inView frames rect latest paints with_latest with_now].
      now repeat split.
    - assert (Hc : cleanup (with_now st t0) = with_now st t0
                   \/ exists k,
                        cleanup (with_now st t0)
                        = cancelAnimationFrame (with_now st t0) k).
      { unfold cleanup. destruct (has_cleanup _); [| now left].
        destruct (rafRef _); [right; eauto | now left]. }
      unfold render_effect, document_undefined.
      destruct Hc as [-> | (k & ->)];
        cbn [inView frames rect latest paints with_props with_now
             cancelAnimationFrame with_cleanup negb andb];
        rewrite Hv; cbn [negb andb with_cleanup inView frames rect latest
                         paints with_props with_now cancelAnimationFrame];
        rewrite ?Hnil; now repeat split. }
  destruct H1 as (Hv1 & Hnil1 & Hr1 & Hl1 & Hp1).
  destruct (LoopMore.reentry measureText isColor st1 rw rh t1 t2
              Hv1 Hnil1 Hr1 Ht) as (p & Hp & Hrest).
  exists p. rewrite Hl1, Hp1 in *. fold m in Hrest.
  split; [exact Hp |]. exact Hrest.
Qed.

End LoopExtras.

Lemma X3_witness :
  16 <= 16
  /\ let m := buildModel seven_px no_props 300 150 in
     let cb := chain_of m 16 1 no_props true in
     let st := mounted no_props 300 150 1 0 in
     exists p,
       last_paint (step cb 16 st) = Some p
       /\ painted p = m /\ paint_progress p = JS.Fin 0
       /\ tip_of rgb_function (paint_cmds p) = Some (startX m, startY m)
       /\ frames (step cb 16 st)
          = (frames st ++ [(next_handle st, cb)])%list.
Proof.
  assert (H : 16 <= 16) by lra.
  split; [exact H |].
  exact (X3_first_frame_at_zero seven_px rgb_function no_props 300 150 16 16
           1 true (mounted no_props 300 150 1 0) H).
Defined.

Lemma X4_witness :
  let m := buildModel seven_px no_props 300 150 in
  let cb := chain_of m 0 1 no_props true in
  let st := mounted no_props 300 150 1 0 in
  JS.leb (duration m) (JS.Fin 1000 - JS.Fin 0) = true
  /\ exists p,
       last_paint (step cb 1000 st) = Some p
       /\ painted p = m /\ paint_progress p = JS.Fin 1
       /\ tip_of rgb_function (paint_cmds p)
          = Some (startX m + (endX m - startX m) * JS.Fin 1,
                  startY m + (yFinal m - startY m) * JS.Fin 1)
       /\ frames (step cb 1000 st) = frames st.
Proof.
  cbn zeta.
  assert (H : JS.leb (duration (buildModel seven_px no_props 300 150))
                (JS.Fin 1000 - JS.Fin 0) = true).
  { rewrite BuilderFacts.duration_build. cbn. apply JSFacts.leb_fin. lra. }
  split; [exact H |].
  exact (X4_last_frame_reaches_target seven_px rgb_function no_props 300 150
           0 1000 1 true (mounted no_props 300 150 1 0) H).
Defined.

Lemma X5_witness :
  100 <= 500
  /\ let m := buildModel seven_px no_props 300 150 in
     let cb := chain_of m 0 1 no_props true in
     let st := mounted no_props 300 150 1 0 in
     exists p1 p2 (w1 w2 : R),
       last_paint (step cb 100 st) = Some p1
       /\ last_paint (step cb 500 st) = Some p2
       /\ tip_of rgb_function (paint_cmds p1) = Some (blend m (JS.Fin w1))
       /\ tip_of rgb_function (paint_cmds p2) = Some (blend m (JS.Fin w2))
       /\ 0 <= w1 /\ w1 <= w2 /\ w2 <= 1.
Proof.
  assert (H : 100 <= 500) by lra.
  split; [exact H |].
  exact (X5_progress_is_monotone seven_px rgb_function no_props 300 150 0 100
           500 1 true (mounted no_props 300 150 1 0)
           (mounted no_props 300 150 1 0) H).
Defined.

Lemma X7_witness :
  let trace :=
    [Intersected 0 true; Frame 16;
     Rendered 20 (with_percent no_props (Some (JS.Fin 250))); Frame 32;
     Intersected 40 false] in
  forallb (fun e => negb (is_resize e)) trace = true
  /\ let st := run seven_px (mounted no_props 300 150 1 0) trace in
     (List.length (frames st) <= 1)%nat /\ Forall fresh (paints st).
Proof.
  cbn zeta.
  split; [reflexivity |].
  exact (X7_single_fresh_chain seven_px no_props 300 150 1 0
           [Intersected 0 true; Frame 16;
            Rendered 20 (with_percent no_props (Some (JS.Fin 250))); Frame 32;
            Intersected 40 false] eq_refl).
Defined.

Lemma X8_witness :
  let trace := [Intersected 0 true; Frame 16] in
  forallb (fun e => negb (is_resize e)) trace = true
  /\ let st := run seven_px (mounted no_props 300 150 1 0)
                 (trace ++ [Intersected 20 false]) in
     inView st = false /\ frames st = []
     /\ paints (handle seven_px st (Frame 36)) = paints st
     /\ frames (handle seven_px st (Frame 36)) = [].
Proof.
  cbn zeta.
  split; [reflexivity |].
  exact (X8_visibility_loss_suspends seven_px no_props 300 150 1 0 20 36
           [Intersected 0 true; Frame 16] eq_refl).
Defined.

(** X11 where the render while hidden changed the duration only: the
    Model painted on re-entry has the new duration 4000. *)
Lemma X11_witness :
  let st := mounted no_props 300 150 1 0 in
  let P' := with_duration no_props (Some (JS.Fin 4000)) in
  (inView st = false /\ frames st = [] /\ rect st = (JS.Fin 300, JS.Fin 150)
   /\ 10 <= 10)
  /\ (let st2 :=
        run seven_px st [Rendered 5 P'; Intersected 10 true; Frame 10] in
      let m := buildModel seven_px P' (IZR (Z.max 1 (Zfloor 300)))
                 (IZR (Z.max 1 (Zfloor 150))) in
      exists p,
        paints st2 = (paints st ++ [p])%list
        /\ painted p = m /\ paint_cached p = Some m
        /\ paint_surface p = Some (width m, height m)
        /\ paint_progress p = JS.Fin 0
        /\ tip_of rgb_function (paint_cmds p) = Some (startX m, startY m)
        /\ List.length (frames st2) = 1%nat)
  /\ duration (buildModel seven_px
                 (with_duration no_props (Some (JS.Fin 4000)))
                 (IZR (Z.max 1 (Zfloor 300))) (IZR (Z.max 1 (Zfloor 150))))
     = JS.Fin 4000.
Proof.
  cbn zeta.
  assert (H : 10 <= 10) by lra.
  split; [repeat split; exact H |].
  split.
  - exact (X11_reentry_restarts_from_zero seven_px rgb_function
             (mounted no_props 300 150 1 0)
             (with_duration no_props (Some (JS.Fin 4000))) 5
             300 150 10 10 eq_refl eq_refl eq_refl H).
  - rewrite BuilderFacts.duration_build. cbn [durationMs with_duration].
    rewrite (ZfloorZ 4000). f_equal. apply JSFacts.clamp_inside. lra.
Defined.

(** * Properties of the gauge, the bar chart and the wrapper *)

Module RoundFacts.

Import JS.

Lemma Zfloor_shift (x : R) (n : Z) : Zfloor (x + IZR n) = (Zfloor x + n)%Z.
Proof.
  apply Zfloor_eq. rewrite plus_IZR.
  pose proof (Zfloor_bound x). lra.
Qed.

Lemma Zfloor_mono (x y : R) : x <= y -> (Zfloor x <= Zfloor y)%Z.
Proof.
  intros H. apply Zfloor_lub. pose proof (Zfloor_bound x). lra.
Qed.

(** Clamping a rounded number between 0 and a whole bound. *)
Lemma clamp_round (hi : Z) (x : num) :
  (0 <= hi)%Z ->
  max 0 (min (Fin (IZR hi)) (round x)) = NaN
  \/ exists k : Z,
       max 0 (min (Fin (IZR hi)) (round x)) = Fin (IZR k) /\ (0 <= k <= hi)%Z.
Proof.
  intros Hhi. destruct x as [| | | r]; cbn.
  - now left.
  - right. exists hi. split; [| lia]. f_equal. apply Rmax_right.
    apply IZR_le. exact Hhi.
  - right. exists 0%Z. split; [reflexivity | lia].
  - right. set (k := Zfloor (r + / 2)).
    exists (Z.max 0 (Z.min hi k)). split; [| lia].
    f_equal. unfold Rmax, Rmin.
    destruct (Rle_dec (IZR hi) (IZR k)) as [H1 | H1].
    + apply le_IZR in H1. rewrite Z.min_l by lia.
      destruct (Rle_dec 0 (IZR hi)) as [H2 | H2].
      * rewrite Z.max_r by lia. reflexivity.
      * exfalso. apply H2. now apply IZR_le.
    + assert (k < hi)%Z by (apply lt_IZR; lra). rewrite Z.min_r by lia.
      destruct (Rle_dec 0 (IZR k)) as [H2 | H2].
      * apply le_IZR in H2. rewrite Z.max_r by lia. reflexivity.
      * assert (k < 0)%Z by (apply lt_IZR; lra). rewrite Z.max_l by lia.
        reflexivity.
Qed.

End RoundFacts.

Module DonutFacts.

Import DonutGauge JSFacts RoundFacts.
Local Open Scope num_scope.

(** The clamped value is a real number between 0 and 1000, and 0 for an
    input that is not finite. *)
Lemma v_gauge (P : Props) :
  exists x : R,
    v (gauge P) = JS.Fin x /\ 0 <= x <= 1000
    /\ (JS.isFinite (value P) = false -> x = 0%R)
    /\ (forall r, value P = JS.Fin r -> x = Rmax 0 (Rmin 1000 r)).
Proof.
  unfold gauge. cbn [v].
  destruct (value P) as [| | | r]; cbn.
  - exists 0%R. rewrite Rmin_right, Rmax_left by lra.
    repeat split; try lra; congruence.
  - exists 0%R. rewrite Rmin_right, Rmax_left by lra.
    repeat split; try lra; congruence.
  - exists 0%R. rewrite Rmin_right, Rmax_left by lra.
    repeat split; try lra; congruence.
  - eexists. split; [reflexivity |]. split; [apply clamp_bounds; lra |].
    split; [discriminate |]. now intros r' [= <-].
Qed.

End DonutFacts.

Section DonutExtras.

Import DonutGauge.
Local Open Scope num_scope.


(** X13.  The centre label and the badge together show the rounded clamped
    value: with x the value clamped to [0, 1000], or 0 for a value that is
    not finite, the label is x rounded and capped at 100, the overshoot is
    what the cap cut off, a whole number from 0 to 900, so that their sum is
    x rounded; the badge is rendered exactly when the overshoot is
    positive. *)
Theorem X13_label_and_badge (P : Props) :
  let x : R :=
    match value P with
    | JS.Fin r => Rmax 0 (Rmin 1000 r)
    | _ => 0
    end in
  exists k o : Z,
    v (gauge P) = JS.Fin x
    /\ centre (gauge P) = JS.Fin (IZR k) /\ over (gauge P) = JS.Fin (IZR o)
    /\ k = Z.min 100 (Zfloor (x + / 2))
    /\ (k + o)%Z = Zfloor (x + / 2)
    /\ (0 <= k <= 100)%Z /\ (0 <= o <= 900)%Z
    /\ badge (gauge P) = (if (0 <? o)%Z then Some (JS.Fin (IZR o)) else None).
Proof.
  intros x.
  assert (Hx : 0 <= x <= 1000).
  { subst x. destruct (value P); try lra. apply JSFacts.clamp_bounds. lra. }
  assert (Hv : v (gauge P) = JS.Fin x).
  { destruct (DonutFacts.v_gauge P) as (x' & Hv & _ & Hnf & Hfin).
    rewrite Hv. f_equal. subst x.
    destruct (value P) as [| | | r] eqn:E;
      try (apply Hnf; reflexivity).
    now apply Hfin. }
  clearbody x.
  assert (Hcentre : centre (gauge P)
                    = JS.Fin (IZR (Zfloor (Rmax 0 (Rmin 100 x) + / 2)))).
  { change (centre (gauge P)) with (JS.round (JS.max 0 (JS.min 100 (v (gauge P))))).
    now rewrite Hv. }
  assert (Hover : over (gauge P)
                  = if JS.ltb 100 (JS.Fin x)
                    then JS.min 900 (JS.round (JS.Fin x - 100)) else 0).
  { change (over (gauge P))
      with (if JS.ltb 100 (v (gauge P))
            then JS.min 900 (JS.round (v (gauge P) - 100)) else 0).
    now rewrite Hv. }
  assert (Hbadge : badge (gauge P)
                   = if JS.ltb 0 (over (gauge P)) then Some (over (gauge P))
                     else None) by reflexivity.
  destruct (Rle_dec x 100) as [Hle | Hgt].
  - exists (Zfloor (x + / 2)), 0%Z.
    assert (Hlt : JS.ltb 100 (JS.Fin x) = false).
    { destruct (JS.ltb 100 (JS.Fin x)) eqn:E; [| reflexivity].
      apply JSFacts.ltb_fin in E. lra. }
    rewrite Hlt in Hover. rewrite Hbadge, Hover, Hcentre.
    rewrite JSFacts.clamp_inside by lra.
    assert (0 <= Zfloor (x + / 2))%Z by (apply Zfloor_lub; lra).
    assert (Zfloor (x + / 2) <= 100)%Z.
    { assert (Zfloor (x + / 2) < 101)%Z; [| lia].
      apply lt_IZR. pose proof (Zfloor_bound (x + / 2)). lra. }
    split; [exact Hv |]. split; [reflexivity |]. split; [reflexivity |].
    split; [lia |]. split; [lia |]. split; [lia |]. split; [lia |].
    cbn. destruct (Rlt_dec 0 0); [lra | reflexivity].
  - assert (H100 : 100 < x) by lra.
    exists 100%Z, (Zfloor (x + / 2) - 100)%Z.
    assert (Hlt : JS.ltb 100 (JS.Fin x) = true) by (apply JSFacts.ltb_fin; lra).
    rewrite Hlt in Hover.
    assert (Hfl : Zfloor (x - 100 + / 2) = (Zfloor (x + / 2) - 100)%Z).
    { replace (x - 100 + / 2)%R with (x + / 2 + IZR (- 100))%R
        by lra.
      rewrite RoundFacts.Zfloor_shift. lia. }
    assert (Hlo : (100 <= Zfloor (x + / 2))%Z) by (apply Zfloor_lub; lra).
    assert (Hhi : (Zfloor (x + / 2) <= 1000)%Z).
    { assert (Zfloor (x + / 2) < 1001)%Z; [| lia].
      apply lt_IZR. pose proof (Zfloor_bound (x + / 2)). lra. }
    assert (Hover' : over (gauge P) = JS.Fin (IZR (Zfloor (x + / 2) - 100))).
    { rewrite Hover. cbn [JS.sub JS.add JS.neg JS.round JS.min].
      replace (x + - (100))%R with (x - 100)%R by lra. rewrite Hfl.
      f_equal. apply Rmin_right. apply IZR_le. lia. }
    rewrite Hbadge, Hover', Hcentre. rewrite JSFacts.clamp_above by lra.
    split; [exact Hv |].
    split; [do 2 f_equal; apply Zfloor_eq; lra |].
    split; [reflexivity |]. split; [lia |]. split; [lia |]. split; [lia |].
    split; [lia |].
    destruct (0 <? Zfloor (x + / 2) - 100)%Z eqn:E.
    + apply Z.ltb_lt in E.
      assert (Hb : JS.ltb 0 (JS.Fin (IZR (Zfloor (x + / 2) - 100))) = true)
        by (apply JSFacts.ltb_fin; now apply IZR_lt).
      now rewrite Hb.
    + apply Z.ltb_ge in E.
      destruct (JS.ltb 0 (JS.Fin (IZR (Zfloor (x + / 2) - 100)))) eqn:Hb;
        [| reflexivity].
      apply JSFacts.ltb_fin in Hb. apply lt_IZR in Hb. lia.
Qed.

End DonutExtras.

Module BarFacts.

Import MiniBarChart SpecCharts JSFacts RoundFacts.
Local Open Scope num_scope.
Local Open Scope list_scope.

Lemma finite_or_zero_finite (x : JS.num) : finite (finite_or_zero x).
Proof. destruct x; cbn; eexists; reflexivity. Qed.

Lemma safe_nonempty (P : Props) : safe P <> [].
Proof. unfold safe. destruct (series P) as [[| x xs] |]; discriminate. Qed.

Lemma bars_length (P : Props) :
  List.length (bars P) = List.length (safe P)
  /\ (1 <= List.length (bars P))%nat.
Proof.
  unfold bars. rewrite length_map. split; [reflexivity |].
  pose proof (safe_nonempty P). destruct (safe P); [contradiction | cbn; lia].
Qed.

(** [Math.max] over finite numbers, started from a finite number. *)
Lemma fold_max_finite (xs : list JS.num) (a : R) :
  Forall finite xs ->
  exists m : R,
    fold_left JS.max xs (JS.Fin a) = JS.Fin m /\ a <= m
    /\ Forall (fun x => exists r, x = JS.Fin r /\ r <= m) xs.
Proof.
  intros H. revert a. induction H as [| x xs [r ->] _ IH]; intros a; cbn.
  - exists a. split; [reflexivity |]. split; [lra | constructor].
  - destruct (IH (Rmax a r)) as (m & Hm & Hle & Hall).
    exists m. split; [exact Hm |].
    pose proof (Rmax_l a r). pose proof (Rmax_r a r).
    split; [lra |]. constructor; [| exact Hall].
    exists r. split; [reflexivity | lra].
Qed.

(** The scale maximum is finite, at least 1, and no bar value exceeds it. *)
Lemma max_of_bound (P : Props) :
  exists m : R,
    max_of P = JS.Fin m /\ 1 <= m
    /\ Forall (fun b => exists r, b = JS.Fin r /\ 0 <= r <= m) (bars P).
Proof.
  unfold max_of, bars, Math_max.
  pose proof (safe_nonempty P) as Hne.
  destruct (safe P) as [| x xs]; [contradiction |]. clear Hne.
  cbn [map fold_left].
  destruct (finite_or_zero_finite x) as [r Hr]. rewrite Hr.
  cbn [JS.max].
  assert (Hfin : Forall finite (map finite_or_zero xs)).
  { apply Forall_forall. intros y [z [<- _]]%in_map_iff.
    apply finite_or_zero_finite. }
  destruct (fold_max_finite _ r Hfin) as (m & Hm & Hle & Hall).
  rewrite Hm. cbn [JS.max]. exists (Rmax 1 m).
  split; [reflexivity |]. split; [apply Rmax_l |].
  pose proof (Rmax_l 1 m). pose proof (Rmax_r 1 m).
  constructor.
  - exists (Rmax 0 r). split; [reflexivity |].
    split; [apply Rmax_l |]. apply Rmax_lub; lra.
  - rewrite Forall_map in Hall. rewrite Forall_map.
    eapply Forall_impl; [| exact Hall]. cbn.
    intros y (q & Hq & Hqm). rewrite Hq. cbn [JS.max].
    exists (Rmax 0 q). split; [reflexivity |].
    split; [apply Rmax_l |]. apply Rmax_lub; lra.
Qed.

Lemma innerHeight_fin (P : Props) (ht : R) :
  height_of P = JS.Fin ht ->
  innerHeight P = JS.Fin (Rmax 1 (ht - 18 - 6)) /\ 1 <= Rmax 1 (ht - 18 - 6).
Proof.
  intros H. unfold innerHeight, axisBottom. rewrite H. cbn.
  split; [reflexivity | apply Rmax_l].
Qed.

(** The height of a bar for a finite value, scale and plot height. *)
Lemma bar_height_fin (P : Props) (b m iH : R) :
  max_of P = JS.Fin m -> 1 <= m -> innerHeight P = JS.Fin iH ->
  bar_height P (JS.Fin b) = JS.Fin (IZR (Zfloor (b / m * iH + / 2))).
Proof.
  intros Hm H1 HiH. unfold bar_height. rewrite Hm, HiH.
  rewrite div_fin by lra. reflexivity.
Qed.

Lemma bars_from_length (P : Props) (i : nat) (values : list JS.num) :
  List.length (bars_from P i values) = List.length values.
Proof.
  revert i. induction values as [| x xs IH]; intros i; cbn; [| rewrite IH];
    reflexivity.
Qed.

Lemma bars_from_Forall (P : Props) (Q : JS.num -> Prop) (R' : Bar -> Prop) :
  (forall i x, Q x -> R' (bar P i x)) ->
  forall values i, Forall Q values -> Forall R' (bars_from P i values).
Proof.
  intros H values. induction values as [| x xs IH]; intros i Hall; cbn.
  - constructor.
  - inversion Hall; subst. constructor; [now apply H | now apply IH].
Qed.

(** Every bar of a chart with a finite height: value, height and top. *)
Lemma rects_inside (P : Props) (x : R) :
  height_of P = JS.Fin x ->
  let iH := Rmax 1 (x - 18 - 6) in
  Forall
    (fun b =>
       exists (val : R) (h : Z),
         bar_value b = JS.Fin val /\ 0 <= val
         /\ bar_h b = JS.Fin (IZR h)
         /\ (0 <= h <= Zfloor (iH + / 2))%Z
         /\ bar_y b = JS.Fin (4 + iH - IZR h)
         /\ 4 - / 2 <= 4 + iH - IZR h <= 4 + iH)
    (rects P).
Proof.
  intros Hx iH.
  destruct (innerHeight_fin P x Hx) as [HiH H1]. fold iH in HiH, H1.
  destruct (max_of_bound P) as (m & Hm & Hm1 & Hall).
  unfold rects. eapply bars_from_Forall; [| exact Hall].
  intros i y (r & -> & Hr0 & Hrm).
  exists r, (Zfloor (r / m * iH + / 2)).
  unfold bar. cbn [bar_value bar_h bar_y].
  rewrite (bar_height_fin P r m iH Hm Hm1 HiH).
  assert (Hq : 0 <= r / m * iH <= iH).
  { assert (0 <= r / m <= 1).
    { split; [apply Rmult_le_pos; [lra |];
              left; apply Rinv_0_lt_compat; lra |].
      apply (Rmult_le_reg_r m); [lra |]. field_simplify; lra. }
    nra. }
  pose proof (Zfloor_bound (r / m * iH + / 2)) as Hb.
  split; [reflexivity |]. split; [exact Hr0 |]. split; [reflexivity |].
  split.
  { split; [apply Zfloor_lub; lra | apply Zfloor_mono; lra]. }
  split.
  { unfold innerBottomY, innerTop. rewrite HiH. cbn. f_equal. }
  split; [lra |].
  assert (0 <= IZR (Zfloor (r / m * iH + / 2))); [| lra].
  apply IZR_le. apply Zfloor_lub. lra.
Qed.

(** [bars.length - 1] as a whole number. *)
Lemma count_pred (P : Props) :
  count P - 1 = JS.Fin (IZR (Z.of_nat (List.length (bars P)) - 1))
  /\ (0 <= Z.of_nat (List.length (bars P)) - 1)%Z.
Proof.
  destruct (bars_length P) as [_ H]. split; [| lia].
  unfold count. cbn. f_equal. rewrite minus_IZR, <- INR_IZR_INZ. lra.
Qed.

Lemma tame_whole (k : Z) : (0 <= k)%Z -> tame (Some (JS.Fin (IZR k))).
Proof. intros H. right. right. eauto. Qed.

Lemma onKeyDown_tame (P : Props) (key : string) (prev : option JS.num) :
  tame prev -> tame (onKeyDown P key prev).
Proof.
  intros Hprev. unfold onKeyDown.
  destruct (count_pred P) as [Hc Hn]. rewrite Hc.
  destruct (Nat.eqb _ 0); [exact Hprev |].
  destruct (String.eqb key "ArrowLeft").
  - destruct Hprev as [-> | [-> | (k & -> & Hk)]].
    + now apply tame_whole.
    + right. now left.
    + cbn. replace (Rmax 0 (IZR k + - (1))) with (IZR (Z.max 0 (k - 1))).
      * apply tame_whole. lia.
      * destruct (Z_le_gt_dec 1 k).
        -- rewrite Z.max_r, minus_IZR by lia. rewrite Rmax_right; [lra |].
           apply IZR_le in l. lra.
        -- rewrite Z.max_l by lia. rewrite Rmax_left; [lra |].
           assert (IZR k <= 0) by (apply IZR_le; lia). lra.
  - destruct (String.eqb key "ArrowRight"); [| exact Hprev].
    destruct Hprev as [-> | [-> | (k & -> & Hk)]].
    + now apply (tame_whole 0).
    + right. now left.
    + cbn. set (n1 := (Z.of_nat (List.length (bars P)) - 1)%Z) in *.
      replace (Rmin (IZR n1) (IZR k + 1)) with (IZR (Z.min n1 (k + 1))).
      * apply tame_whole. lia.
      * destruct (Z_le_gt_dec n1 (k + 1)).
        -- rewrite Z.min_l by lia. rewrite Rmin_left; [lra |].
           apply IZR_le in l. rewrite plus_IZR in l. lra.
        -- rewrite Z.min_r, plus_IZR by lia. rewrite Rmin_right; [lra |].
           assert (IZR (k + 1) <= IZR n1) by (apply IZR_le; lia).
           rewrite plus_IZR in *. lra.
Qed.

Lemma onMouseMove_tame (P : Props) (clientX bboxLeft : JS.num) :
  tame (onMouseMove P clientX bboxLeft).
Proof.
  unfold onMouseMove. destruct (count_pred P) as [Hc Hn]. rewrite Hc.
  match goal with
  | |- context [JS.round ?z] =>
      destruct (clamp_round _ z Hn) as [-> | (k & -> & Hk)]
  end.
  - right. now left.
  - apply tame_whole. lia.
Qed.

Lemma handle_tame (st : State) (e : Event) :
  tame (hoverIdx st) -> tame (hoverIdx (handle st e)).
Proof.
  intros H. destruct e; cbn.
  - now apply onKeyDown_tame.
  - apply onMouseMove_tame.
  - now left.
  - exact H.
Qed.

Lemma run_tame (st : State) (trace : list Event) :
  tame (hoverIdx st) -> tame (hoverIdx (run st trace)).
Proof.
  revert st. induction trace as [| e trace IH]; intros st H; cbn.
  - exact H.
  - apply IH. now apply handle_tame.
Qed.

(** A tame index that passes the guard names a bar. *)
Lemma shown_index (P : Props) (hov : option JS.num) :
  tame hov -> shown P hov = true ->
  exists (k : Z) (b : JS.num),
    hov = Some (JS.Fin (IZR k)) /\ (0 <= k < Z.of_nat (List.length (bars P)))%Z
    /\ index (bars P) (JS.Fin (IZR k)) = Some b
    /\ nth_error (bars P) (Z.to_nat k) = Some b.
Proof.
  intros [-> | [-> | (k & -> & Hk)]]; [discriminate | discriminate |].
  unfold shown, count. intros [_ Hlt%ltb_fin]%andb_prop.
  rewrite INR_IZR_INZ in Hlt. apply lt_IZR in Hlt.
  destruct (nth_error (bars P) (Z.to_nat k)) as [b |] eqn:Hb.
  - exists k, b. split; [reflexivity |]. split; [lia |].
    split; [| exact Hb]. unfold index. rewrite ZfloorZ.
    destruct (Req_dec_T (IZR k) (IZR k)); [| contradiction].
    destruct (Z.leb_spec 0 k); [exact Hb | lia].
  - apply nth_error_None in Hb. lia.
Qed.

End BarFacts.

Section BarExtras.

Import MiniBarChart SpecCharts.
Local Open Scope num_scope.
Local Open Scope list_scope.

(** X15.  The bars stay in the plot: for every series (empty, not an array,
    or holding NaN, infinities or negative numbers), every finite or absent
    height and any bar width and gap, there is at least one bar, one per
    entry of a non-empty series; every bar has a finite value that is not
    negative, a height that is a whole number between 0 and the rounded plot
    height, sits on the x axis, and its top is at most half a pixel above
    the top of the plot. *)
Theorem X15_bars_inside_plot (ser : option (list JS.num)) (ht : option R)
  (bw gp : option JS.num) :
  let P := {| series := ser; height := option_map JS.Fin ht;
              barWidth := bw; gap := gp |} in
  exists iH : R,
    innerHeight P = JS.Fin iH /\ 1 <= iH
    /\ List.length (rects P)
       = match ser with Some (x :: xs) => S (List.length xs) | _ => 1%nat end
    /\ Forall
         (fun b =>
            exists (val : R) (h : Z),
              bar_value b = JS.Fin val /\ 0 <= val
              /\ bar_h b = JS.Fin (IZR h)
              /\ (0 <= h <= Zfloor (iH + / 2))%Z
              /\ bar_y b = JS.Fin (4 + iH - IZR h)
              /\ 4 - / 2 <= 4 + iH - IZR h <= 4 + iH)
         (rects P).
Proof.
  intros P.
  assert (Hh : exists x, height_of P = JS.Fin x).
  { unfold height_of, P. cbn. destruct ht; cbn; eexists; reflexivity. }
  destruct Hh as [x Hx].
  destruct (BarFacts.innerHeight_fin P x Hx) as [HiH H1].
  exists (Rmax 1 (x - 18 - 6)).
  split; [exact HiH |]. split; [exact H1 |]. split.
  - unfold rects. rewrite BarFacts.bars_from_length.
    destruct (BarFacts.bars_length P) as [-> _]. unfold safe, P. cbn.
    destruct ser as [[| y ys] |]; reflexivity.
  - exact (BarFacts.rects_inside P x Hx).
Qed.

(** X16.  A larger value never gets a lower bar, and a value equal to the
    scale maximum gets the full rounded plot height. *)
Theorem X16_taller_value_taller_bar (ser : option (list JS.num))
  (ht : option R) (bw gp : option JS.num) (a b : R) :
  let P := {| series := ser; height := option_map JS.Fin ht;
              barWidth := bw; gap := gp |} in
  a <= b ->
  JS.leb (bar_height P (JS.Fin a)) (bar_height P (JS.Fin b)) = true
  /\ bar_height P (max_of P) = JS.round (innerHeight P).
Proof.
  intros P Hab.
  assert (Hh : exists x, height_of P = JS.Fin x).
  { unfold height_of, P. cbn. destruct ht; cbn; eexists; reflexivity. }
  destruct Hh as [x Hx].
  destruct (BarFacts.innerHeight_fin P x Hx) as [HiH H1].
  set (iH := Rmax 1 (x - 18 - 6)) in *.
  destruct (BarFacts.max_of_bound P) as (m & Hm & Hm1 & _).
  split.
  - rewrite !(BarFacts.bar_height_fin P _ m iH Hm Hm1 HiH).
    apply JSFacts.leb_fin. apply IZR_le. apply RoundFacts.Zfloor_mono.
    assert (a / m <= b / m).
    { unfold Rdiv. apply Rmult_le_compat_r; [| exact Hab].
      left. apply Rinv_0_lt_compat. lra. }
    nra.
  - rewrite Hm, (BarFacts.bar_height_fin P m m iH Hm Hm1 HiH), HiH. cbn.
    do 3 f_equal. field. lra.
Qed.

(** X17.  The tooltip never reads a missing bar: after any sequence of key
    presses, pointer moves (at any coordinates, NaN too), pointer leaves and
    re-renders with other props (another series, bar width or gap), either
    the guard hides the tooltip, or the hover index is a whole number inside
    the present bars and the value read is that of the bar it names. *)
Theorem X17_tooltip_reads_a_bar (P0 : Props) (trace : list Event) :
  let st := run (mounted P0) trace in
  tooltip_value (props st) (hoverIdx st) = None
  \/ exists (k : Z) (b : JS.num),
       hoverIdx st = Some (JS.Fin (IZR k))
       /\ (0 <= k < Z.of_nat (List.length (bars (props st))))%Z
       /\ nth_error (bars (props st)) (Z.to_nat k) = Some b
       /\ tooltip_value (props st) (hoverIdx st) = Some (Some b).
Proof.
  intros st.
  assert (Ht : tame (hoverIdx st)).
  { apply BarFacts.run_tame. now left. }
  unfold tooltip_value.
  destruct (shown (props st) (hoverIdx st)) eqn:Hs.
  - destruct (BarFacts.shown_index _ _ Ht Hs) as (k & b & Hk & Hr & Hi & Hn).
    right. exists k, b. rewrite Hk.
    split; [reflexivity |]. split; [exact Hr |]. split; [exact Hn |].
    now rewrite Hi.
  - left. now destruct (hoverIdx st).
Qed.

(** X18.  A pointer over a bar selects that bar: with a bar width that is
    not negative and a positive gap, a pointer whose x, measured from the
    left edge of the capture rectangle, lies within the i-th bar sets the
    hover index to i. *)
Theorem X18_pointer_over_bar_selects_it (ser : option (list JS.num))
  (ht : option JS.num) (bw gp clientX left : R) (i : nat) :
  let P := {| series := ser; height := ht; barWidth := Some (JS.Fin bw);
              gap := Some (JS.Fin gp) |} in
  0 <= bw -> 0 < gp -> (i < List.length (bars P))%nat ->
  INR i * (bw + gp) <= clientX - left <= INR i * (bw + gp) + bw ->
  onMouseMove P clientX left = Some (JS.Fin (INR i)).
Proof.
  intros P Hbw Hgp Hi Hx.
  unfold onMouseMove.
  destruct (BarFacts.count_pred P) as [Hc Hn]. rewrite Hc.
  set (n := List.length (bars P)) in *.
  assert (Hcount : count P = JS.Fin (INR n)) by reflexivity.
  assert (Hni : INR i + 1 <= INR n).
  { rewrite <- S_INR. apply le_INR. lia. }
  assert (Hi0 : 0 <= INR i) by apply pos_INR.
  assert (Hw : widthInner P = JS.Fin (INR n * bw + (INR n - 1) * gp)).
  { unfold widthInner. rewrite Hcount. cbn.
    rewrite Rmax_right by lra. reflexivity. }
  assert (Hrel : JS.max 0 (JS.min (widthInner P) (JS.Fin clientX - JS.Fin left))
                 = JS.Fin (clientX - left)).
  { rewrite Hw. cbn. f_equal. apply JSFacts.clamp_inside. split; [nra |].
    replace (clientX + - left)%R with (clientX - left)%R by lra. nra. }
  rewrite Hrel.
  change (barWidth_of P) with (JS.Fin bw).
  change (gap_of P) with (JS.Fin gp).
  rewrite (JSFacts.div_fin bw 2) by lra. cbn [JS.sub JS.add JS.neg].
  rewrite JSFacts.div_fin by lra. cbn [JS.round JS.min JS.max].
  assert (Hfl : Zfloor ((clientX - left + - (bw / 2)) / (bw + gp) + / 2)
                = Z.of_nat i).
  { apply Zfloor_eq. rewrite <- INR_IZR_INZ.
    set (s := (bw + gp)%R) in *. assert (Hs : 0 < s) by (unfold s; lra).
    set (z := ((clientX - left + - (bw / 2)) / s)%R).
    assert (Hz : (z * s)%R = (clientX - left + - (bw / 2))%R)
      by (unfold z; field; lra).
    assert (Hlo : (INR i - / 2) * s <= z * s) by (unfold s in *; nra).
    assert (Hhi : z * s < (INR i + / 2) * s) by (unfold s in *; nra).
    apply Rmult_le_reg_r in Hlo; [| exact Hs].
    apply Rmult_lt_reg_r in Hhi; [| exact Hs]. lra. }
  rewrite Hfl, <- INR_IZR_INZ.
  do 2 f_equal. apply JSFacts.clamp_inside.
  rewrite minus_IZR, <- INR_IZR_INZ. lra.
Qed.

(** X19.  Every bar can be reached from the keyboard: with nothing
    selected, ArrowLeft selects the last bar, and ArrowRight pressed i + 1
    times selects bar i, stopping at the last one. *)
Theorem X19_keyboard_reaches_every_bar (P : Props) (i : nat) :
  hoverIdx (run (mounted P) [KeyDown "ArrowLeft"])
  = Some (JS.Fin (INR (List.length (bars P) - 1)))
  /\ hoverIdx (run (mounted P) (repeat (KeyDown "ArrowRight") (S i)))
     = Some (JS.Fin (INR (Nat.min i (List.length (bars P) - 1)))).
Proof.
  destruct (BarFacts.bars_length P) as [_ Hn].
  destruct (BarFacts.count_pred P) as [Hc _].
  assert (Hz : Nat.eqb (List.length (bars P)) 0 = false)
    by (apply Nat.eqb_neq; lia).
  assert (Hpred : IZR (Z.of_nat (List.length (bars P)) - 1)
                  = INR (List.length (bars P) - 1)).
  { rewrite INR_IZR_INZ. f_equal. lia. }
  split.
  - cbn. unfold onKeyDown. rewrite Hz, Hc. cbn. now rewrite Hpred.
  - set (n1 := (List.length (bars P) - 1)%nat) in *.
    assert (Hrun : run (mounted P) (repeat (KeyDown "ArrowRight") (S i))
                   = {| props := P;
                        hoverIdx := Some (JS.Fin (INR (Nat.min i n1))) |}).
    { induction i as [| i IH].
      - cbn. unfold onKeyDown. rewrite Hz. reflexivity.
      - change (repeat (KeyDown "ArrowRight") (S (S i)))
          with (KeyDown "ArrowRight" :: repeat (KeyDown "ArrowRight") (S i)).
        rewrite repeat_cons. unfold run in *. rewrite fold_left_app, IH.
        cbn [fold_left handle hoverIdx props].
        unfold onKeyDown. rewrite Hz, Hc, Hpred.
        cbn [String.eqb Ascii.eqb Bool.eqb JS.add JS.min].
        do 3 f_equal.
        destruct (Nat.le_gt_cases n1 i) as [Hle | Hgt].
        + rewrite !Nat.min_r by lia. apply Rmin_left.
          pose proof (pos_INR n1). lra.
        + rewrite !Nat.min_l by lia. rewrite S_INR. apply Rmin_right.
          rewrite <- S_INR. apply le_INR. lia. }
    now rewrite Hrun.
Qed.

End BarExtras.

Module TimelineFacts.

Import Timeline SpecCharts JSFacts RoundFacts.
Local Open Scope num_scope.

(** [Math.max(lo, Math.floor(h))] for a finite h and a whole bound. *)
Lemma max_floor (lo : Z) (h : R) :
  JS.max (JS.Fin (IZR lo)) (JS.floor (JS.Fin h))
  = JS.Fin (IZR (Z.max lo (Zfloor h))).
Proof.
  cbn. f_equal.
  destruct (Z_le_gt_dec lo (Zfloor h)).
  - rewrite Z.max_r by lia. apply Rmax_right. now apply IZR_le.
  - rewrite Z.max_l by lia. apply Rmax_left. apply IZR_le. lia.
Qed.

(** The three heights of [GenericSparklineBasic] are whole numbers. *)
Lemma heights (B : BasicProps) :
  exists T H : Z,
    totalH B = JS.Fin (IZR T) /\ headH B = JS.Fin (IZR H)
    /\ canvasH B = JS.Fin (IZR (Z.max 40 (T - H)))
    /\ (120 <= T)%Z /\ (24 <= H)%Z
    /\ T = match height B with
           | Some (JS.Fin h) => Z.max 120 (Zfloor h)
           | _ => 200%Z
           end
    /\ H = match headerHeight B with
           | Some (JS.Fin h) => Z.max 24 (Zfloor h)
           | _ => 32%Z
           end.
Proof.
  assert (HT : exists T : Z,
             totalH B = JS.Fin (IZR T) /\ (120 <= T)%Z
             /\ T = match height B with
                    | Some (JS.Fin h) => Z.max 120 (Zfloor h)
                    | _ => 200%Z
                    end).
  { unfold totalH. destruct (height B) as [[| | | h] |]; cbn [JS.isFinite];
      try (exists 200%Z; split; [reflexivity | split; [lia | reflexivity]]).
    exists (Z.max 120 (Zfloor h)). rewrite (max_floor 120).
    split; [reflexivity | split; [lia | reflexivity]]. }
  assert (HH : exists H : Z,
             headH B = JS.Fin (IZR H) /\ (24 <= H)%Z
             /\ H = match headerHeight B with
                    | Some (JS.Fin h) => Z.max 24 (Zfloor h)
                    | _ => 32%Z
                    end).
  { unfold headH. destruct (headerHeight B) as [[| | | h] |];
      cbn [JS.isFinite];
      try (exists 32%Z; split; [reflexivity | split; [lia | reflexivity]]).
    exists (Z.max 24 (Zfloor h)). rewrite (max_floor 24).
    split; [reflexivity | split; [lia | reflexivity]]. }
  destruct HT as (T & HT & HT1 & HT2), HH as (H & HH & HH1 & HH2).
  exists T, H. split; [exact HT |]. split; [exact HH |].
  split; [| now repeat split].
  unfold canvasH. rewrite HT, HH. cbn [JS.sub JS.add JS.neg].
  replace (IZR T + - IZR H)%R with (IZR (T - H)) by (rewrite minus_IZR; lra).
  rewrite <- (ZfloorZ (T - H)) at 1.
  change (JS.Fin (IZR (Zfloor (IZR (T - H)))))
    with (JS.floor (JS.Fin (IZR (T - H)))).
  rewrite (max_floor 40), ZfloorZ. reflexivity.
Qed.

(** What the rgba pattern reads from a palette colour, and the test for
    the red signature on it. *)
Lemma palette_parsed (p : Palette) :
  match Regex.exec Sparkline.rgba_pattern (palettes p) with
  | Some c => (Sparkline.parsed_group 1 c, Sparkline.parsed_group 2 c,
               Sparkline.parsed_group 3 c)
  | None => (JS.Fin 16, JS.Fin 185, JS.Fin 129)
  end = palette_rgb p
  /\ Regex.exec Sparkline.rgba_pattern (palettes p) <> None
  /\ Regex.test Sparkline.red_signature (palettes p) = false.
Proof. destruct p; (split; [| split]); vm_compute; congruence. Qed.

(** Floor division of a whole number by 12. *)
Lemma floor_div12 (t : Z) : Zfloor (IZR t / 12) = (t / 12)%Z.
Proof.
  apply Zfloor_eq.
  pose proof (Z.div_mod t 12 ltac:(lia)) as Hdm.
  pose proof (Z.mod_pos_bound t 12 ltac:(lia)) as Hb.
  assert (Ht : IZR t = (12 * IZR (t / 12) + IZR (t mod 12))%R).
  { rewrite <- mult_IZR, <- plus_IZR. now f_equal. }
  assert (0 <= IZR (t mod 12) < 12).
  { split; [apply IZR_le; lia | apply IZR_lt; lia]. }
  lra.
Qed.

End TimelineFacts.

Section TimelineExtras.

Import Timeline SpecCharts.
Local Open Scope num_scope.
Local Open Scope list_scope.

Variable measureText : string -> R.

(** X20.  The three heights of [GenericSparklineBasic] are whole numbers
    for every height and header height (absent, NaN, infinite, negative):
    the total height is at least 120, the header at least 24 and the canvas
    area at least 40; header and canvas together take max(total, header +
    40) pixels, so they exceed the total height exactly when the header
    leaves less than 40 pixels; without the two props the heights are 200,
    32 and 168. *)
Theorem X20_heights_are_whole_and_bounded (B : BasicProps) :
  exists T H C : Z,
    totalH B = JS.Fin (IZR T) /\ headH B = JS.Fin (IZR H)
    /\ canvasH B = JS.Fin (IZR C)
    /\ (120 <= T)%Z /\ (24 <= H)%Z /\ (40 <= C)%Z
    /\ (H + C)%Z = Z.max T (H + 40)
    /\ (height B = None -> headerHeight B = None ->
        T = 200%Z /\ H = 32%Z /\ C = 168%Z).
Proof.
  destruct (TimelineFacts.heights B) as (T & H & HT & HH & HC & HT1 & HH1 & ET & EH).
  exists T, H, (Z.max 40 (T - H)).
  split; [exact HT |]. split; [exact HH |]. split; [exact HC |].
  split; [exact HT1 |]. split; [exact HH1 |]. split; [lia |]. split; [lia |].
  intros Hn1 Hn2. rewrite Hn1 in ET. rewrite Hn2 in EH. subst T H.
  repeat split.
Qed.

(** X21.  The clamp of the growth in [GenericSparklineBasic] changes nothing
    in what is drawn: for every growth (absent, NaN, infinite, out of range)
    the Model built from the props it hands to the canvas is the Model built
    from the same props with the raw growth as percent. *)
Theorem X21_preclamp_changes_nothing (B : BasicProps) (w h : JS.num) :
  Sparkline.buildModel measureText (sparkline_props B) w h
  = Sparkline.buildModel measureText
      (Spec.with_percent (sparkline_props B) (growthPct B)) w h.
Proof.
  assert (Hp : JS.max 0 (JS.min 1000
                 match Sparkline.percent (sparkline_props B) with
                 | Some x => if JS.isFinite x then x else JS.Fin 100
                 | None => JS.Fin 100
                 end)
               = JS.max 0 (JS.min 1000
                   match growthPct B with
                   | Some x => if JS.isFinite x then x else JS.Fin 100
                   | None => JS.Fin 100
                   end)).
  { cbn [sparkline_props Sparkline.percent]. unfold pct.
    destruct (growthPct B) as [[| | | g] |]; cbn [JS.isFinite]; try reflexivity.
    cbn. f_equal. apply JSFacts.clamp_inside. apply JSFacts.clamp_bounds. lra. }
  unfold Sparkline.buildModel.
  cbn [Spec.with_percent Sparkline.percent Sparkline.xLabels
       Sparkline.ariaLabel Sparkline.color Sparkline.compact
       Sparkline.durationMs Sparkline.lineWidthOverride
       Sparkline.glowRadiusOverride Sparkline.areaAlphaOverride
       Sparkline.color_of Sparkline.is_compact] in *.
  unfold Sparkline.color_of, Sparkline.is_compact.
  cbn [Spec.with_percent Sparkline.percent Sparkline.xLabels
       Sparkline.ariaLabel Sparkline.color Sparkline.compact
       Sparkline.durationMs Sparkline.lineWidthOverride
       Sparkline.glowRadiusOverride Sparkline.areaAlphaOverride].
  rewrite Hp. reflexivity.
Qed.

(** X22.  The style chosen by [TimelineSparkline] reaches the canvas
    unchanged: for every outcome of the keyword tests, every palette tag
    and both densities, the Model built from the props handed down through
    [GenericSparklineBasic] has the chosen stroke colour, duration, line
    width, glow radius and area alpha (no clamp or fallback of the builder
    alters them), its area colour has the three channels of the chosen
    palette, and the tip glow is the green one. *)
Theorem X22_style_reaches_the_model (I : Input) (w h : JS.num) :
  let S := style I in
  let m := Sparkline.buildModel measureText
             (sparkline_props (basic_props I)) w h in
  Sparkline.strokeColor m = palettes (palette_of I)
  /\ Sparkline.duration m = style_durationMs S
  /\ Sparkline.lineWidth m = style_lineWidth S
  /\ Sparkline.glowRadius m = style_glowRadius S
  /\ Sparkline.alpha (Sparkline.areaStartColor m) = style_areaAlpha S
  /\ Spec.triplet (Sparkline.areaStartColor m) = palette_rgb (palette_of I)
  /\ Sparkline.tipGlowColor m = "rgba(16,185,129,0.9)"%string.
Proof.
  intros S m.
  destruct (TimelineFacts.palette_parsed (palette_of I)) as (Hrgb & Hex & Hred).
  split; [reflexivity |].
  split.
  { subst m. rewrite BuilderFacts.duration_build.
    cbn [sparkline_props basic_props Sparkline.durationMs durationMs S style
         style_durationMs].
    destruct (isFinance I); [| destruct (isTech I); [| destruct (isTeam I)]];
      rewrite ZfloorZ; f_equal; apply JSFacts.clamp_inside; lra. }
  split; [reflexivity |]. split; [reflexivity |].
  split.
  { subst m S. unfold Sparkline.buildModel.
    cbn [Sparkline.areaStartColor Sparkline.alpha sparkline_props basic_props
         Sparkline.areaAlphaOverride areaAlpha style style_areaAlpha].
    destruct (isFinance I); [| destruct (isTech I); [| destruct (isTeam I);
      [| destruct (compact_of I)]]];
      cbn [JS.max JS.min]; f_equal; apply JSFacts.clamp_inside; lra. }
  split.
  { subst m. unfold Sparkline.buildModel, Spec.triplet.
    cbn [Sparkline.areaStartColor Sparkline.red Sparkline.green Sparkline.blue].
    change (Sparkline.color_of (sparkline_props (basic_props I)))
      with (palettes (palette_of I)).
    rewrite <- Hrgb.
    destruct (Regex.exec Sparkline.rgba_pattern (palettes (palette_of I)));
      reflexivity. }
  subst m. unfold Sparkline.buildModel. cbn [Sparkline.tipGlowColor].
  change (Sparkline.color_of (sparkline_props (basic_props I)))
    with (palettes (palette_of I)).
  now rewrite Hred.
Qed.

(** X14.  The donut of the timeline fits its box: whenever the donut is
    shown, its size is a whole number from 96 to 180, the stroke is the
    default 10, the radius is (size - 10) / 2, so that the outer diameter
    2 * radius + stroke equals the size, and the value is the growth of
    the item found, or 0 without one. *)
Theorem X14_timeline_donut_fits (I : Input) (P : DonutGauge.Props) :
  content I = Donut P ->
  exists s : Z,
    DonutGauge.size P = Some (JS.Fin (IZR s)) /\ (96 <= s <= 180)%Z
    /\ DonutGauge.stroke P = None
    /\ DonutGauge.radius (DonutGauge.gauge P) = JS.Fin ((IZR s - 10) / 2)
    /\ DonutGauge.value P
       = match found I with Some p => growth p | None => JS.Fin 0 end.
Proof.
  intros Hc.
  assert (HP : P = {| DonutGauge.value := nullish (growth_of I) 0;
                      DonutGauge.size :=
                        Some (JS.min 180
                                (JS.max 96
                                   (JS.floor (canvasH (basic_props I)))));
                      DonutGauge.stroke := None |}).
  { unfold content in Hc. destruct (mode I); try discriminate.
    now injection Hc as <-. }
  subst P. clear Hc.
  destruct (TimelineFacts.heights (basic_props I))
    as (T & H & _ & _ & HC & _).
  rewrite HC. set (C := Z.max 40 (T - H)).
  assert (Hsize : JS.min 180 (JS.max 96 (JS.floor (JS.Fin (IZR C))))
                  = JS.Fin (IZR (Z.min 180 (Z.max 96 C)))).
  { rewrite (TimelineFacts.max_floor 96), ZfloorZ. cbn. f_equal.
    destruct (Z_le_gt_dec 180 (Z.max 96 C)).
    - rewrite Z.min_l by lia. apply Rmin_left. now apply IZR_le.
    - rewrite Z.min_r by lia. apply Rmin_right. apply IZR_le. lia. }
  rewrite Hsize. set (s := Z.min 180 (Z.max 96 C)).
  assert (Hs : (96 <= s <= 180)%Z) by (unfold s; lia).
  exists s. cbn [DonutGauge.size DonutGauge.stroke DonutGauge.value].
  split; [reflexivity |]. split; [exact Hs |]. split; [reflexivity |].
  split.
  - unfold DonutGauge.gauge, DonutGauge.size_of, DonutGauge.stroke_of.
    cbn [DonutGauge.radius DonutGauge.size DonutGauge.stroke
         JS.sub JS.add JS.neg].
    rewrite JSFacts.div_fin by lra. cbn [JS.max]. f_equal.
    assert (96 <= IZR s) by (apply IZR_le; lia).
    rewrite Rmax_right by lra. lra.
  - unfold growth_of, nullish. now destruct (found I).
Qed.

(** X23.  The bars of the timeline never leave the plot: whenever the bar
    chart is shown, its height is a whole number of at least 100, the plot
    is height - 24 pixels high, and every bar has a whole height between 0
    and the plot height, with its top between the top of the plot and the
    x axis. *)
Theorem X23_timeline_bars_inside_plot (I : Input) (P : MiniBarChart.Props) :
  content I = Bars P ->
  exists hh : Z,
    MiniBarChart.height P = Some (JS.Fin (IZR hh)) /\ (100 <= hh)%Z
    /\ MiniBarChart.innerHeight P = JS.Fin (IZR (hh - 24))
    /\ MiniBarChart.series P = Some (bar_series I)
    /\ Forall
         (fun b =>
            exists h : Z,
              MiniBarChart.bar_h b = JS.Fin (IZR h)
              /\ (0 <= h <= hh - 24)%Z
              /\ MiniBarChart.bar_y b = JS.Fin (IZR (4 + (hh - 24) - h)))
         (MiniBarChart.rects P).
Proof.
  intros Hc.
  assert (HP : P = {| MiniBarChart.series := Some (bar_series I);
                      MiniBarChart.height :=
                        Some (JS.max 100 (JS.floor (canvasH (basic_props I))));
                      MiniBarChart.barWidth := None;
                      MiniBarChart.gap := None |}).
  { unfold content in Hc. destruct (mode I); try discriminate.
    now injection Hc as <-. }
  subst P. clear Hc.
  destruct (TimelineFacts.heights (basic_props I))
    as (T & H & _ & _ & HC & _).
  rewrite HC. set (C := Z.max 40 (T - H)).
  rewrite (TimelineFacts.max_floor 100), ZfloorZ.
  set (hh := Z.max 100 C). assert (Hhh : (100 <= hh)%Z) by (unfold hh; lia).
  set (P := {| MiniBarChart.series := Some (bar_series I);
               MiniBarChart.height := Some (JS.Fin (IZR hh));
               MiniBarChart.barWidth := None; MiniBarChart.gap := None |}).
  assert (Hx : MiniBarChart.height_of P = JS.Fin (IZR hh)) by reflexivity.
  assert (Hmax : Rmax 1 (IZR hh - 18 - 6) = IZR (hh - 24)).
  { rewrite minus_IZR. assert (100 <= IZR hh) by (apply IZR_le; lia).
    rewrite Rmax_right by lra. lra. }
  exists hh. split; [reflexivity |]. split; [exact Hhh |].
  destruct (BarFacts.innerHeight_fin P _ Hx) as [HiH _].
  split; [now rewrite HiH, Hmax |]. split; [reflexivity |].
  pose proof (BarFacts.rects_inside P _ Hx) as Hall. cbn zeta in Hall.
  rewrite Hmax in Hall.
  eapply Forall_impl; [| exact Hall]. cbn beta.
  intros b (val & h & _ & _ & Hh & Hr & Hy & _).
  exists h. split; [exact Hh |].
  replace (IZR (hh - 24) + / 2)%R with (/ 2 + IZR (hh - 24))%R in Hr by lra.
  rewrite RoundFacts.Zfloor_shift in Hr.
  assert (Zfloor (/ 2) = 0%Z) by (apply Zfloor_eq; lra).
  split; [lia |]. rewrite Hy. f_equal.
  rewrite !minus_IZR, !plus_IZR, !minus_IZR. lra.
Qed.

(** X1.  The duration shown by [PeriodBadges]: the years and months are
    never negative, the months stay below 12, and together they are the
    whole months from the start to the end date, or nothing when the end
    date lies before the start date. *)
Theorem X1_duration_adds_up (startYear startMonth endYear endMonth : Z) :
  let (years, months) :=
    duration_between startYear startMonth endYear endMonth in
  (0 <= years)%Z /\ (0 <= months <= 11)%Z
  /\ (years * 12 + months)%Z
     = Z.max 0 (months_between startYear startMonth endYear endMonth).
Proof.
  unfold duration_between, months_between, js_rem.
  set (t := ((endYear - startYear) * 12 + (endMonth - startMonth))%Z).
  rewrite TimelineFacts.floor_div12.
  destruct (Z_lt_le_dec t 0) as [Hneg | Hpos].
  - assert (t / 12 < 0)%Z by (apply Z.div_lt_upper_bound; lia).
    assert (Z.rem t 12 <= 0)%Z by (apply Z.rem_nonpos; lia).
    rewrite !Z.max_l by lia. lia.
  - assert (0 <= t / 12)%Z by (apply Z.div_pos; lia).
    rewrite Z.rem_mod_nonneg by lia.
    pose proof (Z.mod_pos_bound t 12 ltac:(lia)).
    pose proof (Z.div_mod t 12 ltac:(lia)).
    rewrite !Z.max_r by lia. lia.
Qed.

End TimelineExtras.

Lemma X16_witness :
  let P := {| MiniBarChart.series := Some [JS.Fin 10; JS.Fin 20];
              MiniBarChart.height := option_map JS.Fin None;
              MiniBarChart.barWidth := None; MiniBarChart.gap := None |} in
  10 <= 20
  /\ JS.leb (MiniBarChart.bar_height P (JS.Fin 10))
       (MiniBarChart.bar_height P (JS.Fin 20)) = true
  /\ MiniBarChart.bar_height P (MiniBarChart.max_of P)
     = JS.round (MiniBarChart.innerHeight P).
Proof.
  cbn zeta.
  assert (H : 10 <= 20) by lra.
  split; [exact H |].
  exact (X16_taller_value_taller_bar (Some [JS.Fin 10; JS.Fin 20]) None None
           None 10 20 H).
Defined.

Lemma X18_witness :
  let P := {| MiniBarChart.series := Some [JS.Fin 10; JS.Fin 20; JS.Fin 30];
              MiniBarChart.height := None;
              MiniBarChart.barWidth := Some (JS.Fin 8);
              MiniBarChart.gap := Some (JS.Fin 6) |} in
  0 <= 8 /\ 0 < 6 /\ (1 < List.length (MiniBarChart.bars P))%nat
  /\ INR 1 * (8 + 6) <= 118 - 100 <= INR 1 * (8 + 6) + 8
  /\ MiniBarChart.onMouseMove P (JS.Fin 118) (JS.Fin 100)
     = Some (JS.Fin (INR 1)).
Proof.
  cbn zeta.
  assert (H1 : 0 <= 8) by lra.
  assert (H2 : 0 < 6) by lra.
  assert (H3 : (1 < List.length
                      (MiniBarChart.bars
                         {| MiniBarChart.series :=
                              Some [JS.Fin 10; JS.Fin 20; JS.Fin 30];
                            MiniBarChart.height := None;
                            MiniBarChart.barWidth := Some (JS.Fin 8);
                            MiniBarChart.gap := Some (JS.Fin 6) |}))%nat)
    by (cbn; lia).
  assert (H4 : INR 1 * (8 + 6) <= 118 - 100 <= INR 1 * (8 + 6) + 8)
    by (cbn [INR]; lra).
  split; [exact H1 |]. split; [exact H2 |]. split; [exact H3 |].
  split; [exact H4 |].
  exact (X18_pointer_over_bar_selects_it
           (Some [JS.Fin 10; JS.Fin 20; JS.Fin 30]) None 8 6 118 100 1
           H1 H2 H3 H4).
Defined.

Lemma X14_witness :
  let I := SpecCharts.sample_input true false in
  let P := {| DonutGauge.value := JS.Fin 250;
              DonutGauge.size :=
                Some (JS.min 180
                        (JS.max 96
                           (JS.floor
                              (Timeline.canvasH (Timeline.basic_props I)))));
              DonutGauge.stroke := None |} in
  Timeline.content I = Timeline.Donut P
  /\ exists s : Z,
       DonutGauge.size P = Some (JS.Fin (IZR s)) /\ (96 <= s <= 180)%Z
       /\ DonutGauge.stroke P = None
       /\ DonutGauge.radius (DonutGauge.gauge P) = JS.Fin ((IZR s - 10) / 2)
       /\ DonutGauge.value P
          = match Timeline.found I with
            | Some p => Timeline.growth p
            | None => JS.Fin 0
            end.
Proof.
  cbn zeta.
  split; [reflexivity |].
  exact (X14_timeline_donut_fits (SpecCharts.sample_input true false) _
           eq_refl).
Defined.

Lemma X23_witness :
  let I := SpecCharts.sample_input false true in
  let P := {| MiniBarChart.series := Some (Timeline.bar_series I);
              MiniBarChart.height :=
                Some (JS.max 100
                        (JS.floor
                           (Timeline.canvasH (Timeline.basic_props I))));
              MiniBarChart.barWidth := None;
              MiniBarChart.gap := None |} in
  Timeline.content I = Timeline.Bars P
  /\ exists hh : Z,
       MiniBarChart.height P = Some (JS.Fin (IZR hh)) /\ (100 <= hh)%Z
       /\ MiniBarChart.innerHeight P = JS.Fin (IZR (hh - 24))
       /\ MiniBarChart.series P = Some (Timeline.bar_series I)
       /\ Forall
            (fun b =>
               exists h : Z,
                 MiniBarChart.bar_h b = JS.Fin (IZR h)
                 /\ (0 <= h <= hh - 24)%Z
                 /\ MiniBarChart.bar_y b = JS.Fin (IZR (4 + (hh - 24) - h)))
            (MiniBarChart.rects P).
Proof.
  cbn zeta.
  split; [reflexivity |].
  exact (X23_timeline_bars_inside_plot (SpecCharts.sample_input false true) _
           eq_refl).
Defined.
